(** * ReaPack: version codes, index loading, synchronisation, task
      execution and archive import

    A shallow embedding of the transactional core of ReaPack
    (src/transaction.cpp, src/archive.cpp, src/index.cpp) together with
    the statements of its specification that concern it. *)

From Stdlib Require Import ZArith Lia Bool List Ascii String.
From stdpp Require Import base gmap strings list pretty.
Import ListNotations.

Set Warnings "-register-all".

Local Open Scope string_scope.
Local Open Scope Z_scope.
Local Open Scope list_scope.

(** ** Errors

    [reapack_error] carries a human readable message; a function that may
    throw it returns a [result]. *)

Inductive result (A : Type) : Type :=
| Ok (a : A)
| Err (what : string).
Arguments Ok {A} a.
Arguments Err {A} what.


(** ** Version *)

Module Version.

Definition MAX_COMPONENTS : nat := 4.
Definition MAX_COMPONENT_LENGTH : nat := 4.

Definition is_digit (c : ascii) : bool :=
  let n := nat_of_ascii c in (48 <=? n)%nat && (n <=? 57)%nat.

Definition digit_value (c : ascii) : Z := Z.of_nat (nat_of_ascii c) - 48.

(** Modelled from the spec: version.cpp is not among the sources (only
    its test-suite is).  The numeric components of a version name are its
    maximal runs of decimal digits, in order of appearance; this is what
    lets the digits of a suffix count for the ordering, "1.2pre3" having
    the components 1, 2 and 3. [cur] is the run being read. *)
Fixpoint digit_runs (cur : string) (s : string) : list string :=
  match s with
  | EmptyString =>
      match cur with EmptyString => [] | _ => [cur] end
  | String c rest =>
      if is_digit c then digit_runs (cur +:+ String c EmptyString) rest
      else match cur with
           | EmptyString => digit_runs EmptyString rest
           | _ => cur :: digit_runs EmptyString rest
           end
  end.

Definition components (s : string) : list string := digit_runs EmptyString s.

(** The value of a run of digits, read in base ten. *)
Fixpoint stoi_from (acc : Z) (s : string) : Z :=
  match s with
  | EmptyString => acc
  | String c rest => stoi_from (10 * acc + digit_value c) rest
  end.

Definition stoi (s : string) : Z := stoi_from 0 s.

(** Arithmetic of the 64-bit unsigned code. *)
Definition u64 (z : Z) : Z := z mod 2 ^ 64.

(** Modelled from the spec: component [i] (counted from 0) is packed at
    the decimal offset 10000^(3 - i) of the 64-bit code. *)
Fixpoint pack (index : nat) (comps : list string) (code : Z) : Z :=
  match comps with
  | [] => code
  | c :: rest =>
      pack (S index) rest
        (u64 (code + stoi c * 10000 ^ Z.of_nat (MAX_COMPONENTS - index - 1)))
  end.

Record t : Type := mk { name : string; code : Z }.

#[global] Instance t_eq_dec : EqDecision t.
Proof. solve_decision. Defined.

Definition too_long (c : string) : bool :=
  (MAX_COMPONENT_LENGTH <? String.length c)%nat.

(** Modelled from the spec: constructing a version from a string fails
    with "invalid version name" when the string has no numeric component
    or more than four, then with "version component overflow" when a
    component has more than four digits; otherwise it keeps the name as
    written and packs the code. *)
Definition parse (s : string) : result t :=
  let comps := components s in
  if (length comps =? 0)%nat || (MAX_COMPONENTS <? length comps)%nat
  then Err "invalid version name"
  else if existsb too_long comps
  then Err "version component overflow"
  else Ok {| name := s; code := pack 0 comps 0 |}.

(** Modelled from the spec: comparison and equality of versions look at
    the code only. *)
Definition compare (a b : t) : comparison := Z.compare (code a) (code b).
Definition eqb (a b : t) : bool :=
  match compare a b with Eq => true | _ => false end.
Definition ltb (a b : t) : bool :=
  match compare a b with Lt => true | _ => false end.

(** Comparison of two version names given as strings, both of which must
    be well formed. *)
Definition parsed_rel (rel : t -> t -> bool) (a b : string) : option bool :=
  match parse a, parse b with
  | Ok va, Ok vb => Some (rel va vb)
  | _, _ => None
  end.

Definition code_of (s : string) : option Z :=
  match parse s with Ok v => Some (code v) | Err _ => None end.

(** The place value of the components from position [index] on: the
    component at position [i] counts 10000^(3 - i) times. *)
Fixpoint place_value (index : nat) (comps : list string) : Z :=
  match comps with
  | [] => 0
  | c :: rest =>
      stoi c * 10000 ^ (3 - Z.of_nat index) + place_value (S index) rest
  end.

Fixpoint all_digits (s : string) : bool :=
  match s with
  | EmptyString => true
  | String c rest => is_digit c && all_digits rest
  end.

End Version.

(** ** Paths and the file system

    A [Path] is kept joined, as a string.  The file system maps the path
    of each existing file to its modification time and, for an index file,
    to the document TinyXML reads from it. *)

Inductive TiXmlElement : Type :=
| Element (value : string) (attributes : list (string * string))
          (children : list TiXmlElement).

Definition Value (e : TiXmlElement) : string :=
  match e with Element v _ _ => v end.
Definition Attributes (e : TiXmlElement) : list (string * string) :=
  match e with Element _ a _ => a end.

(** A parsed document: either the parser reported an error ([ErrorId] is
    not zero and [ErrorDesc] describes it) or there is a root element.
    A document without error and without any element, which [Index::load]
    would dereference, is left out. *)
Inductive TiXmlDocument : Type :=
| DocError (ErrorDesc : string)
| DocRoot (RootElement : TiXmlElement).

Module FS.

Record File : Type := mkFile { f_mtime : Z; f_doc : TiXmlDocument }.

Definition t : Type := gmap string File.

Definition exists_ (fs : t) (path : string) : bool :=
  match fs !! path with Some _ => true | None => false end.

(** [FS::mtime(path, &mtime)] leaves [mtime] alone when the file cannot
    be examined; the caller initialises it to 0. *)
Definition mtime (fs : t) (path : string) (init : Z) : Z :=
  match fs !! path with Some f => f_mtime f | None => init end.

(** [FS::lastError()] describes the last failure of the system; the one
    met here is a file that does not exist. *)
Definition lastError : string := "No such file or directory".

End FS.

(** ** The index tree *)

Module Index.

(** A version of a package as the index lists it: its name and the set
    of files it installs. *)
Record IVersion : Type := mkVersion {
  v_name : Version.t;
  v_files : list string
}.

Inductive PackageType : Type :=
| UnknownType | ScriptType | ExtensionType | EffectType | DataType.

(** A package with the names of the category and of the index it belongs
    to (the back-references of the source). *)
Record Package : Type := mkPackage {
  p_remote : string;
  p_category : string;
  p_type : PackageType;
  p_name : string;
  p_versions : list IVersion
}.

Record Category : Type := mkCategory {
  c_name : string;
  c_packages : list Package
}.

Record t : Type := mkIndex {
  name : string;
  categories : list Category
}.

(** [Index::pathFor]: the file of the cache directory named after the
    remote.  What the directory is called makes no difference here. *)
Definition pathFor (name : string) : string := "cache/" +:+ name +:+ ".xml".

(** [m_packages]: the packages of every category, in insertion order. *)
Definition packages (ri : t) : list Package :=
  flat_map c_packages (categories ri).

(** [m_catMap] and [m_pkgMap] are filled with [insert], which keeps the
    first position recorded for a name. *)
Definition category (ri : t) (name : string) : option Category :=
  List.find (fun c => String.eqb (c_name c) name) (categories ri).

Definition package (cat : Category) (name : string) : option Package :=
  List.find (fun p => String.eqb (p_name p) name) (c_packages cat).

Definition find (ri : t) (catName pkgName : string) : option Package :=
  match category ri catName with
  | Some cat => package cat pkgName
  | None => None
  end.

(** *** Reading the [version] attribute

    [root->Attribute("version", &version)] converts the text of the
    attribute the way [atoi] does: leading white space, an optional
    sign, then the longest run of decimal digits; text without digits
    reads as 0, and so does a missing attribute, [version] starting at
    0.  [atoi] is [strtol] cast to [int]: the number is first held in a
    [long] of 64 bits, where a number out of range is replaced by the
    largest or the smallest [long], and the [int] keeps the low 32 bits
    of it. *)

Definition is_space (c : ascii) : bool :=
  let n := nat_of_ascii c in
  (n =? 32)%nat || ((9 <=? n)%nat && (n <=? 13)%nat).

Fixpoint skip_spaces (s : string) : string :=
  match s with
  | String c rest => if is_space c then skip_spaces rest else s
  | EmptyString => s
  end.

Fixpoint read_digits (acc : Z) (s : string) : Z :=
  match s with
  | String c rest =>
      if Version.is_digit c
      then read_digits (10 * acc + Version.digit_value c) rest
      else acc
  | EmptyString => acc
  end.

Definition LONG_MAX : Z := 2 ^ 63 - 1.
Definition LONG_MIN : Z := - 2 ^ 63.

Definition to_long (z : Z) : Z := Z.max LONG_MIN (Z.min LONG_MAX z).

Definition to_int (z : Z) : Z := (z + 2 ^ 31) mod 2 ^ 32 - 2 ^ 31.

Definition atoi (s : string) : Z :=
  match skip_spaces s with
  | String "-" rest => to_int (to_long (- read_digits 0 rest))
  | String "+" rest => to_int (to_long (read_digits 0 rest))
  | rest => to_int (to_long (read_digits 0 rest))
  end.

Fixpoint attribute (attrs : list (string * string)) (name : string)
  : option string :=
  match attrs with
  | [] => None
  | (k, v) :: rest => if String.eqb k name then Some v else attribute rest name
  end.

Definition Attribute_int (e : TiXmlElement) (name : string) (init : Z) : Z :=
  match attribute (Attributes e) name with
  | Some s => atoi s
  | None => init
  end.

Section Loading.

(** The loader of version 1 documents lives in a file of its own; it
    fills the index it is given or throws. *)
Variable loadV1 : TiXmlElement -> t -> result t.

(** [Index::load(name, data)] once the document is at hand. *)
Definition load_doc (name : string) (doc : TiXmlDocument) : result t :=
  match doc with
  | DocError desc => Err desc
  | DocRoot root =>
      if negb (String.eqb (Value root) "index")
      then Err "invalid index"
      else
        let version := Attribute_int root "version" 0 in
        if (version =? 0)%Z
        then Err "index version not found"
        else
          let ri := {| name := name; categories := [] |} in
          if (version =? 1)%Z then loadV1 root ri
          else Err "index version is unsupported"
  end.

(** [Index::load(name)]: the document is read from the cache. *)
Definition load (fs : FS.t) (name : string) : result t :=
  match fs !! pathFor name with
  | None => Err FS.lastError
  | Some f => load_doc name (FS.f_doc f)
  end.

End Loading.

End Index.

(** ** Registry *)

Module Registry.

Record Entry : Type := mkEntry {
  remote : string;
  category : string;
  package : string;
  version : Version.t;
  pinned : bool
}.

#[global] Instance Entry_eq_dec : EqDecision Entry.
Proof. solve_decision. Defined.

Record File : Type := mkFile {
  path : string;
  type : Index.PackageType;
  sections : Z
}.

(** The record kept for an installed package: the entry and its files,
    under the key (remote, category, package). *)
Definition Row : Type := (Entry * list File)%type.

Abbreviation table := (gmap (string * string * string) Row).

Definition key_of (e : Entry) : string * string * string :=
  (remote e, category e, package e).

(** Modelled from the spec: the storage engine of the registry is not
    among the sources.  It is a transactional store with nested
    checkpoints: [durable] is what has been committed, [working] what the
    open transaction sees, [savepoints] the open checkpoints, innermost
    first. *)
Record t : Type := mk {
  durable : table;
  working : table;
  savepoints : list table
}.

Definition open (db : table) : t :=
  {| durable := db; working := db; savepoints := [] |}.

(** Modelled from the spec: [savepoint()] opens a checkpoint. *)
Definition savepoint (r : t) : t :=
  {| durable := durable r; working := working r;
     savepoints := working r :: savepoints r |}.

(** Modelled from the spec: [restore()] undoes the changes made since the
    most recent open checkpoint, without closing the transaction. *)
Definition restore (r : t) : t :=
  match savepoints r with
  | sp :: rest =>
      {| durable := durable r; working := sp; savepoints := rest |}
  | [] => r
  end.

(** Modelled from the spec: [commit()] durably persists all changes made
    since the outermost checkpoint. *)
Definition commit (r : t) : t :=
  {| durable := working r; working := working r; savepoints := [] |}.

Definition with_working (w : table) (r : t) : t :=
  {| durable := durable r; working := w; savepoints := savepoints r |}.

Definition getEntry (r : t) (pkg : Index.Package) : option Entry :=
  fst <$> working r !! (Index.p_remote pkg, Index.p_category pkg, Index.p_name pkg).

Definition getEntries (r : t) (remoteName : string) : list Entry :=
  List.filter (fun e => String.eqb (remote e) remoteName)
    (map (fun kv => fst (snd kv)) (map_to_list (working r))).

Definition getFiles (r : t) (e : Entry) : list File :=
  match working r !! key_of e with
  | Some row => snd row
  | None => []
  end.

(** Main files are the files that register into a section of the host. *)
Definition getMainFiles (r : t) (e : Entry) : list File :=
  List.filter (fun f => negb (sections f =? 0)%Z) (getFiles r e).

(** What the fields of an empty entry read as. *)
Definition null_version : Version.t := {| Version.name := EmptyString; Version.code := 0 |}.

Definition version_of (e : option Entry) : Version.t :=
  match e with Some e => version e | None => null_version end.

Definition pinned_of (e : option Entry) : bool :=
  match e with Some e => pinned e | None => false end.

End Registry.

(** ** Configuration *)

Module Config.

Record InstallOpts : Type := mkOpts {
  autoInstall : bool;
  bleedingEdge : bool;
  promptObsolete : bool
}.

Definition with_autoInstall (v : bool) (o : InstallOpts) : InstallOpts :=
  {| autoInstall := v; bleedingEdge := bleedingEdge o;
     promptObsolete := promptObsolete o |}.

Inductive tribool : Type := tri_false | tri_true | indeterminate.

Record Remote : Type := mkRemote {
  name : string;
  url : string;
  isEnabled : bool;
  isProtected : bool;
  autoInstall_of : tribool
}.

Record t : Type := mkConfig {
  install : InstallOpts;
  remotes : list Remote
}.

End Config.

(** ** Transaction *)

Module Transaction.

Import Index Registry.
Import Config (InstallOpts, Remote).

Definition STALE_THRESHOLD : Z := 7 * 24 * 3600.

(** A [const Version *]: the version together with the package that owns
    it. *)
Record VersionRef : Type := mkRef {
  vr_package : Package;
  vr_version : IVersion
}.

(** An [ArchiveReaderPtr]: null, or the reader of the archive at a path. *)
Definition ArchiveReaderPtr : Type := option string.

Inductive Task : Type :=
| InstallTask (ver : VersionRef) (pin : bool) (oldEntry : option Entry)
              (reader : ArchiveReaderPtr)
| UninstallTask (entry : Entry)
| PinTask (entry : Entry) (pinned : bool).

(** A [TaskQueue] hands out its tasks in an order fixed by a comparison
    declared with the tasks; here it is the order of insertion, and
    nothing below depends on it. *)
Definition TaskQueue : Type := list Task.

Record HostTicket : Type := mkTicket {
  add : bool;
  entry : Entry;
  file : File
}.

(** An entry of the receipt: message and title. *)
Definition ErrorInfo : Type := (string * string)%type.

(** What [fetchIndex] does with an index once it is loaded: nothing, or
    the body of the closure [synchronize(remote)] passes. *)
Inductive IndexCallback : Type :=
| NoCallback
| SyncPackages (remote : Remote) (opts : InstallOpts).

(** The tasks of the thread pool: the download of an index, or a
    download or extraction on behalf of a task of the transaction. *)
Inductive ThreadTask : Type :=
| FileDownload (remote : Remote) (cb : IndexCallback)
| TaskJob (owner : Task).

(** How a task of the thread pool ends.  A download that succeeds leaves
    the file it saves. *)
Inductive Outcome : Type :=
| Success (saved : FS.File)
| Failure (error : ErrorInfo)
| Aborted.

(** The order of what the transaction does to the registry, to its
    tasks, to the pool and to the host. *)
Inductive Event : Type :=
| ESavepoint
| ERestore
| ERegistryCommit
| EStart (task : Task) (started : bool)
| ETaskCommit (task : Task)
| ETaskRollback (task : Task)
| EPush (job : ThreadTask)
| EThreadDone (job : ThreadTask)
| EHostRegister (ticket : HostTicket) (isLastCall : bool)
| EFinish.

Record t : Type := mkState {
  m_isCancelled : bool;
  m_config : Config.t;
  m_registry : Registry.t;
  m_receipt : list ErrorInfo;
  m_syncedRemotes : gset string;
  m_indexes : gmap string Index.t;
  m_obsolete : list Entry;
  m_inhibited : gset string;
  m_nextQueue : TaskQueue;
  m_taskQueues : list TaskQueue;
  m_runningTasks : list Task;
  m_regQueue : list HostTicket;
  m_threadPool : list ThreadTask;
  (* the world around the transaction *)
  fs : FS.t;
  now : Z;
  (* whether [finish] ran, and the events so far, oldest first *)
  finished : bool;
  trace : list Event
}.

Definition set_isCancelled (v : bool) (s : t) : t :=
  mkState v (m_config s) (m_registry s) (m_receipt s) (m_syncedRemotes s)
    (m_indexes s) (m_obsolete s) (m_inhibited s) (m_nextQueue s)
    (m_taskQueues s) (m_runningTasks s) (m_regQueue s) (m_threadPool s)
    (fs s) (now s) (finished s) (trace s).
Definition set_config (v : Config.t) (s : t) : t :=
  mkState (m_isCancelled s) v (m_registry s) (m_receipt s) (m_syncedRemotes s)
    (m_indexes s) (m_obsolete s) (m_inhibited s) (m_nextQueue s)
    (m_taskQueues s) (m_runningTasks s) (m_regQueue s) (m_threadPool s)
    (fs s) (now s) (finished s) (trace s).
Definition set_registry (v : Registry.t) (s : t) : t :=
  mkState (m_isCancelled s) (m_config s) v (m_receipt s) (m_syncedRemotes s)
    (m_indexes s) (m_obsolete s) (m_inhibited s) (m_nextQueue s)
    (m_taskQueues s) (m_runningTasks s) (m_regQueue s) (m_threadPool s)
    (fs s) (now s) (finished s) (trace s).
Definition set_receipt (v : list ErrorInfo) (s : t) : t :=
  mkState (m_isCancelled s) (m_config s) (m_registry s) v (m_syncedRemotes s)
    (m_indexes s) (m_obsolete s) (m_inhibited s) (m_nextQueue s)
    (m_taskQueues s) (m_runningTasks s) (m_regQueue s) (m_threadPool s)
    (fs s) (now s) (finished s) (trace s).
Definition set_syncedRemotes (v : gset string) (s : t) : t :=
  mkState (m_isCancelled s) (m_config s) (m_registry s) (m_receipt s) v
    (m_indexes s) (m_obsolete s) (m_inhibited s) (m_nextQueue s)
    (m_taskQueues s) (m_runningTasks s) (m_regQueue s) (m_threadPool s)
    (fs s) (now s) (finished s) (trace s).
Definition set_indexes (v : gmap string Index.t) (s : t) : t :=
  mkState (m_isCancelled s) (m_config s) (m_registry s) (m_receipt s)
    (m_syncedRemotes s) v (m_obsolete s) (m_inhibited s) (m_nextQueue s)
    (m_taskQueues s) (m_runningTasks s) (m_regQueue s) (m_threadPool s)
    (fs s) (now s) (finished s) (trace s).
Definition set_obsolete (v : list Entry) (s : t) : t :=
  mkState (m_isCancelled s) (m_config s) (m_registry s) (m_receipt s)
    (m_syncedRemotes s) (m_indexes s) v (m_inhibited s) (m_nextQueue s)
    (m_taskQueues s) (m_runningTasks s) (m_regQueue s) (m_threadPool s)
    (fs s) (now s) (finished s) (trace s).
Definition set_inhibited (v : gset string) (s : t) : t :=
  mkState (m_isCancelled s) (m_config s) (m_registry s) (m_receipt s)
    (m_syncedRemotes s) (m_indexes s) (m_obsolete s) v (m_nextQueue s)
    (m_taskQueues s) (m_runningTasks s) (m_regQueue s) (m_threadPool s)
    (fs s) (now s) (finished s) (trace s).
Definition set_nextQueue (v : TaskQueue) (s : t) : t :=
  mkState (m_isCancelled s) (m_config s) (m_registry s) (m_receipt s)
    (m_syncedRemotes s) (m_indexes s) (m_obsolete s) (m_inhibited s) v
    (m_taskQueues s) (m_runningTasks s) (m_regQueue s) (m_threadPool s)
    (fs s) (now s) (finished s) (trace s).
Definition set_taskQueues (v : list TaskQueue) (s : t) : t :=
  mkState (m_isCancelled s) (m_config s) (m_registry s) (m_receipt s)
    (m_syncedRemotes s) (m_indexes s) (m_obsolete s) (m_inhibited s)
    (m_nextQueue s) v (m_runningTasks s) (m_regQueue s) (m_threadPool s)
    (fs s) (now s) (finished s) (trace s).
Definition set_runningTasks (v : list Task) (s : t) : t :=
  mkState (m_isCancelled s) (m_config s) (m_registry s) (m_receipt s)
    (m_syncedRemotes s) (m_indexes s) (m_obsolete s) (m_inhibited s)
    (m_nextQueue s) (m_taskQueues s) v (m_regQueue s) (m_threadPool s)
    (fs s) (now s) (finished s) (trace s).
Definition set_regQueue (v : list HostTicket) (s : t) : t :=
  mkState (m_isCancelled s) (m_config s) (m_registry s) (m_receipt s)
    (m_syncedRemotes s) (m_indexes s) (m_obsolete s) (m_inhibited s)
    (m_nextQueue s) (m_taskQueues s) (m_runningTasks s) v (m_threadPool s)
    (fs s) (now s) (finished s) (trace s).
Definition set_threadPool (v : list ThreadTask) (s : t) : t :=
  mkState (m_isCancelled s) (m_config s) (m_registry s) (m_receipt s)
    (m_syncedRemotes s) (m_indexes s) (m_obsolete s) (m_inhibited s)
    (m_nextQueue s) (m_taskQueues s) (m_runningTasks s) (m_regQueue s) v
    (fs s) (now s) (finished s) (trace s).
Definition set_fs (v : FS.t) (s : t) : t :=
  mkState (m_isCancelled s) (m_config s) (m_registry s) (m_receipt s)
    (m_syncedRemotes s) (m_indexes s) (m_obsolete s) (m_inhibited s)
    (m_nextQueue s) (m_taskQueues s) (m_runningTasks s) (m_regQueue s)
    (m_threadPool s) v (now s) (finished s) (trace s).
Definition set_finished (v : bool) (s : t) : t :=
  mkState (m_isCancelled s) (m_config s) (m_registry s) (m_receipt s)
    (m_syncedRemotes s) (m_indexes s) (m_obsolete s) (m_inhibited s)
    (m_nextQueue s) (m_taskQueues s) (m_runningTasks s) (m_regQueue s)
    (m_threadPool s) (fs s) (now s) v (trace s).
Definition set_trace (v : list Event) (s : t) : t :=
  mkState (m_isCancelled s) (m_config s) (m_registry s) (m_receipt s)
    (m_syncedRemotes s) (m_indexes s) (m_obsolete s) (m_inhibited s)
    (m_nextQueue s) (m_taskQueues s) (m_runningTasks s) (m_regQueue s)
    (m_threadPool s) (fs s) (now s) (finished s) v.

Definition emit (e : Event) (s : t) : t := set_trace (trace s ++ [e]) s.

Definition addError (e : ErrorInfo) (s : t) : t :=
  set_receipt (m_receipt s ++ [e]) s.

(** [m_threadPool.push(task)] *)
Definition pool_push (job : ThreadTask) (s : t) : t :=
  emit (EPush job) (set_threadPool (m_threadPool s ++ [job]) s).

Definition idle (s : t) : bool :=
  match m_threadPool s with [] => true | _ => false end.

(** [Transaction::Transaction]: the registry is opened and a first
    savepoint taken. *)
Definition create (config : Config.t) (db : Registry.table) (files : FS.t)
    (time : Z) : t :=
  emit ESavepoint
    (mkState false config (Registry.savepoint (Registry.open db)) []
       ∅ ∅ [] ∅ [] [] [] [] [] files time false []).

Definition allFilesExists (s : t) (list : list string) : bool :=
  forallb (FS.exists_ (fs s)) list.


Section Operations.

(** Index.load needs the loader of version 1 documents. *)
Variable loadV1 : TiXmlElement -> Index.t -> result Index.t.

(** [Package::lastVersion(prerelease, from)] is defined with the
    packages, outside of these sources: the latest version of the
    package that may be installed over [from], if there is one. *)
Variable lastVersion : Package -> bool -> Version.t -> option IVersion.

(** The handler given to [setObsoleteHandler]: it may edit the
    selection and tells whether to go on. *)
Variable m_promptObsolete : list Entry -> bool * list Entry.

(** The tasks are implemented outside of these sources.  [start] may
    write to the registry of the transaction (to look for conflicts),
    report errors and push work on the thread pool, and tells whether
    the task started; [commit] writes to the registry and queues
    registrations in the host; [rollback] leaves the registry alone. *)
Record StartResult : Type := mkStart {
  started : bool;
  probed : Registry.table;
  jobs : nat;
  start_errors : list ErrorInfo
}.

Record CommitResult : Type := mkCommit {
  written : Registry.table;
  tickets : list HostTicket;
  commit_errors : list ErrorInfo
}.

Variable doStart : Task -> Registry.table -> StartResult.
Variable doCommit : Task -> Registry.table -> CommitResult.
Variable doRollback : Task -> list ErrorInfo.

(** *** Synchronisation *)

Definition enqueue (task : Task) (s : t) : t :=
  set_nextQueue (m_nextQueue s ++ [task]) s.

(** [Transaction::synchronize(const Package *, const InstallOpts &)] *)
Definition synchronize_package (pkg : Package) (opts : InstallOpts)
    (s : t) : t :=
  let regEntry := getEntry (m_registry s) pkg in
  if negb (bool_decide (is_Some regEntry)) && negb (Config.autoInstall opts)
  then s
  else
    match lastVersion pkg (Config.bleedingEdge opts) (version_of regEntry) with
    | None => s
    | Some latest =>
        let push :=
          enqueue (InstallTask (mkRef pkg latest) false regEntry None) s in
        if Version.eqb (version_of regEntry) (v_name latest)
        then
          if allFilesExists s (v_files latest) then s else push
        else if pinned_of regEntry
                || Version.ltb (v_name latest) (version_of regEntry)
        then s
        else push
    end.

(** [m_obsolete] is a set. *)
Definition obsolete_insert (e : Entry) (s : t) : t :=
  if bool_decide (e ∈ m_obsolete s) then s
  else set_obsolete (m_obsolete s ++ [e]) s.

(** The closure [fetchIndex] runs on a loaded index. *)
Definition run_callback (cb : IndexCallback) (ri : Index.t) (s : t) : t :=
  match cb with
  | NoCallback => s
  | SyncPackages remote opts =>
      let s := fold_left (fun s pkg => synchronize_package pkg opts s)
                 (packages ri) s in
      if Config.promptObsolete (Config.install (m_config s))
         && negb (Config.isProtected remote)
      then
        fold_left
          (fun s entry =>
             match Index.find ri (category entry) (package entry) with
             | Some _ => s
             | None => obsolete_insert entry s
             end)
          (getEntries (m_registry s) (Index.name ri)) s
      else s
  end.

(** [Transaction::loadIndex] *)
Definition loadIndex (remote : Remote) (s : t) : option Index.t * t :=
  match m_indexes s !! Config.name remote with
  | Some ri => (Some ri, s)
  | None =>
      match Index.load loadV1 (fs s) (Config.name remote) with
      | Ok ri =>
          (Some ri,
           set_indexes (<[Config.name remote := ri]> (m_indexes s)) s)
      | Err what =>
          (None,
           addError ("Couldn't load repository: " +:+ what,
                     Config.name remote) s)
      end
  end.

(** The closure [load] of [fetchIndex]. *)
Definition load_then (remote : Remote) (cb : IndexCallback) (s : t) : t :=
  match loadIndex remote s with
  | (Some ri, s) => run_callback cb ri s
  | (None, s) => s
  end.

(** [Transaction::fetchIndex]; times are [time_t] values, far from the
    bounds of the type. *)
Definition fetchIndex (remote : Remote) (stale : bool)
    (cb : IndexCallback) (s : t) : t :=
  let path := pathFor (Config.name remote) in
  let mtime := FS.mtime (fs s) path 0 in
  if negb stale && (now s - STALE_THRESHOLD <? mtime)%Z
  then load_then remote cb s
  else pool_push (FileDownload remote cb) s.

(** [Transaction::synchronize(const Remote &, optional<bool>)] *)
Definition synchronize (remote : Remote) (forceAutoInstall : option bool)
    (s : t) : t :=
  if bool_decide (Config.name remote ∈ m_syncedRemotes s) then s
  else
    let s := set_syncedRemotes ({[Config.name remote]} ∪ m_syncedRemotes s) s in
    let opts := Config.install (m_config s) in
    let opts :=
      match forceAutoInstall with
      | Some b => Config.with_autoInstall b opts
      | None =>
          match Config.autoInstall_of remote with
          | Config.indeterminate => opts
          | Config.tri_true => Config.with_autoInstall true opts
          | Config.tri_false => Config.with_autoInstall false opts
          end
      end in
    fetchIndex remote true (SyncPackages remote opts) s.

(** [Transaction::fetchIndexes] *)
Definition fetchIndexes (remotes : list Remote) (stale : bool) (s : t) : t :=
  fold_left (fun s remote => fetchIndex remote stale NoCallback s) remotes s.

(** What the transaction runs when the download of an index ends:
    the closure given to [dl->onFinish], then the one [onPush] added.
    [dl->save()] writes the index when the download succeeded and fails
    otherwise. *)
Definition download_finished (remote : Remote) (cb : IndexCallback)
    (outcome : Outcome) (s : t) : t :=
  let path := pathFor (Config.name remote) in
  let s :=
    match outcome with
    | Success f => set_fs (<[path := f]> (fs s)) s
    | _ => addError (FS.lastError, path) s
    end in
  let s := if FS.exists_ (fs s) path then load_then remote cb s else s in
  match outcome with
  | Failure e => addError e s
  | _ => s
  end.

(** *** Explicit requests *)

Definition install (ver : VersionRef) (pin : bool)
    (reader : ArchiveReaderPtr) (s : t) : t :=
  let oldEntry := getEntry (m_registry s) (vr_package ver) in
  enqueue (InstallTask ver pin oldEntry reader) s.

Definition setPinned (entry : Entry) (pinned : bool) (s : t) : t :=
  enqueue (PinTask entry pinned) s.

Definition uninstall (entry : Entry) (s : t) : t :=
  enqueue (UninstallTask entry) s.

Definition inhibit (remote : Remote) (s : t) : t :=
  set_inhibited ({[Config.name remote]} ∪ m_inhibited s)
    (set_syncedRemotes (m_syncedRemotes s ∖ {[Config.name remote]}) s).

(** [Transaction::uninstall(const Remote &)]; removing the index file
    is taken to succeed. *)
Definition uninstall_remote (remote : Remote) (s : t) : t :=
  let s := inhibit remote s in
  let indexPath := pathFor (Config.name remote) in
  let s := if FS.exists_ (fs s) indexPath
           then set_fs (delete indexPath (fs s)) s else s in
  fold_left (fun s entry => uninstall entry s)
    (getEntries (m_registry s) (Config.name remote)) s.

Definition registerFile (ticket : HostTicket) (s : t) : t :=
  set_regQueue (m_regQueue s ++ [ticket]) s.

(** [Transaction::registerAll(bool, const Registry::Entry &)] *)
Definition registerAll_entry (add : bool) (entry : Entry) (s : t) : t :=
  fold_left (fun s file => registerFile (mkTicket add entry file) s)
    (getMainFiles (m_registry s) entry) s.

(** [Transaction::registerAll(const Remote &)] *)
Definition registerAll (remote : Remote) (s : t) : t :=
  let entries := getEntries (m_registry s) (Config.name remote) in
  let s := fold_left
             (fun s entry => registerAll_entry (Config.isEnabled remote) entry s)
             entries s in
  if negb (Config.isEnabled remote) then inhibit remote s else s.

(** *** Running the tasks *)

Definition addErrors (es : list ErrorInfo) (s : t) : t :=
  set_receipt (m_receipt s ++ es) s.

Definition write_registry (w : Registry.table) (s : t) : t :=
  set_registry (with_working w (m_registry s)) s.

(** [task->start()], and [m_runningTasks.push(task)] when it
    succeeds. *)
Definition start_task (task : Task) (s : t) : t :=
  let r := doStart task (working (m_registry s)) in
  let s := addErrors (start_errors r) (write_registry (probed r) s) in
  let s := Nat.iter (jobs r) (pool_push (TaskJob task)) s in
  let s := emit (EStart task (started r)) s in
  if started r then set_runningTasks (m_runningTasks s ++ [task]) s else s.

(** [task->commit()] *)
Definition commit_task (task : Task) (s : t) : t :=
  let r := doCommit task (working (m_registry s)) in
  let s := addErrors (commit_errors r) (write_registry (written r) s) in
  emit (ETaskCommit task) (set_regQueue (m_regQueue s ++ tickets r) s).

(** [task->rollback()] *)
Definition rollback_task (task : Task) (s : t) : t :=
  emit (ETaskRollback task) (addErrors (doRollback task) s).

(** The loop of [commitTasks] over [m_runningTasks]. *)
Fixpoint finish_running (running : list Task) (s : t) : t :=
  match running with
  | [] => s
  | front :: rest =>
      let s := if m_isCancelled s then rollback_task front s
               else commit_task front s in
      finish_running rest (set_runningTasks rest s)
  end.

(** [Transaction::commitTasks] *)
Definition commitTasks (s : t) : bool * t :=
  if negb (idle s) then (false, s)
  else (true, finish_running (m_runningTasks s) s).

(** [Transaction::finish]: the handlers are called, and the second
    deletes the transaction. *)
Definition finish (s : t) : t := emit EFinish (set_finished true s).

(** [Transaction::registerScript]; the calls into the host for the
    sections of the file are kept as one event. *)
Definition registerScript (reg : HostTicket) (isLastCall : bool) (s : t) : t :=
  if (sections (file reg) =? 0)%Z then s
  else emit (EHostRegister reg isLastCall) s.

(** [Transaction::registerQueued] *)
Fixpoint registerQueued_from (queue : list HostTicket) (s : t) : t :=
  match queue with
  | [] => s
  | reg :: rest =>
      if add reg && bool_decide (remote (entry reg) ∈ m_inhibited s)
      then set_regQueue rest s
      else
        let s :=
          match type (file reg) with
          | ScriptType => registerScript reg (length queue =? 1)%nat s
          | _ => s
          end in
        registerQueued_from rest (set_regQueue rest s)
  end.

Definition registerQueued (s : t) : t :=
  registerQueued_from (m_regQueue s) s.

(** [Transaction::promptObsolete] *)
Definition promptObsolete (s : t) : t :=
  if negb (Config.promptObsolete (Config.install (m_config s)))
     || bool_decide (m_obsolete s = [])
  then s
  else
    let selected := m_obsolete s in
    let s := set_obsolete [] s in
    let '(accepted, selected) := m_promptObsolete selected in
    if negb accepted || bool_decide (selected = []) then s
    else
      let queues :=
        match m_taskQueues s with [] => [[]] | qs => qs end in
      let back := List.last queues [] in
      set_taskQueues
        (removelast queues ++ [back ++ map UninstallTask selected]) s.

(** The tasks of one queue are started in turn. *)
Fixpoint start_queue (queue : TaskQueue) (s : t) : t :=
  match queue with
  | [] => s
  | task :: rest => start_queue rest (start_task task s)
  end.

(** The loop of [runTasks] over [m_taskQueues]. *)
Fixpoint run_queues (queues : list TaskQueue) (s : t) : bool * t :=
  match queues with
  | [] => (true, s)
  | queue :: rest =>
      let s := emit ESavepoint
                 (set_registry (Registry.savepoint (m_registry s)) s) in
      let s := start_queue queue s in
      let s := emit ERestore
                 (set_registry (Registry.restore (m_registry s)) s) in
      let s := set_taskQueues rest s in
      match commitTasks s with
      | (false, s) => (false, s)
      | (true, s) => run_queues rest s
      end
  end.

(** [Transaction::runTasks] *)
Definition runTasks (s : t) : bool * t :=
  let s :=
    match m_nextQueue s with
    | [] => s
    | q => set_nextQueue [] (set_taskQueues (m_taskQueues s ++ [q]) s)
    end in
  match commitTasks s with
  | (false, s) => (false, s)
  | (true, s) =>
      if m_isCancelled s then (true, finish s)
      else
        let s := promptObsolete s in
        match run_queues (m_taskQueues s) s with
        | (false, s) => (false, s)
        | (true, s) =>
            let s := emit ERegistryCommit
                       (set_registry (Registry.commit (m_registry s)) s) in
            let s := registerQueued s in
            (true, finish s)
        end
  end.

(** *** The thread pool *)

(** The handler given to [m_threadPool.onAbort], which the pool calls
    when the user cancels.  The handlers of the transaction run on one
    thread, one at a time. *)
Definition onAbort (s : t) : t :=
  set_regQueue [] (set_isCancelled true s).

(** Modelled from the spec: the thread pool is not among the sources.
    The task at position [i] of the pool ends, in any order and with any
    outcome.  The transaction hears of it through the handlers it
    registered; [onDone] runs the tasks once the pool has nothing left to
    do. *)
Definition thread_finished (i : nat) (outcome : Outcome) (s : t) : t :=
  match m_threadPool s !! i with
  | None => s
  | Some job =>
      let s := emit (EThreadDone job)
                 (set_threadPool (delete i (m_threadPool s)) s) in
      let s :=
        match job with
        | FileDownload remote cb => download_finished remote cb outcome s
        | TaskJob _ =>
            match outcome with
            | Failure e => addError e s
            | _ => s
            end
        end in
      if idle s then snd (runTasks s) else s
  end.

(** *** What happens to a transaction *)

Inductive Action : Type :=
| ASynchronize (remote : Remote) (forceAutoInstall : option bool)
| AFetchIndexes (remotes : list Remote) (stale : bool)
| AInstall (ver : VersionRef) (pin : bool) (reader : ArchiveReaderPtr)
| ASetPinned (entry : Entry) (pinned : bool)
| AUninstall (entry : Entry)
| AUninstallRemote (remote : Remote)
| ARegisterAll (remote : Remote)
| ARunTasks
| AAbort
| AThreadFinished (i : nat) (outcome : Outcome).

(** Once [finish] has run the transaction is gone. *)
Definition step (a : Action) (s : t) : t :=
  if finished s then s
  else
    match a with
    | ASynchronize remote force => synchronize remote force s
    | AFetchIndexes remotes stale => fetchIndexes remotes stale s
    | AInstall ver pin reader => install ver pin reader s
    | ASetPinned entry pinned => setPinned entry pinned s
    | AUninstall entry => uninstall entry s
    | AUninstallRemote remote => uninstall_remote remote s
    | ARegisterAll remote => registerAll remote s
    | ARunTasks => snd (runTasks s)
    | AAbort => onAbort s
    | AThreadFinished i outcome => thread_finished i outcome s
    end.

Definition run (actions : list Action) (s : t) : t :=
  fold_left (fun s a => step a s) actions s.

End Operations.

(** A queued task that leaves pinned packages alone: an installation made
  with the entry the registry has for the package and, when that entry
  is pinned, of a version that is not above the installed one. *)
Definition respects_pin (r : Registry.t) (task : Task) : Prop :=
  match task with
  | InstallTask ver _ oldEntry _ =>
      oldEntry = getEntry r (vr_package ver)
      /\ (pinned_of oldEntry = true ->
          Version.ltb (version_of oldEntry) (v_name (vr_version ver)) = false)
  | _ => False
  end.

End Transaction.

(** ** Archive *)

Module Archive.

Import Index Registry.
Import Config (Remote).

Definition UNZ_OK : Z := 0.
Definition UNZ_END_OF_LIST_OF_FILE : Z := -100.

(** A member of the archive: the status reading it ends with, its text,
    and the document TinyXML makes of that text. *)
Record Member : Type := mkMember {
  status : Z;
  text : string;
  doc : TiXmlDocument
}.

(** An archive that could be opened; its members by path. *)
Definition t : Type := gmap string Member.


(** [ArchiveReader::extractFile(path)]: the file is opened for writing
    (taken to succeed), then filled from the archive; it stays empty
    when the member cannot be read. *)
Definition extractFile_to_disk (zip : t) (path : string)
    (s : Transaction.t) : Z * Transaction.t :=
  let written (d : TiXmlDocument) :=
    Transaction.set_fs
      (<[path := FS.mkFile (Transaction.now s) d]> (Transaction.fs s)) s in
  match zip !! path with
  | None => (UNZ_END_OF_LIST_OF_FILE, written (DocError "Error document empty."))
  | Some m =>
      if (status m =? UNZ_OK)%Z then (UNZ_OK, written (doc m))
      else (status m, written (DocError "Error document empty."))
  end.

(** *** Reading the lines of the table of contents *)

Definition newline : ascii := ascii_of_nat 10.

(** The lines successive calls of [getline] return. *)
Fixpoint getlines (cur : string) (s : string) : list string :=
  match s with
  | EmptyString => match cur with EmptyString => [] | _ => [cur] end
  | String c rest =>
      if Ascii.eqb c newline then cur :: getlines EmptyString rest
      else getlines (cur +:+ String c EmptyString) rest
  end.

(** *** Formatted input

    An input stream: what is left to read and two state bits. *)
Record istream : Type := mkStream {
  buf : string;
  eofbit : bool;
  failbit : bool
}.

Definition good (i : istream) : bool := negb (eofbit i) && negb (failbit i).

Definition failed (i : istream) : istream :=
  {| buf := buf i; eofbit := eofbit i; failbit := true |}.

(** What every formatted extraction starts with: nothing is read from a
    stream that is not good; otherwise white space is skipped, and
    reaching the end that way is a failure. *)
Definition sentry (i : istream) : option string :=
  if good i then
    match skip_spaces (buf i) with
    | EmptyString => None
    | rest => Some rest
    end
  else None.

Definition at_end (i : istream) : istream :=
  {| buf := EmptyString; eofbit := good i; failbit := true |}.

(** [is >> word]: the characters up to the next white space. *)
Fixpoint read_word (acc : string) (s : string) : string * istream :=
  match s with
  | EmptyString => (acc, {| buf := s; eofbit := true; failbit := false |})
  | String c rest =>
      if is_space c then (acc, {| buf := s; eofbit := false; failbit := false |})
      else read_word (acc +:+ String c EmptyString) rest
  end.

(** The body of a quoted string, after the opening delimiter: up to the
    closing one, a backslash taking the next character as it is. *)
Fixpoint read_quoted (acc : string) (s : string) : string * istream :=
  match s with
  | EmptyString => (acc, {| buf := s; eofbit := true; failbit := true |})
  | String c rest =>
      if Ascii.eqb c "\"
      then match rest with
           | EmptyString =>
               (acc, {| buf := rest; eofbit := true; failbit := true |})
           | String c' rest' => read_quoted (acc +:+ String c' EmptyString) rest'
           end
      else if Ascii.eqb c (ascii_of_nat 34)
      then (acc, {| buf := rest; eofbit := false; failbit := false |})
      else read_quoted (acc +:+ String c EmptyString) rest
  end.

(** [is >> quoted(str)]; [str] keeps its value when nothing is read. *)
Definition quoted (str : string) (i : istream) : string * istream :=
  match sentry i with
  | None => (str, if good i then at_end i else failed i)
  | Some (String c rest as s) =>
      if Ascii.eqb c (ascii_of_nat 34) then read_quoted EmptyString rest
      else read_word EmptyString s
  | Some EmptyString => (str, at_end i)
  end.

Fixpoint span_digits (acc : string) (s : string) : string * string :=
  match s with
  | String c rest =>
      if Version.is_digit c then span_digits (acc +:+ String c EmptyString) rest
      else (acc, s)
  | EmptyString => (acc, s)
  end.

(** [is >> flag] for a [bool]: a number is read; 0 is false, 1 is true,
    any other number is true and a failure, and no number at all is a
    failure that leaves false. *)
Definition read_bool (i : istream) : bool * istream :=
  match sentry i with
  | None => (false, if good i then at_end i else failed i)
  | Some s =>
      let '(negative, s1) :=
        match s with
        | String "-" r => (true, r)
        | String "+" r => (false, r)
        | _ => (false, s)
        end in
      let '(digits, rest) := span_digits EmptyString s1 in
      let eof := match rest with EmptyString => true | _ => false end in
      match digits with
      | EmptyString => (false, {| buf := rest; eofbit := eof; failbit := true |})
      | _ =>
          let n := Version.stoi digits in
          if (n =? 0)%Z then (false, {| buf := rest; eofbit := eof; failbit := false |})
          else if (n =? 1)%Z && negb negative
          then (true, {| buf := rest; eofbit := eof; failbit := false |})
          else (true, {| buf := rest; eofbit := eof; failbit := true |})
      end
  end.

(** The fields of a PACK line. *)
Record PackFields : Type := mkPack {
  categoryName : string;
  packageName : string;
  versionName : string;
  pinned_flag : bool
}.

Definition read_pack (data : string) : PackFields :=
  let stream := {| buf := data; eofbit := false; failbit := false |} in
  let '(c, stream) := quoted EmptyString stream in
  let '(p, stream) := quoted EmptyString stream in
  let '(v, stream) := quoted EmptyString stream in
  let '(b, _) := read_bool stream in
  mkPack c p v b.

(** [substr(pos)] and [substr(0, n)] *)
Definition substr_from (pos : nat) (s : string) : string :=
  String.substring pos (String.length s - pos) s.
Definition substr_to (n : nat) (s : string) : string :=
  String.substring 0 (Nat.min n (String.length s)) s.

(** *** The list of remotes of the configuration *)

Definition null_remote : Remote :=
  Config.mkRemote EmptyString EmptyString true false Config.indeterminate.

Definition remotes_get (l : list Remote) (name : string) : Remote :=
  match List.find (fun r => String.eqb (Config.name r) name) l with
  | Some r => r
  | None => null_remote
  end.

Fixpoint remotes_add (r : Remote) (l : list Remote) : list Remote :=
  match l with
  | [] => [r]
  | r' :: rest =>
      if String.eqb (Config.name r') (Config.name r) then r :: rest
      else r' :: remotes_add r rest
  end.

(** *** The lines [Archive::create] writes for a package

    [os << quoted(str)] puts the text between double quotes, with a
    backslash before each double quote and backslash of the text. *)

Definition dquote : ascii := ascii_of_nat 34.

Fixpoint escape (s : string) : string :=
  match s with
  | EmptyString => EmptyString
  | String c rest =>
      if Ascii.eqb c dquote || Ascii.eqb c "\"
      then String "\" (String c (escape rest))
      else String c (escape rest)
  end.

Definition write_quoted (s : string) : string :=
  String dquote (escape s +:+ String dquote EmptyString).

Definition pack_line (e : Entry) : string :=
  "PACK " +:+ write_quoted (category e) +:+ " "
  +:+ write_quoted (package e) +:+ " "
  +:+ write_quoted (Version.name (version e)) +:+ " "
  +:+ (if pinned e then "1" else "0").

(** *** Import *)

Section ImportOps.

Variable loadV1 : TiXmlElement -> Index.t -> result Index.t.
Variable m_promptObsolete : list Entry -> bool * list Entry.
Variable doStart : Transaction.Task -> Registry.table -> Transaction.StartResult.
Variable doCommit : Transaction.Task -> Registry.table -> Transaction.CommitResult.
Variable doRollback : Transaction.Task -> list Transaction.ErrorInfo.

(** [Remote::fromString] and [Package::findVersion] are defined with
    the remotes and the packages, outside of these sources.  Looking a
    version up by the text of its name first makes a version name of
    the text, which may throw. *)
Variable fromString : string -> Remote.
Variable findVersion : Package -> string -> result (option IVersion).

(** [struct ImportArchive]; [m_remotes] points into the configuration
    the transaction holds. *)
Record ImportArchive : Type := mkImport {
  path : string;
  m_reader : t;
  m_tx : Transaction.t;
  m_lastIndex : option Index.t
}.

Definition set_tx (tx : Transaction.t) (st : ImportArchive) : ImportArchive :=
  mkImport (path st) (m_reader st) tx (m_lastIndex st).
Definition set_lastIndex (ri : option Index.t) (st : ImportArchive)
  : ImportArchive :=
  mkImport (path st) (m_reader st) (m_tx st) ri.

Definition m_remotes (st : ImportArchive) : list Remote :=
  Config.remotes (Transaction.m_config (m_tx st)).

Definition set_remotes (l : list Remote) (st : ImportArchive) : ImportArchive :=
  let cfg := Transaction.m_config (m_tx st) in
  set_tx (Transaction.set_config (Config.mkConfig (Config.install cfg) l)
            (m_tx st)) st.

(** A member function that may throw a [reapack_error] returns what
    was thrown, if anything, with the state it leaves. *)
Definition thrown : Type := option string.

(** [ImportArchive::importRemote] *)
Definition importRemote (data : string) (st : ImportArchive)
  : thrown * ImportArchive :=
  let st := set_lastIndex None st in
  let remote := fromString data in
  let '(err, tx) :=
    extractFile_to_disk (m_reader st) (pathFor (Config.name remote)) (m_tx st) in
  let st := set_tx tx st in
  if negb (err =? 0)%Z
  then (Some ("Failed to extract index of " +:+ Config.name remote
              +:+ " (" +:+ pretty err +:+ ")"), st)
  else
    let original := remotes_get (m_remotes st) (Config.name remote) in
    let remote :=
      if Config.isProtected original
      then Config.mkRemote (Config.name remote) (Config.url original)
             (Config.isEnabled remote) true (Config.autoInstall_of remote)
      else remote in
    let st := set_remotes (remotes_add remote (m_remotes st)) st in
    match Index.load loadV1 (Transaction.fs (m_tx st)) (Config.name remote) with
    | Ok ri => (None, set_lastIndex (Some ri) st)
    | Err what => (Some what, st)
    end.

Definition not_found (ri : Index.t) (f : PackFields) : string :=
  Index.name ri +:+ "/" +:+ categoryName f +:+ "/" +:+ packageName f
  +:+ " v" +:+ versionName f
  +:+ " cannot be found or is incompatible with your operating system.".

(** [ImportArchive::importPackage] *)
Definition importPackage (data : string) (st : ImportArchive)
  : thrown * ImportArchive :=
  match m_lastIndex st with
  | None => (None, st)
  | Some ri =>
      let f := read_pack data in
      match Index.find ri (categoryName f) (packageName f) with
      | None => (Some (not_found ri f), st)
      | Some pkg =>
          match findVersion pkg (versionName f) with
          | Err what => (Some what, st)
          | Ok None => (Some (not_found ri f), st)
          | Ok (Some ver) =>
              (None,
               set_tx (Transaction.install (Transaction.mkRef pkg ver)
                         (pinned_flag f) (Some (path st)) (m_tx st)) st)
          end
      end
  end.

Definition addError (what : string) (st : ImportArchive) : ImportArchive :=
  set_tx (Transaction.addError (what, path st) (m_tx st)) st.

(** The body of the loop of [Archive::import] over the lines of the
    table of contents. *)
Definition import_line (st : ImportArchive) (line : string) : ImportArchive :=
  if (String.length line <=? 5)%nat then st
  else
    let data := substr_from 5 line in
    let '(what, st) :=
      match String.get 0 line with
      | Some "R"%char => importRemote data st
      | Some "P"%char => importPackage data st
      | _ => (Some ("Unknown token '" +:+ substr_to 4 line +:+ "' (skipping)"), st)
      end in
    match what with
    | Some what => addError what st
    | None => st
    end.

Definition import_lines (lines : list string) (st : ImportArchive)
  : ImportArchive :=
  fold_left import_line lines st.


End ImportOps.

End Archive.

(** ** The order of events

    What a transaction does, seen through the part of its state the
    registry, the tasks and the pool depend on. *)

Module Protocol.

Import Transaction.

Record Core : Type := mkCore {
  c_cancelled : bool;
  c_registry : Registry.t;
  c_running : list Task;
  c_pool : list ThreadTask;
  c_finished : bool;
  c_trace : list Event
}.

Definition core (s : t) : Core :=
  mkCore (m_isCancelled s) (m_registry s) (m_runningTasks s)
    (m_threadPool s) (finished s) (trace s).

(** The number of open savepoints. *)
Definition depth (r : Registry.t) : nat := length (Registry.savepoints r).

Definition is_host (e : Event) : bool :=
  match e with EHostRegister _ _ => true | _ => false end.

(** The moves of a transaction that has not finished. *)
Inductive cstep : Core -> Core -> Prop :=
| cs_abort c r run pool tr :
    cstep (mkCore c r run pool false tr) (mkCore true r run pool false tr)
| cs_push c r run pool tr job :
    cstep (mkCore c r run pool false tr)
          (mkCore c r run (pool ++ [job]) false (tr ++ [EPush job]))
| cs_done c r run pool tr i job :
    pool !! i = Some job -> (depth r <= 1)%nat ->
    cstep (mkCore c r run pool false tr)
          (mkCore c r run (delete i pool) false (tr ++ [EThreadDone job]))
| cs_savepoint r tr :
    (depth r <= 1)%nat ->
    cstep (mkCore false r [] [] false tr)
          (mkCore false (Registry.savepoint r) [] [] false (tr ++ [ESavepoint]))
| cs_write r run pool tr w :
    cstep (mkCore false r run pool false tr)
          (mkCore false (Registry.with_working w r) run pool false tr)
| cs_start r run pool tr task (ok : bool) :
    depth r = 2%nat ->
    cstep (mkCore false r run pool false tr)
          (mkCore false r (if ok then run ++ [task] else run) pool false
             (tr ++ [EStart task ok]))
| cs_restore r run pool tr :
    depth r = 2%nat ->
    cstep (mkCore false r run pool false tr)
          (mkCore false (Registry.restore r) run pool false (tr ++ [ERestore]))
| cs_commit_task r task rest tr :
    (depth r <= 1)%nat ->
    cstep (mkCore false r (task :: rest) [] false tr)
          (mkCore false r rest [] false (tr ++ [ETaskCommit task]))
| cs_rollback r task rest tr :
    (depth r <= 1)%nat ->
    cstep (mkCore true r (task :: rest) [] false tr)
          (mkCore true r rest [] false (tr ++ [ETaskRollback task]))
| cs_finish c r tr :
    (depth r <= 1)%nat ->
    cstep (mkCore c r [] [] false tr) (mkCore c r [] [] true (tr ++ [EFinish]))
| cs_final r tr hosts :
    forallb is_host hosts = true -> (depth r <= 1)%nat ->
    cstep (mkCore false r [] [] false tr)
          (mkCore false (Registry.commit r) [] [] true
             (tr ++ ERegistryCommit :: hosts ++ [EFinish])).

(** *** Reading a trace

    A trace is read from its start with three counters: the tasks that
    were started and are neither committed nor rolled back, the tasks of
    the thread pool that have not ended, and the open savepoints.  The
    reading stops ([None]) at an event that comes out of order:
    - a savepoint is opened, the registry committed and the transaction
      finished only when no task is unsettled and the pool is idle;
    - tasks are started inside the savepoint of their queue, and between
      that savepoint and its restoration nothing else happens than
      starting tasks and pushing work on the pool;
    - tasks are committed or rolled back when the pool is idle.
    - files are registered in the host outside of any such savepoint.
    With [strict], a savepoint also has to be restored only when no task
    is unsettled and the pool is idle. *)

Definition Counters : Type := (nat * nat * nat)%type.

Definition settled (u b : nat) : bool := (u =? 0)%nat && (b =? 0)%nat.

Definition read_event (strict : bool) (st : option Counters) (e : Event)
  : option Counters :=
  match st with
  | None => None
  | Some (u, b, d) =>
      let outside := (d <=? 1)%nat in
      match e with
      | ESavepoint =>
          if settled u b && outside then Some (u, b, S d) else None
      | ERestore =>
          if (2 <=? d)%nat && (negb strict || settled u b)
          then Some (u, b, pred d) else None
      | ERegistryCommit =>
          if settled u b && outside then Some (u, b, 0%nat) else None
      | EStart _ ok =>
          if (2 <=? d)%nat then Some (if ok then S u else u, b, d) else None
      | ETaskCommit _ | ETaskRollback _ =>
          if (b =? 0)%nat && outside && (1 <=? u)%nat
          then Some (pred u, b, d) else None
      | EPush _ => Some (u, S b, d)
      | EThreadDone _ =>
          if outside && (1 <=? b)%nat then Some (u, pred b, d) else None
      | EHostRegister _ _ => if outside then Some (u, b, d) else None
      | EFinish => if settled u b && outside then Some (u, b, d) else None
      end
  end.

Definition read_trace (strict : bool) (tr : list Event) : option Counters :=
  fold_left (read_event strict) tr (Some (0, 0, 0)%nat).

Definition in_order (strict : bool) (tr : list Event) : bool :=
  match read_trace strict tr with Some _ => true | None => false end.

(** What may still happen once the transaction is cancelled. *)
Definition after_cancel (e : Event) : bool :=
  match e with
  | ETaskRollback _ | EPush _ | EThreadDone _ | EFinish => true
  | _ => false
  end.

(** The tasks that were rolled back, in order. *)
Definition rolled_back (tr : list Event) : list Task :=
  omap (fun e => match e with ETaskRollback task => Some task | _ => None end)
    tr.

(** The control part of the state: it decides which moves are open. *)
Definition same_control (s s' : t) : Prop :=
  m_isCancelled s' = m_isCancelled s
  /\ finished s' = finished s
  /\ depth (m_registry s') = depth (m_registry s).

(** A trace agrees with the core it belongs to when it reads in order
    and its counters are those of the core. *)
Definition agrees (c : Core) : Prop :=
  read_trace false (c_trace c)
  = Some (length (c_running c), length (c_pool c), depth (c_registry c)).

End Protocol.

(** ** Sample data *)

Module Examples.

Import Index Registry.

(** A loader that accepts every document and adds nothing to the
    index. *)
Definition loadV1 (root : TiXmlElement) (ri : Index.t) : result Index.t :=
  Ok ri.

(** The last version listed for the package, unless it is older than
    [from]. *)
Definition lastVersion (pkg : Package) (pre : bool) (from : Version.t)
  : option IVersion :=
  match List.last (map Some (p_versions pkg)) None with
  | Some v => if Version.ltb (v_name v) from then None else Some v
  | None => None
  end.

Definition promptObsolete (selected : list Entry) : bool * list Entry :=
  (true, selected).

(** Modelled from the spec: tasks in their plainest form.  An install
    task records the entry of its version when it starts, to look for
    conflicts, and pushes one download per file; when it commits it
    records the entry for good.  An uninstall task forgets the entry and
    a pin task rewrites its flag when committed.  Rolling back writes
    nothing. *)
Definition new_entry (ver : Transaction.VersionRef) (pin : bool) : Entry :=
  let pkg := Transaction.vr_package ver in
  mkEntry (p_remote pkg) (p_category pkg) (p_name pkg)
    (v_name (Transaction.vr_version ver)) pin.

Definition new_row (ver : Transaction.VersionRef) (pin : bool) : Row :=
  (new_entry ver pin,
   map (fun f => Registry.mkFile f (p_type (Transaction.vr_package ver)) 1)
     (v_files (Transaction.vr_version ver))).

Definition doStart (task : Transaction.Task) (w : Registry.table)
  : Transaction.StartResult :=
  match task with
  | Transaction.InstallTask ver pin _ _ =>
      Transaction.mkStart true
        (<[key_of (new_entry ver pin) := new_row ver pin]> w)
        (length (v_files (Transaction.vr_version ver))) []
  | _ => Transaction.mkStart true w 0%nat []
  end.

Definition doCommit (task : Transaction.Task) (w : Registry.table)
  : Transaction.CommitResult :=
  match task with
  | Transaction.InstallTask ver pin _ _ =>
      Transaction.mkCommit
        (<[key_of (new_entry ver pin) := new_row ver pin]> w) [] []
  | Transaction.UninstallTask e =>
      Transaction.mkCommit (delete (key_of e) w) [] []
  | Transaction.PinTask e pin =>
      Transaction.mkCommit
        (alter (fun row =>
                  (mkEntry (remote e) (category e) (package e) (version e) pin,
                   snd row)) (key_of e) w) [] []
  end.

Definition doRollback (task : Transaction.Task) : list Transaction.ErrorInfo :=
  [].

Definition v1_0 : Version.t := Version.mk "1.0" 1000000000000.
Definition v1_1 : Version.t := Version.mk "1.1" 1000100000000.

Definition script_1_0 : IVersion := mkVersion v1_0 ["Scripts/repo/Cat/a.lua"].
Definition script_1_1 : IVersion := mkVersion v1_1 ["Scripts/repo/Cat/a.lua"].

Definition pkg_old : Package :=
  mkPackage "repo" "Cat" ScriptType "a.lua" [script_1_0].
Definition pkg_new : Package :=
  mkPackage "repo" "Cat" ScriptType "a.lua" [script_1_0; script_1_1].

Definition index_new : Index.t :=
  mkIndex "repo" [mkCategory "Cat" [pkg_new]].

Definition entry_pinned : Entry := mkEntry "repo" "Cat" "a.lua" v1_0 true.
Definition entry_free : Entry := mkEntry "repo" "Cat" "a.lua" v1_0 false.

Definition script_file : File := Registry.mkFile "Scripts/repo/Cat/a.lua" ScriptType 1.

Definition db (e : Entry) : Registry.table :=
  {[ key_of e := (e, [script_file]) ]}.

Definition opts : Config.InstallOpts := Config.mkOpts true false false.

Definition repo : Config.Remote :=
  Config.mkRemote "repo" "https://example.com/index.xml" true false
    Config.indeterminate.

Definition config : Config.t := Config.mkConfig opts [repo].

Definition index_doc : TiXmlDocument :=
  DocRoot (Element "index" [("version", "1")] []).

Definition noon : Z := 1500000000.

(** A disk with the installed script and an index fetched an hour
    ago. *)
Definition disk : FS.t :=
  {[ "Scripts/repo/Cat/a.lua" := FS.mkFile 1400000000 (DocError "Error document empty.");
     pathFor "repo" := FS.mkFile (noon - 3600) index_doc ]}.

(** The same disk without the script. *)
Definition disk_without_script : FS.t :=
  {[ pathFor "repo" := FS.mkFile (noon - 3600) index_doc ]}.

(** A remote named by the whole text, and versions looked up by the
    text of their name. *)
Definition fromString (data : string) : Config.Remote :=
  Config.mkRemote data EmptyString true false Config.indeterminate.

Definition findVersion (pkg : Package) (name : string)
  : result (option IVersion) :=
  Ok (List.find (fun v => String.eqb (Version.name (v_name v)) name)
        (p_versions pkg)).



End Examples.

(** ** Queries on a transaction and on its trace *)

Module Ledger.

Import Index Registry Transaction.

(** [Transaction::getIndexes] *)
Fixpoint getIndexes (remotes : list Config.Remote) (s : t) : list Index.t :=
  match remotes with
  | [] => []
  | remote :: rest =>
      match m_indexes s !! Config.name remote with
      | Some ri => ri :: getIndexes rest s
      | None => getIndexes rest s
      end
  end.

(** The tasks still to be started: those of the queues waiting in
    [m_taskQueues], oldest queue first, then those of [m_nextQueue]. *)
Definition pending (s : t) : list Task :=
  concat (m_taskQueues s) ++ m_nextQueue s.

(** The tasks [start] was called on, in order. *)
Definition started (tr : list Event) : list Task :=
  omap (fun e => match e with EStart task _ => Some task | _ => None end) tr.

(** The tasks whose [start] succeeded, in order. *)
Definition started_ok (tr : list Event) : list Task :=
  omap (fun e => match e with EStart task true => Some task | _ => None end) tr.

(** The tasks that were committed or rolled back, in order. *)
Definition settled (tr : list Event) : list Task :=
  omap (fun e =>
          match e with
          | ETaskCommit task | ETaskRollback task => Some task
          | _ => None
          end) tr.

(** The thread tasks pushed on the pool, and those that ended. *)
Definition pushed (tr : list Event) : list ThreadTask :=
  omap (fun e => match e with EPush job => Some job | _ => None end) tr.

Definition ended (tr : list Event) : list ThreadTask :=
  omap (fun e => match e with EThreadDone job => Some job | _ => None end) tr.

(** The registrations made in the host, in order. *)
Definition registered (tr : list Event) : list (HostTicket * bool) :=
  omap (fun e =>
          match e with
          | EHostRegister ticket last => Some (ticket, last)
          | _ => None
          end) tr.

(** A ticket [registerQueued] refuses: the registration of a file of a
    remote that was inhibited. *)
Definition refused (s : t) (reg : HostTicket) : bool :=
  add reg && bool_decide (remote (entry reg) ∈ m_inhibited s).

(** A ticket that reaches the host: the file is a script and registers
    in some section. *)
Definition reaches_host (reg : HostTicket) : bool :=
  match type (file reg) with
  | ScriptType => negb (sections (file reg) =? 0)%Z
  | _ => false
  end.

(** The calls into the host for the tickets [served], in order, when
    [after] more tickets follow them in the queue: a call for each ticket
    that reaches the host, flagged as the last call when no ticket
    follows. *)
Fixpoint host_calls (served : list HostTicket) (after : nat)
  : list (HostTicket * bool) :=
  match served with
  | [] => []
  | reg :: more =>
      (if reaches_host reg
       then [(reg, (length more + after =? 0)%nat)] else [])
      ++ host_calls more after
  end.

(** The registry table after the tasks were committed in turn. *)
Definition apply_commits
    (doCommit : Task -> Registry.table -> CommitResult)
    (tasks : list Task) (w : Registry.table) : Registry.table :=
  fold_left (fun w task => written (doCommit task w)) tasks w.

(** The tasks of the trace agree with the core they belong to: the tasks
    that started are those that were settled, in that order, then those
    still running; the thread tasks that were pushed are those that ended
    and those in the pool. *)
Definition accounted (c : Protocol.Core) : Prop :=
  started_ok (Protocol.c_trace c)
  = settled (Protocol.c_trace c) ++ Protocol.c_running c
  /\ pushed (Protocol.c_trace c)
     ≡ₚ ended (Protocol.c_trace c) ++ Protocol.c_pool c.

(** What decides which tasks are still to run, and whether any will. *)
Definition same_plan (s s' : t) : Prop :=
  m_taskQueues s' = m_taskQueues s
  /\ m_nextQueue s' = m_nextQueue s
  /\ m_isCancelled s' = m_isCancelled s
  /\ finished s' = finished s
  /\ m_obsolete s' = m_obsolete s
  /\ m_config s' = m_config s.

(** What decides the calls into the host: those made so far, the
    remotes that are inhibited, whether the transaction is over. *)
Definition same_host (s s' : t) : Prop :=
  registered (trace s') = registered (trace s)
  /\ m_inhibited s' = m_inhibited s
  /\ finished s' = finished s.

(** The files the transaction added to the host are of remotes that are
    not inhibited, and the host is called only when the transaction
    finishes. *)
Definition host_respects_inhibited (s : t) : Prop :=
  (finished s = false -> registered (trace s) = [])
  /\ forall ticket last,
       (ticket, last) ∈ registered (trace s) -> add ticket = true ->
       remote (entry ticket) ∉ m_inhibited s.

(** The fields the loop of [synchronize] over the packages of an index
    leaves alone: all of them but [m_nextQueue]. *)
Definition same_but_queue (s s' : t) : Prop :=
  m_isCancelled s' = m_isCancelled s /\ m_config s' = m_config s
  /\ m_registry s' = m_registry s /\ m_receipt s' = m_receipt s
  /\ m_syncedRemotes s' = m_syncedRemotes s /\ m_indexes s' = m_indexes s
  /\ m_obsolete s' = m_obsolete s /\ m_inhibited s' = m_inhibited s
  /\ m_taskQueues s' = m_taskQueues s /\ m_runningTasks s' = m_runningTasks s
  /\ m_regQueue s' = m_regQueue s /\ m_threadPool s' = m_threadPool s
  /\ fs s' = fs s /\ now s' = now s /\ finished s' = finished s
  /\ trace s' = trace s.

End Ledger.

(** ** Making an archive *)

Module ArchiveCreate.

Import Index Registry.
Import Config (Remote).

(** What [Archive::create] builds up: the number of packages, the text
    of the table of contents, the files to compress, in the order their
    jobs are made, and the errors. *)
Record t : Type := mk {
  count : nat;
  toc : string;
  jobs : list string;
  errors : list string
}.

Definition endl : string := String Archive.newline EmptyString.

Definition write (text : string) (x : t) : t :=
  mk (count x) (toc x +:+ text) (jobs x) (errors x).

(** The error for a file that is not there. *)
Definition report (path : string) : string :=
  path +:+ " (" +:+ FS.lastError +:+ ")".

(** The closure [compress] *)
Definition compress (files : FS.t) (path : string) (x : t) : t :=
  if FS.exists_ files path
  then mk (count x) (toc x) (jobs x ++ [path]) (errors x)
  else mk (count x) (toc x) (jobs x) (errors x ++ [report path]).

(** Modelled from the spec: [RemoteList::getEnabled] is defined with the
    remotes, outside of these sources; it lists the enabled remotes. *)
Definition getEnabled (remotes : list Remote) : list Remote :=
  List.filter Config.isEnabled remotes.

Section CreateOps.

(** [Remote::toString] is defined with the remotes, outside of these
    sources. *)
Variable toString : Remote -> string.

Variable files : FS.t.
Variable reg : Registry.t.

(** The body of the loop over the entries of a remote; the flag is
    [addedRemote]. *)
Definition add_entry (remote : Remote) (acc : bool * t) (entry : Entry)
  : bool * t :=
  let '(addedRemote, x) := acc in
  let x := mk (S (count x)) (toc x) (jobs x) (errors x) in
  let x :=
    if addedRemote then x
    else compress files (pathFor (Config.name remote))
           (write ("REPO " +:+ toString remote +:+ endl) x) in
  let x := write (Archive.pack_line entry +:+ endl) x in
  let x := fold_left (fun x file => compress files (path file) x)
             (getFiles reg entry) x in
  (true, x).

(** The body of the loop over the enabled remotes. *)
Definition add_remote (x : t) (remote : Remote) : t :=
  snd (fold_left (add_entry remote) (getEntries reg (Config.name remote))
         (false, x)).

(** [Archive::create], up to the table of contents being written to the
    archive; the jobs are then pushed on the pool in order and [count]
    is returned. *)
Definition create (remotes : list Remote) : t :=
  fold_left add_remote (getEnabled remotes) (mk 0 EmptyString [] []).

(** The lines a remote gives to the table of contents, and the files
    that are to be compressed for it. *)
Definition lines_of (remote : Remote) : list string :=
  match getEntries reg (Config.name remote) with
  | [] => []
  | entries => ("REPO " +:+ toString remote) :: map Archive.pack_line entries
  end.

Definition paths_of (remote : Remote) : list string :=
  match getEntries reg (Config.name remote) with
  | [] => []
  | entries =>
      pathFor (Config.name remote)
      :: flat_map (fun entry => map path (getFiles reg entry)) entries
  end.

End CreateOps.

(** Text without a line break. *)
Fixpoint one_line (s : string) : bool :=
  match s with
  | EmptyString => true
  | String c rest => negb (Ascii.eqb c Archive.newline) && one_line rest
  end.

(** The text of lines that each end with a line break. *)
Definition unlines (lines : list string) : string :=
  fold_right (fun line text => line +:+ endl +:+ text) EmptyString lines.

End ArchiveCreate.

(** ** The objects of an index

    The index, its categories and packages as [index.cpp] builds them:
    vectors of members with a map from names to positions, and the
    back-references that say who owns what.  Objects are told apart by
    their address; a back-reference may be null. *)

Module Tree.

Definition address : Type := nat.

Record Package : Type := mkPackage {
  p_category : option address;
  p_type : Index.PackageType;
  p_name : string;
  p_versions : list Index.IVersion
}.

Record Category : Type := mkCategory {
  c_this : address;
  c_index : option address;
  c_name : string;
  c_packages : list Package;
  c_pkgMap : gmap string nat
}.

Record t : Type := mkIndex {
  this : address;
  m_name : string;
  m_categories : list Category;
  m_catMap : gmap string nat;
  m_packages : list Package
}.

(** [std::map::insert] leaves the map alone when the key is there. *)
Definition map_insert_new (key : string) (pos : nat) (m : gmap string nat)
  : gmap string nat :=
  match m !! key with
  | Some _ => m
  | None => <[key := pos]> m
  end.

(** [Index::Index] *)
Definition Index_new (self : address) (name : string) : t :=
  mkIndex self name [] ∅ [].

(** [Index::setName] *)
Definition setName (newName : string) (ri : t) : result t :=
  if negb (String.eqb (m_name ri) EmptyString)
  then Err "index name is already set"
  else Ok (mkIndex (this ri) newName (m_categories ri) (m_catMap ri)
             (m_packages ri)).

(** [Category::Category] *)
Definition Category_new (self : address) (name : string)
    (ri : option address) : result Category :=
  if String.eqb name EmptyString then Err "empty category name"
  else Ok (mkCategory self ri name [] ∅).

Definition is_unknown (type : Index.PackageType) : bool :=
  match type with Index.UnknownType => true | _ => false end.

(** [Category::addPackage] *)
Definition addPackage (pkg : Package) (cat : Category)
  : result (bool * Category) :=
  if negb (bool_decide (p_category pkg = Some (c_this cat)))
  then Err "package belongs to another category"
  else if is_unknown (p_type pkg)
          || match p_versions pkg with [] => true | _ => false end
  then Ok (false, cat)
  else
    Ok (true,
        mkCategory (c_this cat) (c_index cat) (c_name cat)
          (c_packages cat ++ [pkg])
          (map_insert_new (p_name pkg) (length (c_packages cat))
             (c_pkgMap cat))).

(** [Category::package(const string &)]; the position the map gives is
    looked up in the vector. *)
Definition package (cat : Category) (name : string) : option Package :=
  match c_pkgMap cat !! name with
  | None => None
  | Some pos => c_packages cat !! pos
  end.

(** [Index::addCategory] *)
Definition addCategory (cat : Category) (ri : t) : result (bool * t) :=
  if negb (bool_decide (c_index cat = Some (this ri)))
  then Err "category belongs to another index"
  else
    match c_packages cat with
    | [] => Ok (false, ri)
    | _ =>
        Ok (true,
            mkIndex (this ri) (m_name ri) (m_categories ri ++ [cat])
              (map_insert_new (c_name cat) (length (m_categories ri))
                 (m_catMap ri))
              (m_packages ri ++ c_packages cat))
    end.

(** [Index::category(const string &)] *)
Definition category (ri : t) (name : string) : option Category :=
  match m_catMap ri !! name with
  | None => None
  | Some pos => m_categories ri !! pos
  end.

(** [Index::find] *)
Definition find (ri : t) (catName pkgName : string) : option Package :=
  match category ri catName with
  | Some cat => package cat pkgName
  | None => None
  end.

(** [Category::fullName], given the index [m_index] points to, if any. *)
Definition fullName (owner : option t) (cat : Category) : string :=
  match owner with
  | Some ri => m_name ri +:+ "/" +:+ c_name cat
  | None => c_name cat
  end.

(** The categories a constructor call followed by calls of [addPackage]
    can make, and the indexes made of such categories by calls of
    [addCategory]. *)
Inductive built_category : Category -> Prop :=
| bc_new self name ri cat :
    Category_new self name ri = Ok cat -> built_category cat
| bc_add cat pkg added cat' :
    built_category cat -> addPackage pkg cat = Ok (added, cat') ->
    built_category cat'.

Inductive built_index : t -> Prop :=
| bi_new self name : built_index (Index_new self name)
| bi_name ri newName ri' :
    built_index ri -> setName newName ri = Ok ri' -> built_index ri'
| bi_add ri cat added ri' :
    built_index ri -> built_category cat ->
    addCategory cat ri = Ok (added, ri') -> built_index ri'.

(** A vector and the map from the names of its members to positions, as
    [push_back] and [insert] keep them: a name is mapped to the position
    of the first member that has it. *)
Definition first_wins {A} (key : A -> string) (items : list A)
    (positions : gmap string nat) : Prop :=
  forall name,
    match positions !! name with
    | Some pos =>
        exists x, items !! pos = Some x
                  /\ List.find (fun y => String.eqb (key y) name) items
                     = Some x
    | None => List.find (fun y => String.eqb (key y) name) items = None
    end.

(** What holds of a category and of an index that were built. *)
Definition category_ok (cat : Category) : Prop :=
  c_name cat <> EmptyString
  /\ first_wins p_name (c_packages cat) (c_pkgMap cat)
  /\ Forall (fun pkg =>
               p_category pkg = Some (c_this cat)
               /\ p_type pkg <> Index.UnknownType
               /\ p_versions pkg <> [])
       (c_packages cat).

Definition index_ok (ri : t) : Prop :=
  first_wins c_name (m_categories ri) (m_catMap ri)
  /\ m_packages ri = flat_map c_packages (m_categories ri)
  /\ Forall (fun cat =>
               c_index cat = Some (this ri) /\ c_packages cat <> []
               /\ category_ok cat)
       (m_categories ri).

(** The index as the rest of the development has it: lists of members,
    with the names of the owners in the packages. *)
Definition plain_package (remote cat : string) (pkg : Package)
  : Index.Package :=
  Index.mkPackage remote cat (p_type pkg) (p_name pkg) (p_versions pkg).

Definition plain_category (remote : string) (cat : Category)
  : Index.Category :=
  Index.mkCategory (c_name cat)
    (map (plain_package remote (c_name cat)) (c_packages cat)).

Definition plain (ri : t) : Index.t :=
  Index.mkIndex (m_name ri) (map (plain_category (m_name ri)) (m_categories ri)).

End Tree.

Module TreeExamples.

Import Tree.

(** The index at address 1 with the category at address 2, to which a
    script is added twice under the same name, with versions 1.0 and
    1.1. *)
Definition script (ver : Index.IVersion) : Package :=
  mkPackage (Some 2%nat) Index.ScriptType "a.lua" [ver].

Definition cat_twice : Category :=
  mkCategory 2%nat (Some 1%nat) "Cat"
    [script Examples.script_1_0; script Examples.script_1_1]
    {[ "a.lua" := 0%nat ]}.

Definition index_twice : t :=
  mkIndex 1%nat "repo" [cat_twice] {[ "Cat" := 0%nat ]}
    [script Examples.script_1_0; script Examples.script_1_1].

End TreeExamples.

(** ** ReaPack *)

Module ReaPack.

Import Transaction.

(** The part of [ReaPack] the transactions depend on: the configuration,
    the transaction in progress if any, and the message boxes shown so
    far.  Around it, what opening the registry gives, the disk and the
    clock.  The dialogs are left out. *)
Record t : Type := mk {
  m_config : Config.t;
  m_tx : option Transaction.t;
  boxes : list string;
  registry : result Registry.table;
  disk : FS.t;
  clock : Z
}.

Definition set_tx (tx : option Transaction.t) (rp : t) : t :=
  mk (m_config rp) tx (boxes rp) (registry rp) (disk rp) (clock rp).

Definition ShowMessageBox (msg : string) (rp : t) : t :=
  mk (m_config rp) (m_tx rp) (boxes rp ++ [msg]) (registry rp) (disk rp)
    (clock rp).

(** [ReaPack::setupTransaction]; the constructor of the transaction
    throws when the registry cannot be opened. *)
Definition setupTransaction (rp : t) : option Transaction.t * t :=
  match m_tx rp with
  | Some tx => (Some tx, rp)
  | None =>
      match registry rp with
      | Ok db =>
          let tx := Transaction.create (m_config rp) db (disk rp) (clock rp) in
          (Some tx, set_tx (Some tx) rp)
      | Err what =>
          (None,
           ShowMessageBox
             ("The following error occurred while creating a transaction:"
              +:+ String Archive.newline (String Archive.newline what)) rp)
      end
  end.

Section Actions.

Variable loadV1 : TiXmlElement -> Index.t -> result Index.t.
Variable lastVersion :
  Index.Package -> bool -> Version.t -> option Index.IVersion.
Variable m_promptObsolete : list Registry.Entry -> bool * list Registry.Entry.
Variable doStart : Task -> Registry.table -> StartResult.
Variable doCommit : Task -> Registry.table -> CommitResult.
Variable doRollback : Task -> list ErrorInfo.

(** What [runTasks] leaves: when the transaction finishes, its cleanup
    handler, [teardownTransaction], deletes it. *)
Definition ran (tx : Transaction.t) (rp : t) : t :=
  let tx := snd (runTasks m_promptObsolete doStart doCommit doRollback tx) in
  set_tx (if finished tx then None else Some tx) rp.

(** [ReaPack::synchronizeAll]; [synchronize] is called without its
    second argument, which is then empty. *)
Definition synchronizeAll (rp : t) : t :=
  match ArchiveCreate.getEnabled (Config.remotes (m_config rp)) with
  | [] => ShowMessageBox "No repository enabled, nothing to do!" rp
  | remotes =>
      match setupTransaction rp with
      | (None, rp) => rp
      | (Some tx, rp) =>
          let tx := fold_left
                      (fun tx remote =>
                         synchronize loadV1 lastVersion remote None tx)
                      remotes tx in
          ran tx rp
      end
  end.

End Actions.

(** The remotes [synchronize] does something for when called on each
    remote of a list in turn: the first of each name that is not among
    those already synchronised. *)
Fixpoint firsts (seen : gset string) (remotes : list Config.Remote)
  : list Config.Remote :=
  match remotes with
  | [] => []
  | remote :: rest =>
      if bool_decide (Config.name remote ∈ seen) then firsts seen rest
      else remote :: firsts ({[Config.name remote]} ∪ seen) rest
  end.

(** The download [synchronize] pushes for a remote, with the options of
    the configuration and the setting of the remote. *)
Definition index_download (config : Config.t) (remote : Config.Remote)
  : ThreadTask :=
  let opts := Config.install config in
  FileDownload remote
    (SyncPackages remote
       match Config.autoInstall_of remote with
       | Config.indeterminate => opts
       | Config.tri_true => Config.with_autoInstall true opts
       | Config.tri_false => Config.with_autoInstall false opts
       end).

End ReaPack.

(** * Properties *)

(** ** Version *)

Section VersionFacts.

Import Version.

Lemma digit_value_range c : is_digit c = true -> 0 <= digit_value c <= 9.
Proof.
  unfold is_digit, digit_value. cbv zeta.
  rewrite andb_true_iff, !Nat.leb_le. lia.
Qed.

Lemma all_digits_snoc cur c :
  all_digits (cur +:+ String c EmptyString) = all_digits cur && is_digit c.
Proof.
  induction cur as [|a cur IH]; simpl.
  - now rewrite andb_true_r.
  - rewrite IH. now rewrite andb_assoc.
Qed.

Lemma digit_runs_all_digits s : forall cur,
  all_digits cur = true ->
  Forall (fun c => all_digits c = true) (digit_runs cur s).
Proof.
  induction s as [|c s IH]; intros cur Hcur; simpl.
  - destruct cur; auto.
  - destruct (is_digit c) eqn:Hc.
    + apply IH. rewrite all_digits_snoc, Hcur, Hc. reflexivity.
    + destruct cur; [apply IH; reflexivity|].
      constructor; [exact Hcur|]. apply IH. reflexivity.
Qed.

Lemma components_all_digits s :
  Forall (fun c => all_digits c = true) (components s).
Proof. apply digit_runs_all_digits. reflexivity. Qed.

Lemma stoi_from_bound c : forall acc,
  all_digits c = true -> 0 <= acc ->
  0 <= stoi_from acc c < (acc + 1) * 10 ^ Z.of_nat (String.length c).
Proof.
  induction c as [|a c IH]; intros acc Hd Hacc; simpl String.length.
  - simpl. lia.
  - simpl in Hd. apply andb_true_iff in Hd as [Ha Hc].
    pose proof (digit_value_range a Ha) as Hr.
    simpl stoi_from.
    specialize (IH (10 * acc + digit_value a) Hc ltac:(lia)).
    rewrite Nat2Z.inj_succ, Z.pow_succ_r by lia.
    assert (0 < 10 ^ Z.of_nat (String.length c)) by (apply Z.pow_pos_nonneg; lia).
    nia.
Qed.

Lemma stoi_small c :
  all_digits c = true -> (String.length c <= 4)%nat -> 0 <= stoi c <= 9999.
Proof.
  intros Hd Hl. unfold stoi.
  pose proof (stoi_from_bound c 0 Hd ltac:(lia)) as Hb.
  assert (10 ^ Z.of_nat (String.length c) <= 10 ^ 4)
    by (apply Z.pow_le_mono_r; lia).
  change (10 ^ 4) with 10000 in *. lia.
Qed.



Lemma too_long_false c : too_long c = false <-> (String.length c <= 4)%nat.
Proof. unfold too_long, MAX_COMPONENT_LENGTH. rewrite Nat.ltb_ge. tauto. Qed.


(** What a successful parse tells about the components. *)
Lemma parse_ok_inv s v :
  parse s = Ok v ->
  (1 <= length (components s) <= 4)%nat
  /\ Forall (fun c => (String.length c <= 4)%nat) (components s)
  /\ name v = s /\ code v = pack 0 (components s) 0.
Proof.
  unfold parse. cbv zeta.
  destruct ((length (components s) =? 0)%nat
            || (MAX_COMPONENTS <? length (components s))%nat) eqn:Hn;
    [discriminate|].
  destruct (existsb too_long (components s)) eqn:Hex; [discriminate|].
  intros [= <-]. simpl.
  apply orb_false_iff in Hn as [H0 H4].
  apply Nat.eqb_neq in H0. apply Nat.ltb_ge in H4. unfold MAX_COMPONENTS in H4.
  repeat split; try lia.
  apply List.Forall_forall. intros c Hc.
  apply too_long_false.
  destruct (too_long c) eqn:Ht; [|reflexivity].
  assert (existsb too_long (components s) = true)
    by (apply existsb_exists; eauto).
  congruence.
Qed.

Lemma pack_place_value comps :
  (length comps <= 4)%nat ->
  Forall (fun c => 0 <= stoi c <= 9999) comps ->
  pack 0 comps 0 = place_value 0 comps
  /\ 0 <= place_value 0 comps < 10 ^ 16.
Proof.
  intros Hlen Hall.
  destruct comps as [|c0 [|c1 [|c2 [|c3 [|c4 rest]]]]];
    simpl in Hlen; try lia;
    repeat match goal with
           | H : Forall _ (_ :: _) |- _ => inversion H; subst; clear H
           end;
    unfold pack, place_value, u64, MAX_COMPONENTS; simpl Z.of_nat;
    simpl Nat.sub;
    change (10 ^ 16) with 10000000000000000;
    change (2 ^ 64) with 18446744073709551616;
    change (10000 ^ Z.of_nat 3) with 1000000000000;
    change (10000 ^ Z.of_nat 2) with 100000000;
    change (10000 ^ Z.of_nat 1) with 10000;
    change (10000 ^ Z.of_nat 0) with 1;
    change (10000 ^ (3 - Z.of_nat 0)) with 1000000000000;
    change (10000 ^ (3 - Z.of_nat 1)) with 100000000;
    change (10000 ^ (3 - Z.of_nat 2)) with 10000;
    change (10000 ^ (3 - Z.of_nat 3)) with 1;
    repeat match goal with
           | |- context [?a mod ?m] =>
               lazymatch a with
               | context [_ mod _] => fail
               | _ => rewrite (Z.mod_small a m) by lia
               end
           end; lia.
Qed.

End VersionFacts.

(** C7. Comparison and equality of versions look at the packed 64-bit code
    only: [eqb] and [ltb] are equality and order of the codes.  The code of
    a well-formed version name is the sum of its components, the component
    at position i counting 10000^(3 - i) times, and fits in 64 bits.
    Hence "5.05" equals "5.5", "5.5" is below "5.50", "1.2pre3" has the
    code of "1.2.3", "1.2.3.4" is below "1.2.4", and the code of "1.2.3"
    is 1000200030000. *)
Theorem version_compare_by_code :
  (forall a b : Version.t,
      Version.eqb a b = (Version.code a =? Version.code b)
      /\ Version.ltb a b = (Version.code a <? Version.code b))
  /\ (forall s v, Version.parse s = Ok v ->
        Version.code v = Version.place_value 0 (Version.components s)
        /\ 0 <= Version.code v < 2 ^ 64)
  /\ Version.parsed_rel Version.eqb "5.05" "5.5" = Some true
  /\ Version.parsed_rel Version.ltb "5.5" "5.50" = Some true
  /\ Version.code_of "1.2pre3" = Version.code_of "1.2.3"
  /\ Version.parsed_rel Version.ltb "1.2.3.4" "1.2.4" = Some true
  /\ Version.code_of "1.2.3" = Some 1000200030000.
Proof.
  split; [|split].
  - intros a b. unfold Version.eqb, Version.ltb, Version.compare.
    unfold Z.ltb.
    destruct (Z.compare_spec (Version.code a) (Version.code b)) as [H|H|H];
      (split; [|reflexivity]); symmetry;
      [apply Z.eqb_eq; exact H | apply Z.eqb_neq; lia | apply Z.eqb_neq; lia].
  - intros s v Hp.
    destruct (parse_ok_inv s v Hp) as (Hlen & Hall & _ & Hcode).
    assert (Hval : Forall (fun c => 0 <= Version.stoi c <= 9999)
                     (Version.components s)).
    { pose proof (components_all_digits s) as Hd.
      rewrite List.Forall_forall in *. intros c Hc.
      apply stoi_small; auto. }
    destruct (pack_place_value (Version.components s) ltac:(lia) Hval)
      as [Hpack Hrange].
    rewrite Hcode, Hpack. split; [reflexivity|].
    assert (10 ^ 16 < 2 ^ 64) by reflexivity. lia.
  - repeat split; vm_compute; reflexivity.
Qed.

Lemma version_compare_by_code_witness :
  Version.parse "0.2015.12.25"
  = Ok (Version.mk "0.2015.12.25" 201500120025)
  /\ 201500120025
     = Version.place_value 0 (Version.components "0.2015.12.25")
  /\ 0 <= 201500120025 < 2 ^ 64.
Proof.
  split; [reflexivity|].
  exact (proj1 (proj2 version_compare_by_code) "0.2015.12.25"
           (Version.mk "0.2015.12.25" 201500120025) eq_refl).
Defined.




(** ** Synchronisation *)

Section SynchronizeFacts.

Import Index Registry Transaction.

Variable lastVersion : Package -> bool -> Version.t -> option IVersion.

Lemma allFilesExists_false s files :
  allFilesExists s files = false <->
  exists f, In f files /\ FS.exists_ (fs s) f = false.
Proof.
  unfold allFilesExists. induction files as [|f files IH]; simpl.
  - split; [discriminate|]. intros (f & [] & _).
  - rewrite andb_false_iff, IH. split.
    + intros [H|(g & Hg & He)]; eauto.
    + intros (g & [<-|Hg] & He); eauto.
Qed.

End SynchronizeFacts.

(** C2. For a package whose registry entry is pinned, [synchronize] either
    queues nothing or queues the installation of a version equal to the
    installed one (after a file went missing), never of a version above
    it. *)
Theorem synchronize_keeps_pinned
    (lastVersion : Index.Package -> bool -> Version.t -> option Index.IVersion)
    (pkg : Index.Package) (opts : Config.InstallOpts) (s : Transaction.t)
    (e : Registry.Entry) :
  Registry.getEntry (Transaction.m_registry s) pkg = Some e ->
  Registry.pinned e = true ->
  let s' := Transaction.synchronize_package lastVersion pkg opts s in
  s' = s
  \/ exists latest,
       s' = Transaction.enqueue
              (Transaction.InstallTask (Transaction.mkRef pkg latest) false
                 (Some e) None) s
       /\ Version.eqb (Registry.version e) (Index.v_name latest) = true
       /\ Version.ltb (Registry.version e) (Index.v_name latest) = false.
Proof.
  intros He Hpin. unfold Transaction.synchronize_package. rewrite He.
  cbn [Registry.version_of Registry.pinned_of]. rewrite Hpin.
  rewrite bool_decide_eq_true_2 by eauto. cbn [negb andb orb].
  destruct (lastVersion pkg (Config.bleedingEdge opts) (Registry.version e))
    as [latest|]; [|left; reflexivity].
  destruct (Version.eqb (Registry.version e) (Index.v_name latest)) eqn:Heq;
    [|left; reflexivity].
  destruct (Transaction.allFilesExists s (Index.v_files latest));
    [left; reflexivity|].
  right. exists latest. split; [reflexivity|]. split; [exact Heq|].
  unfold Version.eqb, Version.ltb in *.
  destruct (Version.compare (Registry.version e) (Index.v_name latest));
    congruence.
Qed.

(** ** What the operations do to the core of a transaction *)

Section ProtocolFacts.

Import Index Registry Transaction Protocol.

Variable loadV1 : TiXmlElement -> Index.t -> result Index.t.
Variable lastVersion : Package -> bool -> Version.t -> option IVersion.
Variable m_promptObsolete : list Entry -> bool * list Entry.
Variable doStart : Task -> Registry.table -> StartResult.
Variable doCommit : Task -> Registry.table -> CommitResult.
Variable doRollback : Task -> list ErrorInfo.

Local Abbreviation synchronize_package := (synchronize_package lastVersion).
Local Abbreviation run_callback := (run_callback lastVersion).
Local Abbreviation load_then := (load_then loadV1 lastVersion).
Local Abbreviation fetchIndex := (fetchIndex loadV1 lastVersion).
Local Abbreviation fetchIndexes := (fetchIndexes loadV1 lastVersion).
Local Abbreviation synchronize := (synchronize loadV1 lastVersion).
Local Abbreviation download_finished := (download_finished loadV1 lastVersion).
Local Abbreviation start_task := (start_task doStart).
Local Abbreviation start_queue := (start_queue doStart).
Local Abbreviation commit_task := (commit_task doCommit).
Local Abbreviation rollback_task := (rollback_task doRollback).
Local Abbreviation finish_running := (finish_running doCommit doRollback).
Local Abbreviation commitTasks := (commitTasks doCommit doRollback).
Local Abbreviation run_queues := (run_queues doStart doCommit doRollback).
Local Abbreviation promptObsolete := (promptObsolete m_promptObsolete).
Local Abbreviation runTasks :=
  (runTasks m_promptObsolete doStart doCommit doRollback).
Local Abbreviation thread_finished :=
  (thread_finished loadV1 lastVersion m_promptObsolete doStart doCommit
     doRollback).
Local Abbreviation step :=
  (step loadV1 lastVersion m_promptObsolete doStart doCommit doRollback).
Local Abbreviation run :=
  (run loadV1 lastVersion m_promptObsolete doStart doCommit doRollback).

(** *** Operations that leave the core alone *)

Lemma core_fold_left {A} (f : t -> A -> t) (l : list A) :
  (forall s x, core (f s x) = core s) ->
  forall s, core (fold_left f l s) = core s.
Proof.
  intros Hf. induction l as [|x l IH]; intros s; simpl; [reflexivity|].
  rewrite IH. apply Hf.
Qed.

Lemma core_synchronize_package pkg opts s :
  core (synchronize_package pkg opts s) = core s.
Proof.
  unfold Transaction.synchronize_package. repeat case_match; reflexivity.
Qed.

Lemma core_obsolete_insert e s : core (obsolete_insert e s) = core s.
Proof. unfold obsolete_insert. case_match; reflexivity. Qed.

Lemma core_run_callback cb ri s : core (run_callback cb ri s) = core s.
Proof.
  destruct cb as [|remote opts]; [reflexivity|].
  unfold Transaction.run_callback.
  assert (Hsync : forall s0,
             core (fold_left (fun s pkg => synchronize_package pkg opts s)
                     (packages ri) s0) = core s0).
  { apply core_fold_left. intros. apply core_synchronize_package. }
  case_match; [|apply Hsync].
  rewrite core_fold_left; [apply Hsync|].
  intros s0 e. case_match; [reflexivity|apply core_obsolete_insert].
Qed.

Lemma core_loadIndex remote s :
  core (snd (loadIndex loadV1 remote s)) = core s.
Proof. unfold loadIndex. repeat case_match; reflexivity. Qed.

Lemma core_load_then remote cb s : core (load_then remote cb s) = core s.
Proof.
  unfold Transaction.load_then.
  pose proof (core_loadIndex remote s) as H.
  destruct (loadIndex loadV1 remote s) as [[ri|] s1]; simpl in H;
    [rewrite core_run_callback|]; exact H.
Qed.

Lemma core_addError e s : core (addError e s) = core s.
Proof. reflexivity. Qed.

Lemma core_set_fs v s : core (set_fs v s) = core s.
Proof. reflexivity. Qed.

Lemma core_download_finished remote cb outcome s :
  core (download_finished remote cb outcome s) = core s.
Proof.
  unfold Transaction.download_finished.
  destruct outcome; cbv zeta; repeat case_match;
    rewrite ?core_addError, ?core_load_then, ?core_addError, ?core_set_fs;
    reflexivity.
Qed.

Lemma core_inhibit remote s : core (inhibit remote s) = core s.
Proof. reflexivity. Qed.

Lemma core_uninstall_remote remote s :
  core (uninstall_remote remote s) = core s.
Proof.
  unfold uninstall_remote. rewrite core_fold_left by reflexivity.
  case_match; reflexivity.
Qed.

Lemma core_registerAll_entry add entry s :
  core (registerAll_entry add entry s) = core s.
Proof. unfold registerAll_entry. apply core_fold_left. reflexivity. Qed.

Lemma core_registerAll remote s : core (registerAll remote s) = core s.
Proof.
  unfold registerAll. case_match; rewrite ?core_inhibit;
    (rewrite core_fold_left; [reflexivity|]);
    intros; apply core_registerAll_entry.
Qed.

Lemma core_promptObsolete s : core (promptObsolete s) = core s.
Proof.
  unfold Transaction.promptObsolete. repeat case_match; reflexivity.
Qed.

(** *** Operations that move the core *)

Lemma rtc_core_eq s s' : core s' = core s -> rtc cstep (core s) (core s').
Proof. intros ->. apply rtc_refl. Qed.

Lemma sim_pool_push job s :
  finished s = false -> cstep (core s) (core (pool_push job s)).
Proof.
  intros Hf. unfold core, pool_push, emit. simpl. rewrite Hf. apply cs_push.
Qed.

Lemma same_control_refl s : same_control s s.
Proof. repeat split. Qed.

Lemma same_control_trans s1 s2 s3 :
  same_control s1 s2 -> same_control s2 s3 -> same_control s1 s3.
Proof.
  intros (H1 & H2 & H3) (H4 & H5 & H6). repeat split; congruence.
Qed.

Lemma same_control_core s s' : core s' = core s -> same_control s s'.
Proof.
  unfold core. intros [= H1 H2 H3 H4 H5 H6]. repeat split; congruence.
Qed.

Lemma sim_pushes job n s :
  finished s = false ->
  let s' := Nat.iter n (pool_push job) s in
  rtc cstep (core s) (core s')
  /\ same_control s s'
  /\ m_registry s' = m_registry s
  /\ m_runningTasks s' = m_runningTasks s.
Proof.
  intros Hf. induction n as [|n IH]; simpl.
  - repeat split. apply rtc_refl.
  - destruct IH as (Hrtc & Hc & Hr & Hrun).
    split; [|split; [|split]].
    + eapply rtc_r; [exact Hrtc|]. apply sim_pool_push.
      destruct Hc as (_ & -> & _). exact Hf.
    + eapply same_control_trans; [exact Hc|]. repeat split.
    + exact Hr.
    + exact Hrun.
Qed.

Lemma sim_start_task task s :
  finished s = false -> m_isCancelled s = false ->
  depth (m_registry s) = 2%nat ->
  let s' := start_task task s in
  rtc cstep (core s) (core s') /\ same_control s s'.
Proof.
  intros Hf Hc Hd. unfold Transaction.start_task.
  set (r := doStart task (working (m_registry s))).
  set (s1 := addErrors (start_errors r) (write_registry (probed r) s)).
  assert (H1 : cstep (core s) (core s1)).
  { unfold core, s1. simpl. rewrite Hf, Hc. apply cs_write. }
  assert (Hf1 : finished s1 = false) by exact Hf.
  destruct (sim_pushes (TaskJob task) (jobs r) s1 Hf1)
    as (H2 & (Hc2 & Hf2 & Hd2) & Hr2 & Hrun2).
  set (s2 := Nat.iter (jobs r) (pool_push (TaskJob task)) s1) in *.
  cbv zeta.
  assert (H3 : cstep (core s2)
                 (core (if started r
                        then set_runningTasks
                               (m_runningTasks (emit (EStart task (started r)) s2)
                                ++ [task])
                               (emit (EStart task (started r)) s2)
                        else emit (EStart task (started r)) s2))).
  { assert (Hd' : depth (m_registry s2) = 2%nat) by (rewrite Hd2; exact Hd).
    assert (Hc' : m_isCancelled s2 = false) by (rewrite Hc2; exact Hc).
    assert (Hf' : finished s2 = false) by (rewrite Hf2; exact Hf).
    pose proof (cs_start (m_registry s2) (m_runningTasks s2)
                  (m_threadPool s2) (trace s2) task (started r) Hd') as Hs.
    unfold core. destruct (started r); simpl; rewrite Hf', Hc'; exact Hs. }
  split.
  - eapply rtc_l; [exact H1|]. eapply rtc_r; [exact H2|]. exact H3.
  - eapply (same_control_trans s s2).
    + repeat split; [rewrite Hc2|rewrite Hf2|rewrite Hd2]; reflexivity.
    + destruct (started r); repeat split.
Qed.

Lemma sim_start_queue queue : forall s,
  finished s = false -> m_isCancelled s = false ->
  depth (m_registry s) = 2%nat ->
  let s' := start_queue queue s in
  rtc cstep (core s) (core s') /\ same_control s s'.
Proof.
  induction queue as [|task rest IH]; intros s Hf Hc Hd; simpl.
  - split; [apply rtc_refl|apply same_control_refl].
  - destruct (sim_start_task task s Hf Hc Hd) as (H1 & Hs1).
    pose proof Hs1 as (Hc1 & Hf1 & Hd1).
    destruct (IH (start_task task s)) as (H2 & Hs2);
      [congruence|congruence|congruence|].
    split; [etrans; eassumption|eapply same_control_trans; eassumption].
Qed.

Lemma sim_finish_running running : forall s,
  m_runningTasks s = running -> m_threadPool s = [] ->
  finished s = false -> (depth (m_registry s) <= 1)%nat ->
  let s' := finish_running running s in
  rtc cstep (core s) (core s') /\ same_control s s'
  /\ m_runningTasks s' = [] /\ m_threadPool s' = [].
Proof.
  induction running as [|front rest IH]; intros s Hrun Hpool Hf Hd; simpl.
  - repeat split; auto. apply rtc_refl.
  - destruct (m_isCancelled s) eqn:Hc.
    + set (s1 := set_runningTasks rest (rollback_task front s)).
      assert (H1 : cstep (core s) (core s1)).
      { unfold core, s1. simpl. rewrite Hf, Hc, Hrun, Hpool.
        apply cs_rollback. exact Hd. }
      destruct (IH s1) as (H2 & Hs2 & Hr2 & Hp2); auto.
      split; [eapply rtc_l; eassumption|].
      split; [|auto].
      eapply same_control_trans; [|exact Hs2].
      repeat split.
    + set (s1 := set_runningTasks rest (commit_task front s)).
      set (r := doCommit front (working (m_registry s))).
      assert (H1 : rtc cstep (core s) (core s1)).
      { eapply rtc_l with
          (mkCore false (with_working (written r) (m_registry s))
             (front :: rest) [] false (trace s)).
        - unfold core. rewrite Hf, Hc, Hrun, Hpool. apply cs_write.
        - apply rtc_once. unfold core, s1. simpl. rewrite Hf, Hc, Hpool.
          apply cs_commit_task. exact Hd. }
      destruct (IH s1) as (H2 & Hs2 & Hr2 & Hp2); auto.
      split; [etrans; eassumption|].
      split; [|auto].
      eapply same_control_trans; [|exact Hs2].
      repeat split.
Qed.

Lemma idle_true s : idle s = true -> m_threadPool s = [].
Proof. unfold idle. destruct (m_threadPool s); [reflexivity|discriminate]. Qed.

Lemma sim_commitTasks s :
  finished s = false -> (depth (m_registry s) <= 1)%nat ->
  let r := commitTasks s in
  rtc cstep (core s) (core (snd r)) /\ same_control s (snd r)
  /\ (fst r = true -> m_runningTasks (snd r) = [] /\ m_threadPool (snd r) = [])
  /\ (fst r = false -> snd r = s).
Proof.
  intros Hf Hd. unfold Transaction.commitTasks.
  destruct (idle s) eqn:Hi; simpl.
  - destruct (sim_finish_running (m_runningTasks s) s eq_refl
                (idle_true s Hi) Hf Hd) as (H1 & H2 & H3 & H4).
    split; [exact H1|]. split; [exact H2|]. split; [auto|].
    intros H; discriminate H.
  - split; [apply rtc_refl|]. split; [apply same_control_refl|].
    split; [intros H; discriminate H|reflexivity].
Qed.

Lemma depth_savepoint r : depth (Registry.savepoint r) = S (depth r).
Proof. reflexivity. Qed.

Lemma depth_restore r : depth (Registry.restore r) = pred (depth r).
Proof.
  unfold depth, Registry.restore.
  destruct (savepoints r) eqn:E; simpl; [rewrite E|]; reflexivity.
Qed.

Lemma sim_run_queues queues : forall s,
  finished s = false -> m_isCancelled s = false ->
  depth (m_registry s) = 1%nat ->
  m_runningTasks s = [] -> m_threadPool s = [] ->
  let r := run_queues queues s in
  rtc cstep (core s) (core (snd r)) /\ same_control s (snd r)
  /\ (fst r = true -> m_runningTasks (snd r) = [] /\ m_threadPool (snd r) = []).
Proof.
  induction queues as [|queue rest IH]; intros s Hf Hc Hd Hrun Hpool.
  - simpl. split; [apply rtc_refl|]. split; [apply same_control_refl|auto].
  - cbn [Transaction.run_queues].
    set (s1 := emit ESavepoint
                 (set_registry (Registry.savepoint (m_registry s)) s)).
    assert (H1 : cstep (core s) (core s1)).
    { unfold core, s1. simpl. rewrite Hf, Hc, Hrun, Hpool.
      apply cs_savepoint. lia. }
    assert (Hd1 : depth (m_registry s1) = 2%nat)
      by (unfold s1; simpl; rewrite depth_savepoint, Hd; reflexivity).
    destruct (sim_start_queue queue s1 Hf Hc Hd1) as (H2 & Hc2 & Hf2 & Hd2).
    set (s2 := start_queue queue s1) in *.
    change (finished s1) with (finished s) in Hf2.
    change (m_isCancelled s1) with (m_isCancelled s) in Hc2.
    set (s3 := set_taskQueues rest
                 (emit ERestore
                    (set_registry (Registry.restore (m_registry s2)) s2))).
    assert (H3 : cstep (core s2) (core s3)).
    { unfold core, s3. simpl. rewrite Hf2, Hf, Hc2, Hc.
      apply cs_restore. congruence. }
    assert (Hd3 : depth (m_registry s3) = 1%nat).
    { unfold s3. simpl. rewrite depth_restore, Hd2, Hd1. reflexivity. }
    assert (Hf3 : finished s3 = false) by (unfold s3; simpl; congruence).
    assert (Hc3 : m_isCancelled s3 = false) by (unfold s3; simpl; congruence).
    destruct (sim_commitTasks s3 Hf3 ltac:(lia))
      as (H4 & (Hc4 & Hf4 & Hd4) & Hok & Hno).
    destruct (commitTasks s3) as [[|] s4] eqn:Hct; simpl in *.
    + destruct (Hok eq_refl) as [Hr4 Hp4].
      destruct (IH s4) as (H5 & (Hc5 & Hf5 & Hd5) & Hok5);
        [congruence|congruence|congruence|exact Hr4|exact Hp4|].
      split.
      { eapply rtc_l; [exact H1|]. etrans; [exact H2|].
        eapply rtc_l; [exact H3|]. etrans; [exact H4|exact H5]. }
      split; [|exact Hok5].
      repeat split; congruence.
    + split.
      { eapply rtc_l; [exact H1|]. etrans; [exact H2|].
        eapply rtc_l; [exact H3|]. exact H4. }
      split; [|intros H; discriminate H].
      repeat split; congruence.
Qed.

Lemma sim_registerScript reg isLast s :
  exists pre,
    forallb is_host pre = true
    /\ core (registerScript reg isLast s)
       = mkCore (m_isCancelled s) (m_registry s) (m_runningTasks s)
           (m_threadPool s) (finished s) (trace s ++ pre).
Proof.
  unfold registerScript. case_match.
  - exists []. split; [reflexivity|]. unfold core. now rewrite app_nil_r.
  - exists [EHostRegister reg isLast]. split; reflexivity.
Qed.

Lemma sim_registerQueued_from queue : forall s,
  exists hosts,
    forallb is_host hosts = true
    /\ core (registerQueued_from queue s)
       = mkCore (m_isCancelled s) (m_registry s) (m_runningTasks s)
           (m_threadPool s) (finished s) (trace s ++ hosts).
Proof.
  induction queue as [|reg rest IH]; intros s.
  - exists []. split; [reflexivity|]. unfold core. simpl.
    now rewrite app_nil_r.
  - cbn [Transaction.registerQueued_from]. case_match.
    + exists []. split; [reflexivity|]. unfold core. simpl.
      now rewrite app_nil_r.
    + match goal with
      | |- context [registerQueued_from rest (set_regQueue rest ?x)] =>
          remember x as s1 eqn:Hs1;
          assert (H1 : exists pre, forallb is_host pre = true
                        /\ core s1
                           = mkCore (m_isCancelled s) (m_registry s)
                               (m_runningTasks s) (m_threadPool s)
                               (finished s) (trace s ++ pre))
      end.
      { subst s1. destruct (type (file reg));
          first [ apply sim_registerScript
                | exists []; split; [reflexivity|]; unfold core;
                  now rewrite app_nil_r ]. }
      destruct H1 as (pre & Hpre & Hcore).
      destruct (IH (set_regQueue rest s1)) as (hosts & Hh & Heq).
      exists (pre ++ hosts). split.
      * rewrite forallb_app, Hpre, Hh. reflexivity.
      * rewrite Heq. unfold core in Hcore. simpl.
        injection Hcore as E1 E2 E3 E4 E5 E6.
        rewrite E1, E2, E3, E4, E5, E6. now rewrite app_assoc.
Qed.

Lemma core_finish s :
  core (finish s)
  = mkCore (c_cancelled (core s)) (c_registry (core s)) (c_running (core s))
      (c_pool (core s)) true (c_trace (core s) ++ [EFinish]).
Proof. reflexivity. Qed.

Lemma sim_runTasks s :
  finished s = false -> depth (m_registry s) = 1%nat ->
  let r := runTasks s in
  rtc cstep (core s) (core (snd r))
  /\ (finished (snd r) = false ->
      depth (m_registry (snd r)) = 1%nat
      /\ m_isCancelled (snd r) = m_isCancelled s).
Proof.
  intros Hf Hd. unfold Transaction.runTasks.
  match goal with
  | |- context [commitTasks ?x] => set (s0 := x)
  end.
  assert (Hcore0 : core s0 = core s)
    by (unfold s0; destruct (m_nextQueue s); reflexivity).
  destruct (same_control_core _ _ Hcore0) as (Hc0 & Hf0 & Hd0).
  destruct (sim_commitTasks s0 ltac:(congruence) ltac:(lia))
    as (H1 & (Hc1 & Hf1 & Hd1) & Hok & Hno).
  rewrite Hcore0 in H1.
  destruct (commitTasks s0) as [[|] s1]; simpl in *.
  - destruct (Hok eq_refl) as [Hr1 Hp1].
    destruct (m_isCancelled s1) eqn:Hcan.
    + simpl. split; [|intros H; discriminate H].
      eapply rtc_r; [exact H1|].
      unfold core, finish, emit. simpl.
      rewrite Hr1, Hp1, Hf1, Hf0, Hf. apply cs_finish. lia.
    + set (s2 := promptObsolete s1).
      pose proof (core_promptObsolete s1) as Hcore2. fold s2 in Hcore2.
      destruct (same_control_core _ _ Hcore2) as (Hc2 & Hf2 & Hd2).
      assert (Hr2 : m_runningTasks s2 = [])
        by (unfold core in Hcore2; injection Hcore2; congruence).
      assert (Hp2 : m_threadPool s2 = [])
        by (unfold core in Hcore2; injection Hcore2; congruence).
      destruct (sim_run_queues (m_taskQueues s2) s2)
        as (H3 & (Hc3 & Hf3 & Hd3) & Hok3); try congruence.
      rewrite Hcore2 in H3.
      destruct (run_queues (m_taskQueues s2) s2) as [[|] s3]; simpl in *.
      * split; [|intros H; discriminate H].
        destruct (Hok3 eq_refl) as [Hr3 Hp3].
        etrans; [exact H1|]. eapply rtc_r; [exact H3|].
        unfold registerQueued.
        match goal with
        | |- context [registerQueued_from ?q ?x] =>
            destruct (sim_registerQueued_from q x) as (hosts & Hh & Heq)
        end.
        rewrite core_finish, Heq. unfold core. simpl.
        rewrite Hr3, Hp3, Hf3, Hf2, Hf1, Hf0, Hf, Hc3, Hc2, Hcan.
        rewrite <- !app_assoc. simpl.
        apply cs_final; [exact Hh|lia].
      * split; [etrans; eassumption|].
        intros _. split; congruence.
  - split; [exact H1|]. intros _. split; congruence.
Qed.

Lemma sim_fetchIndex remote stale cb s :
  finished s = false ->
  let s' := fetchIndex remote stale cb s in
  rtc cstep (core s) (core s') /\ same_control s s'.
Proof.
  intros Hf. unfold Transaction.fetchIndex. cbv zeta. case_match.
  - pose proof (core_load_then remote cb s) as Hcore.
    split; [apply rtc_core_eq; exact Hcore|apply same_control_core; exact Hcore].
  - split; [apply rtc_once, sim_pool_push; exact Hf|repeat split].
Qed.

Lemma sim_fetchIndexes remotes stale : forall s,
  finished s = false ->
  let s' := fetchIndexes remotes stale s in
  rtc cstep (core s) (core s') /\ same_control s s'.
Proof.
  unfold Transaction.fetchIndexes.
  induction remotes as [|remote rest IH]; intros s Hf; simpl.
  - split; [apply rtc_refl|apply same_control_refl].
  - destruct (sim_fetchIndex remote stale NoCallback s Hf) as (H1 & Hs1).
    pose proof Hs1 as (_ & Hf1 & _).
    destruct (IH (fetchIndex remote stale NoCallback s)) as (H2 & Hs2);
      [congruence|].
    split; [etrans; eassumption|eapply same_control_trans; eassumption].
Qed.

Lemma sim_synchronize remote force s :
  finished s = false ->
  let s' := synchronize remote force s in
  rtc cstep (core s) (core s') /\ same_control s s'.
Proof.
  intros Hf. unfold Transaction.synchronize. case_match.
  - split; [apply rtc_refl|apply same_control_refl].
  - match goal with
    | |- context [fetchIndex remote true ?cb ?x] =>
        destruct (sim_fetchIndex remote true cb x Hf) as (H1 & H2)
    end.
    split; [exact H1|exact H2].
Qed.

Lemma sim_thread_finished i outcome s :
  finished s = false -> depth (m_registry s) = 1%nat ->
  let s' := thread_finished i outcome s in
  rtc cstep (core s) (core s')
  /\ (finished s' = false -> depth (m_registry s') = 1%nat).
Proof.
  intros Hf Hd. unfold Transaction.thread_finished.
  destruct (m_threadPool s !! i) as [job|] eqn:Hjob;
    [|split; [apply rtc_refl|auto]].
  set (s1 := emit (EThreadDone job)
               (set_threadPool (delete i (m_threadPool s)) s)).
  assert (H1 : cstep (core s) (core s1)).
  { unfold core, s1. simpl. rewrite Hf. apply cs_done; [exact Hjob|lia]. }
  cbv zeta.
  match goal with
  | |- context [idle ?x] => set (s2 := x)
  end.
  assert (Hcore2 : core s2 = core s1).
  { unfold s2. destruct job as [remote cb|owner].
    - apply core_download_finished.
    - destruct outcome; reflexivity. }
  destruct (same_control_core _ _ Hcore2) as (Hc2 & Hf2 & Hd2).
  change (finished s1) with (finished s) in Hf2.
  change (depth (m_registry s1)) with (depth (m_registry s)) in Hd2.
  destruct (idle s2).
  - destruct (sim_runTasks s2) as (H3 & Hpost); [congruence|congruence|].
    split.
    + eapply rtc_l; [exact H1|]. rewrite <- Hcore2. exact H3.
    + intros Hfin. apply Hpost. exact Hfin.
  - split.
    + rewrite Hcore2. apply rtc_once. exact H1.
    + intros _. congruence.
Qed.

Lemma sim_step a s :
  finished s = false -> depth (m_registry s) = 1%nat ->
  rtc cstep (core s) (core (step a s))
  /\ (finished (step a s) = false -> depth (m_registry (step a s)) = 1%nat).
Proof.
  intros Hf Hd. unfold Transaction.step. rewrite Hf.
  assert (Hframe : forall s', core s' = core s ->
            rtc cstep (core s) (core s')
            /\ (finished s' = false -> depth (m_registry s') = 1%nat)).
  { intros s' H. split; [apply rtc_core_eq; exact H|].
    destruct (same_control_core _ _ H) as (_ & _ & Hd'). intros _. congruence. }
  assert (Hctl : forall s', rtc cstep (core s) (core s') /\ same_control s s' ->
            rtc cstep (core s) (core s')
            /\ (finished s' = false -> depth (m_registry s') = 1%nat)).
  { intros s' (H & _ & _ & Hd'). split; [exact H|]. intros _. congruence. }
  destruct a.
  - apply Hctl, sim_synchronize, Hf.
  - apply Hctl, sim_fetchIndexes, Hf.
  - apply Hframe. reflexivity.
  - apply Hframe. reflexivity.
  - apply Hframe. reflexivity.
  - apply Hframe, core_uninstall_remote.
  - apply Hframe, core_registerAll.
  - destruct (sim_runTasks s Hf Hd) as (H1 & H2).
    split; [exact H1|]. intros H. apply H2, H.
  - split; [|intros _; exact Hd].
    apply rtc_once. unfold core, onAbort. simpl. rewrite Hf. apply cs_abort.
  - apply sim_thread_finished; assumption.
Qed.

Lemma step_finished a s : finished s = true -> step a s = s.
Proof. intros H. unfold Transaction.step. rewrite H. reflexivity. Qed.

Lemma run_finished acts : forall s, finished s = true -> run acts s = s.
Proof.
  induction acts as [|a acts IH]; intros s H; simpl; [reflexivity|].
  rewrite step_finished by exact H. apply IH, H.
Qed.

Lemma sim_run acts : forall s,
  finished s = false -> depth (m_registry s) = 1%nat ->
  rtc cstep (core s) (core (run acts s))
  /\ (finished (run acts s) = false -> depth (m_registry (run acts s)) = 1%nat).
Proof.
  induction acts as [|a acts IH]; intros s Hf Hd.
  - split; [apply rtc_refl|auto].
  - change (run (a :: acts) s) with (run acts (step a s)).
    destruct (sim_step a s Hf Hd) as (H1 & Hpost).
    destruct (finished (step a s)) eqn:Hf1.
    + rewrite run_finished by exact Hf1.
      split; [exact H1|]. congruence.
    + destruct (IH (step a s) Hf1 (Hpost eq_refl)) as (H2 & Hpost2).
      split; [etrans; eassumption|exact Hpost2].
Qed.

(** *** What the moves preserve *)

Lemma cstep_cancelled c c' :
  cstep c c' -> c_cancelled c = true ->
  c_cancelled c' = true /\ c_registry c' = c_registry c
  /\ exists new, c_trace c' = c_trace c ++ new
                 /\ forallb after_cancel new = true
                 /\ c_running c = rolled_back new ++ c_running c'.
Proof.
  intros H Hc. destruct H; simpl in *; try discriminate;
    (split; [reflexivity || assumption|]; split; [reflexivity|]);
    first [ exists []; split; [now rewrite app_nil_r|split; reflexivity]
          | eexists [_]; split; [reflexivity|split; reflexivity] ].
Qed.

Lemma rtc_cancelled c c' :
  rtc cstep c c' -> c_cancelled c = true ->
  c_cancelled c' = true /\ c_registry c' = c_registry c
  /\ exists new, c_trace c' = c_trace c ++ new
                 /\ forallb after_cancel new = true
                 /\ c_running c = rolled_back new ++ c_running c'.
Proof.
  induction 1 as [c|c c1 c2 Hstep _ IH]; intros Hc.
  - split; [exact Hc|]. split; [reflexivity|].
    exists []. split; [now rewrite app_nil_r|split; reflexivity].
  - destruct (cstep_cancelled _ _ Hstep Hc)
      as (Hc1 & Hr1 & new1 & Ht1 & Hq1 & Hrun1).
    destruct (IH Hc1) as (Hc2 & Hr2 & new2 & Ht2 & Hq2 & Hrun2).
    split; [exact Hc2|]. split; [congruence|].
    exists (new1 ++ new2). split; [|split].
    + rewrite Ht2, Ht1. now rewrite app_assoc.
    + rewrite forallb_app, Hq1, Hq2. reflexivity.
    + unfold rolled_back in *. rewrite omap_app, <- app_assoc, <- Hrun2.
      exact Hrun1.
Qed.

(** A transaction that has finished has no task left running. *)
Lemma cstep_finished_settled c c' :
  cstep c c' -> c_finished c' = true -> c_running c' = [].
Proof. intros H. destruct H; simpl; intros Hf; (discriminate || reflexivity). Qed.

Lemma rtc_finished_settled c c' :
  rtc cstep c c' -> c_finished c = false -> c_finished c' = true ->
  c_running c' = [].
Proof.
  induction 1 as [c|c c1 c2 Hstep Hrest IH]; intros Hf Hf'; [congruence|].
  destruct (c_finished c1) eqn:Hf1.
  - destruct Hrest as [|c1 c3 c4 Hstep' _].
    + apply (cstep_finished_settled _ _ Hstep Hf1).
    + inversion Hstep'; subst; discriminate Hf1.
  - apply IH; [reflexivity|exact Hf'].
Qed.

(** *** Rolling back

    What the end of a download adds to the receipt, and what [runTasks]
    does to a cancelled transaction whose pool is idle. *)

Lemma receipt_fold_left {A} (f : t -> A -> t) (l : list A) :
  (forall s x, m_receipt (f s x) = m_receipt s) ->
  forall s, m_receipt (fold_left f l s) = m_receipt s.
Proof.
  intros Hf. induction l as [|x l IH]; intros s; simpl; [reflexivity|].
  rewrite IH. apply Hf.
Qed.

Lemma receipt_run_callback cb ri s :
  m_receipt (run_callback cb ri s) = m_receipt s.
Proof.
  destruct cb as [|remote opts]; [reflexivity|].
  unfold Transaction.run_callback.
  assert (Hsync : forall s0,
             m_receipt (fold_left (fun s pkg => synchronize_package pkg opts s)
                          (packages ri) s0) = m_receipt s0).
  { apply receipt_fold_left. intros.
    unfold Transaction.synchronize_package. repeat case_match; reflexivity. }
  case_match; [|apply Hsync].
  rewrite receipt_fold_left; [apply Hsync|].
  intros s0 e. unfold obsolete_insert. repeat case_match; reflexivity.
Qed.

Lemma receipt_load_then remote cb s :
  exists pre, m_receipt (load_then remote cb s) = m_receipt s ++ pre.
Proof.
  unfold Transaction.load_then, loadIndex.
  destruct (m_indexes s !! Config.name remote) as [ri|].
  - exists []. now rewrite receipt_run_callback, app_nil_r.
  - destruct (Index.load loadV1 (fs s) (Config.name remote)) as [ri|what].
    + exists []. now rewrite receipt_run_callback, app_nil_r.
    + eexists. reflexivity.
Qed.

Lemma receipt_download_finished remote cb outcome s :
  exists pre,
    m_receipt (download_finished remote cb outcome s) = m_receipt s ++ pre.
Proof.
  assert (Hload : forall s1 (c : bool) pre1,
             m_receipt s1 = m_receipt s ++ pre1 ->
             exists pre,
               m_receipt (if c then load_then remote cb s1 else s1)
               = m_receipt s ++ pre).
  { intros s1 c pre1 H1. destruct c; [|eauto].
    destruct (receipt_load_then remote cb s1) as (pre2 & H2).
    exists (pre1 ++ pre2). now rewrite H2, H1, app_assoc. }
  unfold Transaction.download_finished.
  destruct outcome as [f|e|]; cbv zeta.
  - apply (Hload _ _ []). simpl. now rewrite app_nil_r.
  - match goal with
    | |- context [addError e ?x] =>
        set (s2 := x);
        assert (H : exists pre, m_receipt s2 = m_receipt s ++ pre)
          by (apply (Hload _ _ [(FS.lastError,
                                 pathFor (Config.name remote))]);
              reflexivity)
    end.
    destruct H as (pre & H). exists (pre ++ [e]).
    change (m_receipt s2 ++ [e] = m_receipt s ++ pre ++ [e]).
    now rewrite H, app_assoc.
  - apply (Hload _ _ [(FS.lastError, pathFor (Config.name remote))]).
    reflexivity.
Qed.

Lemma finish_running_cancelled running : forall s,
  m_isCancelled s = true ->
  let s' := finish_running running s in
  trace s' = trace s ++ map ETaskRollback running
  /\ m_receipt s' = m_receipt s ++ flat_map doRollback running
  /\ m_registry s' = m_registry s
  /\ m_isCancelled s' = true /\ finished s' = finished s.
Proof.
  induction running as [|front rest IH]; intros s Hc; simpl.
  - rewrite !app_nil_r. auto.
  - rewrite Hc.
    destruct (IH (set_runningTasks rest (rollback_task front s)) Hc)
      as (H1 & H2 & H3 & H4 & H5).
    rewrite H1, H2, H3, H4, H5. unfold Transaction.rollback_task. simpl.
    rewrite <- !app_assoc. auto.
Qed.

Lemma finish_running_empties s :
  m_runningTasks (finish_running (m_runningTasks s) s) = [].
Proof.
  remember (m_runningTasks s) as running eqn:E. revert s E.
  induction running as [|x running IH]; intros s E; simpl; [auto|].
  apply IH. reflexivity.
Qed.

Lemma cancelled_runTasks s :
  m_isCancelled s = true -> idle s = true ->
  let s' := snd (runTasks s) in
  finished s' = true
  /\ trace s' = trace s ++ map ETaskRollback (m_runningTasks s) ++ [EFinish]
  /\ m_receipt s' = m_receipt s ++ flat_map doRollback (m_runningTasks s)
  /\ m_registry s' = m_registry s
  /\ m_runningTasks s' = [].
Proof.
  intros Hc Hi. unfold Transaction.runTasks.
  match goal with
  | |- context [commitTasks ?x] => set (s0 := x)
  end.
  assert (H0 : m_isCancelled s0 = true /\ idle s0 = true
               /\ trace s0 = trace s /\ m_receipt s0 = m_receipt s
               /\ m_registry s0 = m_registry s
               /\ m_runningTasks s0 = m_runningTasks s)
    by (unfold s0; destruct (m_nextQueue s); repeat split; assumption).
  destruct H0 as (Hc0 & Hi0 & Ht0 & Hr0 & Hg0 & Hrun0).
  unfold Transaction.commitTasks. rewrite Hi0. cbn [negb].
  destruct (finish_running_cancelled (m_runningTasks s0) s0 Hc0)
    as (H1 & H2 & H3 & H4 & H5).
  pose proof (finish_running_empties s0) as H6.
  set (s1 := finish_running (m_runningTasks s0) s0) in *.
  rewrite H4. cbn [snd]. unfold finish, emit. simpl.
  rewrite H1, H2, H3, H6, Ht0, Hr0, Hg0, Hrun0, <- app_assoc. auto.
Qed.

(** The last task of the pool of a cancelled transaction ends. *)
Lemma cancelled_last_thread job outcome s :
  m_isCancelled s = true -> finished s = false -> m_threadPool s = [job] ->
  let s' := step (AThreadFinished 0%nat outcome) s in
  finished s' = true
  /\ trace s'
     = trace s
       ++ EThreadDone job :: map ETaskRollback (m_runningTasks s) ++ [EFinish]
  /\ (exists pre,
        m_receipt s'
        = m_receipt s ++ pre ++ flat_map doRollback (m_runningTasks s))
  /\ m_registry s' = m_registry s
  /\ m_runningTasks s' = [].
Proof.
  intros Hc Hf Hpool. unfold Transaction.step. rewrite Hf.
  unfold Transaction.thread_finished. rewrite Hpool. cbn [lookup list_lookup].
  set (s1 := emit (EThreadDone job) (set_threadPool (delete 0%nat [job]) s)).
  match goal with
  | |- context [idle ?x] => set (s2 := x)
  end.
  assert (H2 : core s2 = core s1
               /\ exists pre, m_receipt s2 = m_receipt s ++ pre).
  { unfold s2. destruct job as [remote cb|task].
    - split; [apply core_download_finished|].
      apply (receipt_download_finished remote cb outcome s1).
    - destruct outcome as [f|e|]; split; try reflexivity;
        first [ exists []; now rewrite app_nil_r | eexists; reflexivity ]. }
  destruct H2 as (Hcore & pre & Hrec).
  unfold core in Hcore. injection Hcore as Hc2 Hg2 Hrun2 Hp2 Hf2 Ht2.
  assert (Hi2 : idle s2 = true) by (unfold idle; rewrite Hp2; reflexivity).
  rewrite Hi2.
  destruct (cancelled_runTasks s2) as (K1 & K2 & K3 & K4 & K5);
    [rewrite Hc2; exact Hc|exact Hi2|].
  rewrite K1, K2, K3, K4, K5, Ht2, Hrun2, Hg2, Hrec.
  unfold s1. simpl. rewrite <- !app_assoc.
  split; [reflexivity|]. split; [reflexivity|].
  split; [exists pre; reflexivity|]. split; reflexivity.
Qed.

Lemma cstep_durable c c' :
  cstep c c' ->
  c_finished c = false
  /\ (c_finished c' = false ->
      durable (c_registry c') = durable (c_registry c)).
Proof.
  intros H. destruct H; simpl; split; try reflexivity;
    try (intros _; reflexivity); try (intros H'; discriminate H').
  intros _. unfold Registry.restore. destruct (savepoints r); reflexivity.
Qed.

Lemma rtc_unfinished c c' :
  rtc cstep c c' -> c_finished c' = false -> c_finished c = false.
Proof.
  intros H. destruct H as [|c c1 c2 Hstep _]; [auto|].
  intros _. apply (cstep_durable _ _ Hstep).
Qed.

Lemma rtc_durable c c' :
  rtc cstep c c' -> c_finished c' = false ->
  durable (c_registry c') = durable (c_registry c).
Proof.
  induction 1 as [c|c c1 c2 Hstep Hrest IH]; intros Hf; [reflexivity|].
  rewrite (IH Hf).
  apply (cstep_durable _ _ Hstep), (rtc_unfinished _ _ Hrest Hf).
Qed.

Lemma read_trace_snoc strict tr e :
  read_trace strict (tr ++ [e]) = read_event strict (read_trace strict tr) e.
Proof. unfold read_trace. rewrite fold_left_app. reflexivity. Qed.

Lemma read_trace_app strict tr tr' :
  read_trace strict (tr ++ tr')
  = fold_left (read_event strict) tr' (read_trace strict tr).
Proof. unfold read_trace. apply fold_left_app. Qed.

Lemma read_hosts strict hosts : forall u b d,
  (d <= 1)%nat ->
  forallb is_host hosts = true ->
  fold_left (read_event strict) hosts (Some (u, b, d)) = Some (u, b, d).
Proof.
  induction hosts as [|e hosts IH]; intros u b d Hd H; simpl in *;
    [reflexivity|].
  apply andb_true_iff in H as [He Hh].
  destruct e; try discriminate. simpl.
  destruct (Nat.leb_spec d 1); [|lia]. apply IH; assumption.
Qed.

Lemma cstep_agrees c c' : cstep c c' -> agrees c -> agrees c'.
Proof.
  unfold agrees. intros H Ha.
  destruct H; simpl in *;
    rewrite ?read_trace_snoc, ?read_trace_app, ?Ha; simpl; auto.
  - rewrite length_app, Nat.add_1_r. reflexivity.
  - assert (Hlt : (i < length pool)%nat) by (eapply lookup_lt_Some; eauto).
    rewrite length_delete by eauto.
    destruct (Nat.leb_spec (depth r) 1); [|lia].
    destruct pool; [simpl in Hlt; lia|]. simpl. now rewrite Nat.sub_0_r.
  - destruct (Nat.leb_spec (depth r) 1); [reflexivity|lia].
  - rewrite H. destruct ok; simpl; [rewrite length_app, Nat.add_1_r|];
      reflexivity.
  - rewrite depth_restore, H. reflexivity.
  - destruct (Nat.leb_spec (depth r) 1); [reflexivity|lia].
  - destruct (Nat.leb_spec (depth r) 1); [reflexivity|lia].
  - destruct (Nat.leb_spec (depth r) 1); [reflexivity|lia].
  - destruct (Nat.leb_spec (depth r) 1); [|lia].
    rewrite fold_left_app, read_hosts by (assumption || lia). reflexivity.
Qed.

Lemma rtc_agrees c c' : rtc cstep c c' -> agrees c -> agrees c'.
Proof. induction 1; eauto using cstep_agrees. Qed.

End ProtocolFacts.

(** ** Synchronising a whole remote *)

Section SynchronizeRemoteFacts.

Import Index Registry Transaction Protocol.

Variable loadV1 : TiXmlElement -> Index.t -> result Index.t.
Variable lastVersion : Package -> bool -> Version.t -> option IVersion.

(** What one step of the loop over the packages adds to the queue. *)
Lemma synchronize_package_adds pkg opts s :
  exists added,
    m_nextQueue (synchronize_package lastVersion pkg opts s)
    = m_nextQueue s ++ added
    /\ Forall (respects_pin (m_registry s)) added.
Proof.
  unfold synchronize_package.
  set (regEntry := getEntry (m_registry s) pkg).
  assert (Hno : exists added : list Task,
             m_nextQueue s = m_nextQueue s ++ added
             /\ Forall (respects_pin (m_registry s)) added).
  { exists []. split; [now rewrite app_nil_r|constructor]. }
  destruct (negb (bool_decide (is_Some regEntry))
            && negb (Config.autoInstall opts)); [exact Hno|].
  destruct (lastVersion pkg (Config.bleedingEdge opts) (version_of regEntry))
    as [latest|]; [|exact Hno].
  destruct (Version.eqb (version_of regEntry) (v_name latest)) eqn:Heq.
  - destruct (allFilesExists s (v_files latest)); [exact Hno|].
    eexists [_]. split; [reflexivity|].
    constructor; [|constructor]. split; [reflexivity|]. intros _. simpl.
    unfold Version.eqb, Version.ltb in *.
    destruct (Version.compare (version_of regEntry) (v_name latest));
      congruence.
  - destruct (pinned_of regEntry) eqn:Hpin; [exact Hno|]. simpl.
    destruct (Version.ltb (v_name latest) (version_of regEntry));
      [exact Hno|].
    eexists [_]. split; [reflexivity|].
    constructor; [|constructor]. split; [reflexivity|].
    simpl. fold regEntry. congruence.
Qed.

Lemma registry_core s s' : core s' = core s -> m_registry s' = m_registry s.
Proof. unfold core. intros [= _ H _ _ _ _]. exact H. Qed.

Lemma synchronize_packages_add opts pkgs : forall s,
  let s' := fold_left (fun s pkg => synchronize_package lastVersion pkg opts s)
              pkgs s in
  exists added,
    m_nextQueue s' = m_nextQueue s ++ added
    /\ Forall (respects_pin (m_registry s)) added.
Proof.
  induction pkgs as [|pkg pkgs IH]; intros s; simpl.
  - exists []. split; [now rewrite app_nil_r|constructor].
  - destruct (synchronize_package_adds pkg opts s) as (a1 & H1 & Hp1).
    destruct (IH (synchronize_package lastVersion pkg opts s))
      as (a2 & H2 & Hp2).
    rewrite (registry_core _ _ (core_synchronize_package lastVersion pkg opts s))
      in Hp2.
    exists (a1 ++ a2). split.
    + rewrite H2, H1. now rewrite app_assoc.
    + apply Forall_app. split; assumption.
Qed.

Lemma nextQueue_obsolete ri entries : forall s,
  m_nextQueue
    (fold_left
       (fun s entry =>
          match Index.find ri (category entry) (package entry) with
          | Some _ => s
          | None => obsolete_insert entry s
          end) entries s)
  = m_nextQueue s.
Proof.
  induction entries as [|e entries IH]; intros s; simpl; [reflexivity|].
  rewrite IH. unfold obsolete_insert. repeat case_match; reflexivity.
Qed.

(** When the index of a remote arrives, every task [synchronize] queues
  is the installation of a version of a package of the index, made with
  the entry the registry has for the package; and when that entry is
  pinned the version is not above the installed one. *)
Lemma synchronize_remote_keeps_pinned remote cb outcome s :
  exists added,
    m_nextQueue (download_finished loadV1 lastVersion remote cb outcome s)
    = m_nextQueue s ++ added
    /\ Forall (respects_pin (m_registry s)) added.
Proof.
  assert (Hcb : forall ri s0, exists added,
             m_nextQueue (run_callback lastVersion cb ri s0)
             = m_nextQueue s0 ++ added
             /\ Forall (respects_pin (m_registry s0)) added).
  { intros ri s0. destruct cb as [|r opts]; simpl.
    - exists []. split; [now rewrite app_nil_r|constructor].
    - destruct (synchronize_packages_add opts (packages ri) s0)
        as (added & H & Hp).
      exists added. split; [|exact Hp].
      case_match; [rewrite nextQueue_obsolete|]; exact H. }
  assert (Hload : forall s0, exists added,
             m_nextQueue (load_then loadV1 lastVersion remote cb s0)
             = m_nextQueue s0 ++ added
             /\ Forall (respects_pin (m_registry s0)) added).
  { intros s0. unfold load_then, loadIndex.
    destruct (m_indexes s0 !! Config.name remote) as [ri|]; [apply Hcb|].
    destruct (Index.load loadV1 (fs s0) (Config.name remote)) as [ri|what].
    - apply (Hcb ri (set_indexes _ s0)).
    - exists []. split; [now rewrite app_nil_r|constructor]. }
  unfold download_finished. cbv zeta.
  match goal with
  | |- context [FS.exists_ (fs ?x) _] => set (s1 := x)
  end.
  assert (Hq1 : m_nextQueue s1 = m_nextQueue s)
    by (unfold s1; destruct outcome; reflexivity).
  assert (Hr1 : m_registry s1 = m_registry s)
    by (unfold s1; destruct outcome; reflexivity).
  assert (H2 : exists added,
             m_nextQueue (if FS.exists_ (fs s1) (pathFor (Config.name remote))
                          then load_then loadV1 lastVersion remote cb s1
                          else s1)
             = m_nextQueue s ++ added
             /\ Forall (respects_pin (m_registry s)) added).
  { rewrite <- Hq1, <- Hr1. case_match; [apply Hload|].
    exists []. split; [now rewrite app_nil_r|constructor]. }
  destruct outcome; exact H2.
Qed.

End SynchronizeRemoteFacts.

(** ** Cancellation *)

(** C1. Take a transaction that has not finished, whatever was queued or
    started so far, and cancel it.  The flag is set and the queue of host
    registrations is empty; and whatever happens afterwards, the flag
    stays set, the only events are tasks being rolled back, thread tasks
    being pushed or ending, and the transaction finishing: no task is
    committed, no file is registered in the host and the registry is never
    committed, so that its durable content is still the one the
    transaction started from.  The tasks that were running at the abort
    leave [m_runningTasks] in order and only by being rolled back, and
    none is left once the transaction has finished.  They are rolled back
    when the pool has nothing left to do: as the last thread task ends,
    or at the next [runTasks] when the pool is idle, [rollback] is called
    on each task still running, in order, its errors are added to the
    receipt, the registry is left as it is and the transaction
    finishes. *)
Theorem cancelled_transaction_writes_nothing
    (loadV1 : TiXmlElement -> Index.t -> result Index.t)
    (lastVersion : Index.Package -> bool -> Version.t -> option Index.IVersion)
    (m_promptObsolete : list Registry.Entry -> bool * list Registry.Entry)
    (doStart : Transaction.Task -> Registry.table -> Transaction.StartResult)
    (doCommit : Transaction.Task -> Registry.table -> Transaction.CommitResult)
    (doRollback : Transaction.Task -> list Transaction.ErrorInfo)
    (config : Config.t) (db : Registry.table) (files : FS.t) (time : Z)
    (before after : list Transaction.Action) :
  let step := Transaction.step loadV1 lastVersion m_promptObsolete doStart
                doCommit doRollback in
  let run := Transaction.run loadV1 lastVersion m_promptObsolete doStart
               doCommit doRollback in
  let s1 := run before (Transaction.create config db files time) in
  Transaction.finished s1 = false ->
  let s2 := step Transaction.AAbort s1 in
  let s3 := run after s2 in
  let rolled s s' :=
    Transaction.finished s' = true
    /\ Transaction.m_runningTasks s' = []
    /\ Transaction.m_registry s' = Transaction.m_registry s
    /\ exists pre,
         Transaction.m_receipt s'
         = Transaction.m_receipt s ++ pre
           ++ flat_map doRollback (Transaction.m_runningTasks s) in
  Transaction.m_isCancelled s2 = true
  /\ Transaction.m_regQueue s2 = []
  /\ Transaction.m_isCancelled s3 = true
  /\ Registry.durable (Transaction.m_registry s3) = db
  /\ (exists new,
        Transaction.trace s3 = Transaction.trace s1 ++ new
        /\ forallb Protocol.after_cancel new = true
        /\ Transaction.m_runningTasks s2
           = Protocol.rolled_back new ++ Transaction.m_runningTasks s3)
  /\ (Transaction.finished s3 = true -> Transaction.m_runningTasks s3 = [])
  /\ (Transaction.finished s3 = false ->
      forall job outcome,
        Transaction.m_threadPool s3 = [job] ->
        let s4 := step (Transaction.AThreadFinished 0 outcome) s3 in
        Transaction.trace s4
        = Transaction.trace s3
          ++ Transaction.EThreadDone job
             :: map Transaction.ETaskRollback (Transaction.m_runningTasks s3)
             ++ [Transaction.EFinish]
        /\ rolled s3 s4)
  /\ (Transaction.finished s3 = false ->
      Transaction.m_threadPool s3 = [] ->
      let s4 := step Transaction.ARunTasks s3 in
      Transaction.trace s4
      = Transaction.trace s3
        ++ map Transaction.ETaskRollback (Transaction.m_runningTasks s3)
        ++ [Transaction.EFinish]
      /\ rolled s3 s4).
Proof.
  intros step run s1 Hf1 s2 s3 rolled.
  set (s0 := Transaction.create config db files time) in *.
  destruct (sim_run loadV1 lastVersion m_promptObsolete doStart doCommit
              doRollback before s0 eq_refl eq_refl) as (H01 & Hd1).
  fold run in H01, Hd1. fold s1 in H01, Hd1.
  specialize (Hd1 Hf1).
  assert (Hdur1 : Registry.durable (Transaction.m_registry s1) = db).
  { apply (rtc_durable _ _ H01). exact Hf1. }
  assert (Hs2 : s2 = Transaction.onAbort s1).
  { unfold s2, step, Transaction.step. rewrite Hf1. reflexivity. }
  destruct (sim_run loadV1 lastVersion m_promptObsolete doStart doCommit
              doRollback after s2) as (H23 & _).
  { rewrite Hs2. exact Hf1. }
  { rewrite Hs2. exact Hd1. }
  fold run in H23. fold s3 in H23.
  destruct (rtc_cancelled _ _ H23) as (Hc3 & Hr3 & new & Ht3 & Hq3 & Hrun3).
  { rewrite Hs2. reflexivity. }
  simpl in Hc3, Hr3, Ht3, Hrun3.
  split; [rewrite Hs2; reflexivity|].
  split; [rewrite Hs2; reflexivity|].
  split; [exact Hc3|].
  split; [rewrite Hr3, Hs2; exact Hdur1|].
  split.
  { exists new. split; [|split; [exact Hq3|exact Hrun3]].
    rewrite Ht3, Hs2. reflexivity. }
  split.
  { intros Hf3. apply (rtc_finished_settled _ _ H23); [|exact Hf3].
    rewrite Hs2. exact Hf1. }
  split.
  - intros Hf3 job outcome Hpool s4.
    destruct (cancelled_last_thread loadV1 lastVersion m_promptObsolete
                doStart doCommit doRollback job outcome s3 Hc3 Hf3 Hpool)
      as (K1 & K2 & K3 & K4 & K5).
    fold step in K1, K2, K3, K4, K5. fold s4 in K1, K2, K3, K4, K5.
    split; [exact K2|]. unfold rolled. auto.
  - intros Hf3 Hpool s4.
    assert (Hi3 : Transaction.idle s3 = true)
      by (unfold Transaction.idle; rewrite Hpool; reflexivity).
    destruct (cancelled_runTasks m_promptObsolete doStart doCommit doRollback
                s3 Hc3 Hi3) as (K1 & K2 & K3 & K4 & K5).
    assert (Hs4 : s4 = snd (Transaction.runTasks m_promptObsolete doStart
                              doCommit doRollback s3)).
    { unfold s4, step, Transaction.step. rewrite Hf3. reflexivity. }
    rewrite Hs4. split; [exact K2|]. unfold rolled.
    split; [exact K1|]. split; [exact K5|]. split; [exact K4|].
    exists []. exact K3.
Qed.

(** ** Savepoints *)

(** C5 (amended). Whatever happens to a transaction, its events come in
    this order: a savepoint is opened for a queue, the registry is
    committed and the transaction finishes only when every started task
    has been committed or rolled back and the pool is idle; tasks are
    started inside the savepoint of their queue, where nothing else
    happens than starting tasks and pushing their work on the pool, and
    that savepoint is restored at once, before the tasks settle; tasks
    are committed or rolled back once the pool is idle. *)
Theorem savepoint_restored_after_start
    (loadV1 : TiXmlElement -> Index.t -> result Index.t)
    (lastVersion : Index.Package -> bool -> Version.t -> option Index.IVersion)
    (m_promptObsolete : list Registry.Entry -> bool * list Registry.Entry)
    (doStart : Transaction.Task -> Registry.table -> Transaction.StartResult)
    (doCommit : Transaction.Task -> Registry.table -> Transaction.CommitResult)
    (doRollback : Transaction.Task -> list Transaction.ErrorInfo)
    (config : Config.t) (db : Registry.table) (files : FS.t) (time : Z)
    (actions : list Transaction.Action) :
  Protocol.in_order false
    (Transaction.trace
       (Transaction.run loadV1 lastVersion m_promptObsolete doStart doCommit
          doRollback actions (Transaction.create config db files time)))
  = true.
Proof.
  set (s0 := Transaction.create config db files time).
  destruct (sim_run loadV1 lastVersion m_promptObsolete doStart doCommit
              doRollback actions s0 eq_refl eq_refl) as (H & _).
  pose proof (rtc_agrees _ _ H eq_refl) as Ha.
  unfold Protocol.agrees in Ha. simpl in Ha.
  unfold Protocol.in_order. rewrite Ha. reflexivity.
Qed.

(** C5, as stated, fails: an install task with a file to download is
    queued and the tasks are run.  The savepoint of the queue is restored
    while the task is running and its download is in the pool. *)
Lemma savepoint_restored_while_running :
  let run := Transaction.run Examples.loadV1 Examples.lastVersion
               Examples.promptObsolete Examples.doStart Examples.doCommit
               Examples.doRollback in
  let task := Transaction.InstallTask
                (Transaction.mkRef Examples.pkg_new Examples.script_1_1)
                false (Some Examples.entry_free) None in
  let s := run [Transaction.AInstall
                  (Transaction.mkRef Examples.pkg_new Examples.script_1_1)
                  false None;
                Transaction.ARunTasks]
             (Transaction.create Examples.config
                (Examples.db Examples.entry_free) Examples.disk Examples.noon) in
  Transaction.trace s
  = [Transaction.ESavepoint; Transaction.ESavepoint;
     Transaction.EPush (Transaction.TaskJob task);
     Transaction.EStart task true; Transaction.ERestore]
  /\ Transaction.m_runningTasks s = [task]
  /\ Transaction.m_threadPool s = [Transaction.TaskJob task]
  /\ Protocol.in_order true (Transaction.trace s) = false.
Proof. vm_compute. repeat split; reflexivity. Qed.

Lemma cancelled_transaction_writes_nothing_witness :
  let step := Transaction.step Examples.loadV1 Examples.lastVersion
                Examples.promptObsolete Examples.doStart Examples.doCommit
                Examples.doRollback in
  let run := Transaction.run Examples.loadV1 Examples.lastVersion
               Examples.promptObsolete Examples.doStart Examples.doCommit
               Examples.doRollback in
  let ver := Transaction.mkRef Examples.pkg_new Examples.script_1_1 in
  let task := Transaction.InstallTask ver false (Some Examples.entry_free)
                None in
  let before := [Transaction.AInstall ver false None;
                 Transaction.ARunTasks] in
  let s1 := run before
              (Transaction.create Examples.config
                 (Examples.db Examples.entry_free) Examples.disk Examples.noon) in
  let s3 := run [] (step Transaction.AAbort s1) in
  let s4 := step (Transaction.AThreadFinished 0 Transaction.Aborted) s3 in
  Transaction.finished s1 = false
  /\ Transaction.m_runningTasks s3 = [task]
  /\ Registry.durable (Transaction.m_registry s3)
     = Examples.db Examples.entry_free
  /\ Transaction.trace s4
     = Transaction.trace s3
       ++ [Transaction.EThreadDone (Transaction.TaskJob task);
           Transaction.ETaskRollback task; Transaction.EFinish]
  /\ Transaction.finished s4 = true
  /\ Transaction.m_runningTasks s4 = []
  /\ Transaction.m_registry s4 = Transaction.m_registry s3.
Proof.
  intros step run ver task before s1 s3 s4.
  assert (Hf : Transaction.finished s1 = false) by (vm_compute; reflexivity).
  assert (Hf3 : Transaction.finished s3 = false) by (vm_compute; reflexivity).
  assert (Hrun3 : Transaction.m_runningTasks s3 = [task])
    by (vm_compute; reflexivity).
  assert (Hpool3 : Transaction.m_threadPool s3 = [Transaction.TaskJob task])
    by (vm_compute; reflexivity).
  split; [exact Hf|]. split; [exact Hrun3|].
  pose proof (cancelled_transaction_writes_nothing Examples.loadV1
                Examples.lastVersion Examples.promptObsolete Examples.doStart
                Examples.doCommit Examples.doRollback Examples.config
                (Examples.db Examples.entry_free) Examples.disk Examples.noon
                before [] Hf) as (_ & _ & _ & Hd & _ & _ & Hlast & _).
  split; [exact Hd|].
  destruct (Hlast Hf3 (Transaction.TaskJob task) Transaction.Aborted Hpool3)
    as (Ht & Hfin & Hnone & Hreg & _).
  split; [|split; [exact Hfin|split; [exact Hnone|exact Hreg]]].
  change (Transaction.m_runningTasks s3 = [task]) in Hrun3.
  etrans; [exact Ht|]. vm_compute. reflexivity.
Defined.

(** A transaction that is left to run does commit: the same installation,
    its download done, ends in the durable registry. *)
Example uncancelled_transaction_commits :
  let run := Transaction.run Examples.loadV1 Examples.lastVersion
               Examples.promptObsolete Examples.doStart Examples.doCommit
               Examples.doRollback in
  let ver := Transaction.mkRef Examples.pkg_new Examples.script_1_1 in
  let task := Transaction.InstallTask ver false (Some Examples.entry_free) None in
  let s := run [Transaction.AInstall ver false None;
                Transaction.ARunTasks;
                Transaction.AThreadFinished 0
                  (Transaction.Success (FS.mkFile Examples.noon
                                          (DocError "Error document empty.")))]
             (Transaction.create Examples.config
                (Examples.db Examples.entry_free) Examples.disk Examples.noon) in
  Transaction.trace s
  = [Transaction.ESavepoint; Transaction.ESavepoint;
     Transaction.EPush (Transaction.TaskJob task);
     Transaction.EStart task true; Transaction.ERestore;
     Transaction.EThreadDone (Transaction.TaskJob task);
     Transaction.ETaskCommit task; Transaction.ERegistryCommit;
     Transaction.EFinish]
  /\ fst <$> Registry.durable (Transaction.m_registry s)
             !! Registry.key_of Examples.entry_free
     = Some (Registry.mkEntry "repo" "Cat" "a.lua" Examples.v1_1 false).
Proof. vm_compute. split; reflexivity. Qed.

Lemma synchronize_keeps_pinned_witness :
  let s := Transaction.create Examples.config
             (Examples.db Examples.entry_pinned) Examples.disk Examples.noon in
  let s' := Transaction.synchronize_package Examples.lastVersion
              Examples.pkg_new Examples.opts s in
  Examples.lastVersion Examples.pkg_new false Examples.v1_0
  = Some Examples.script_1_1
  /\ Version.ltb Examples.v1_0 Examples.v1_1 = true
  /\ (s' = s
      \/ exists latest,
           s' = Transaction.enqueue
                  (Transaction.InstallTask
                     (Transaction.mkRef Examples.pkg_new latest) false
                     (Some Examples.entry_pinned) None) s
           /\ Version.eqb Examples.v1_0 (Index.v_name latest) = true
           /\ Version.ltb Examples.v1_0 (Index.v_name latest) = false).
Proof.
  intros s s'. split; [reflexivity|]. split; [reflexivity|].
  apply (synchronize_keeps_pinned Examples.lastVersion Examples.pkg_new
           Examples.opts s Examples.entry_pinned).
  - vm_compute. reflexivity.
  - reflexivity.
Defined.

(** C3. When the registry records a version for a package and the latest
    version the index offers is that same version, [synchronize] queues
    nothing if every file of the version exists, and queues the
    installation of that version if one of its files is missing. *)
Theorem synchronize_same_version
    (lastVersion : Index.Package -> bool -> Version.t -> option Index.IVersion)
    (pkg : Index.Package) (opts : Config.InstallOpts) (s : Transaction.t)
    (e : Registry.Entry) (latest : Index.IVersion) :
  Registry.getEntry (Transaction.m_registry s) pkg = Some e ->
  lastVersion pkg (Config.bleedingEdge opts) (Registry.version e) = Some latest ->
  Version.eqb (Registry.version e) (Index.v_name latest) = true ->
  let s' := Transaction.synchronize_package lastVersion pkg opts s in
  let reinstall :=
    Transaction.InstallTask (Transaction.mkRef pkg latest) false (Some e) None in
  ((forall f, In f (Index.v_files latest) ->
              FS.exists_ (Transaction.fs s) f = true) ->
   s' = s)
  /\ ((exists f, In f (Index.v_files latest)
                 /\ FS.exists_ (Transaction.fs s) f = false) ->
      s' = Transaction.enqueue reinstall s
      /\ Transaction.m_nextQueue s' = Transaction.m_nextQueue s ++ [reinstall]).
Proof.
  intros He Hlast Heq s' reinstall.
  unfold s', Transaction.synchronize_package. rewrite He.
  cbn [Registry.version_of Registry.pinned_of]. rewrite Hlast, Heq.
  rewrite bool_decide_eq_true_2 by eauto. cbn [negb andb].
  split.
  - intros Hall.
    replace (Transaction.allFilesExists s (Index.v_files latest)) with true;
      [reflexivity|].
    symmetry. unfold Transaction.allFilesExists.
    apply forallb_forall. exact Hall.
  - intros Hmiss. apply allFilesExists_false in Hmiss. rewrite Hmiss.
    split; reflexivity.
Qed.

Lemma synchronize_same_version_witness :
  let reinstall :=
    Transaction.InstallTask
      (Transaction.mkRef Examples.pkg_old Examples.script_1_0) false
      (Some Examples.entry_pinned) None in
  let present := Transaction.create Examples.config
                   (Examples.db Examples.entry_pinned) Examples.disk
                   Examples.noon in
  let missing := Transaction.create Examples.config
                   (Examples.db Examples.entry_pinned)
                   Examples.disk_without_script Examples.noon in
  Transaction.synchronize_package Examples.lastVersion Examples.pkg_old
    Examples.opts present = present
  /\ Transaction.m_nextQueue
       (Transaction.synchronize_package Examples.lastVersion Examples.pkg_old
          Examples.opts missing)
     = [reinstall].
Proof.
  intros reinstall present missing. split.
  - apply (synchronize_same_version Examples.lastVersion Examples.pkg_old
             Examples.opts present Examples.entry_pinned Examples.script_1_0).
    + vm_compute. reflexivity.
    + reflexivity.
    + reflexivity.
    + intros f [<-|[]]. vm_compute. reflexivity.
  - apply (synchronize_same_version Examples.lastVersion Examples.pkg_old
             Examples.opts missing Examples.entry_pinned Examples.script_1_0).
    + vm_compute. reflexivity.
    + reflexivity.
    + reflexivity.
    + exists "Scripts/repo/Cat/a.lua". split; [left; reflexivity|].
      vm_compute. reflexivity.
Defined.

(** ** Fetching an index *)

Section FetchFacts.

Import Index Registry Transaction Protocol.

Variable loadV1 : TiXmlElement -> Index.t -> result Index.t.
Variable lastVersion : Package -> bool -> Version.t -> option IVersion.

Lemma pool_load_then remote cb s :
  m_threadPool (load_then loadV1 lastVersion remote cb s) = m_threadPool s.
Proof.
  pose proof (core_load_then loadV1 lastVersion remote cb s) as H.
  unfold core in H. injection H. auto.
Qed.

End FetchFacts.

(** C4 (amended). [fetchIndex] called without [stale] reuses the index on
    disk when it was modified less than [STALE_THRESHOLD], seven days of
    seconds, before now: the index is loaded and nothing is pushed on the
    pool.  When the file is older or missing (its time then reads 0), or
    when [stale] is set, a download is pushed.  [synchronize(remote)] sets
    [stale]: for a remote it has not seen yet it pushes a download,
    however recent the index on disk. *)
Theorem index_reused_within_threshold
    (loadV1 : TiXmlElement -> Index.t -> result Index.t)
    (lastVersion : Index.Package -> bool -> Version.t -> option Index.IVersion)
    (remote : Config.Remote) (cb : Transaction.IndexCallback)
    (s : Transaction.t) :
  let fetchIndex := Transaction.fetchIndex loadV1 lastVersion in
  let mtime := FS.mtime (Transaction.fs s) (Index.pathFor (Config.name remote)) 0 in
  let download job := Transaction.pool_push job s in
  Transaction.STALE_THRESHOLD = 7 * 24 * 3600
  /\ (Transaction.now s - Transaction.STALE_THRESHOLD < mtime ->
      fetchIndex remote false cb s
      = Transaction.load_then loadV1 lastVersion remote cb s
      /\ Transaction.m_threadPool (fetchIndex remote false cb s)
         = Transaction.m_threadPool s)
  /\ (mtime <= Transaction.now s - Transaction.STALE_THRESHOLD ->
      fetchIndex remote false cb s
      = download (Transaction.FileDownload remote cb))
  /\ fetchIndex remote true cb s = download (Transaction.FileDownload remote cb)
  /\ (forall forceAutoInstall,
        Config.name remote ∉ Transaction.m_syncedRemotes s ->
        exists opts,
          Transaction.m_threadPool
            (Transaction.synchronize loadV1 lastVersion remote
               forceAutoInstall s)
          = Transaction.m_threadPool s
            ++ [Transaction.FileDownload remote
                  (Transaction.SyncPackages remote opts)]).
Proof.
  intros fetchIndex mtime download.
  split; [reflexivity|].
  split; [|split; [|split]].
  - intros Hfresh. unfold fetchIndex, Transaction.fetchIndex. cbv zeta.
    fold mtime. apply Z.ltb_lt in Hfresh. rewrite Hfresh. simpl.
    split; [reflexivity|apply pool_load_then].
  - intros Hold. unfold fetchIndex, Transaction.fetchIndex. cbv zeta.
    fold mtime. apply Z.ltb_ge in Hold. rewrite Hold. reflexivity.
  - reflexivity.
  - intros force Hnew. unfold Transaction.synchronize.
    rewrite bool_decide_eq_false_2 by exact Hnew.
    eexists. reflexivity.
Qed.

Lemma index_reused_within_threshold_witness :
  let s := Transaction.create Examples.config
             (Examples.db Examples.entry_free) Examples.disk Examples.noon in
  let fetchIndex := Transaction.fetchIndex Examples.loadV1 Examples.lastVersion in
  Transaction.m_threadPool
    (fetchIndex Examples.repo false Transaction.NoCallback s) = []
  /\ exists opts,
       Transaction.m_threadPool
         (Transaction.synchronize Examples.loadV1 Examples.lastVersion
            Examples.repo None s)
       = [Transaction.FileDownload Examples.repo
            (Transaction.SyncPackages Examples.repo opts)].
Proof.
  intros s fetchIndex.
  pose proof (index_reused_within_threshold Examples.loadV1
                Examples.lastVersion Examples.repo Transaction.NoCallback s)
    as (_ & Hfresh & _ & _ & Hsync).
  split.
  - apply Hfresh. vm_compute. reflexivity.
  - apply (Hsync None). apply not_elem_of_empty.
Defined.

(** C4, as stated, fails: the index of the remote was written an hour
    ago, no refresh is asked for, and [synchronize] downloads it again. *)
Lemma synchronize_downloads_fresh_index :
  let s := Transaction.create Examples.config
             (Examples.db Examples.entry_free) Examples.disk Examples.noon in
  let s' := Transaction.synchronize Examples.loadV1 Examples.lastVersion
              Examples.repo None s in
  FS.mtime (Transaction.fs s) (Index.pathFor "repo") 0
  = Transaction.now s - 3600
  /\ Transaction.now s - Transaction.STALE_THRESHOLD
     < FS.mtime (Transaction.fs s) (Index.pathFor "repo") 0
  /\ Transaction.m_threadPool s = []
  /\ Transaction.m_threadPool s'
     = [Transaction.FileDownload Examples.repo
          (Transaction.SyncPackages Examples.repo Examples.opts)].
Proof. vm_compute. repeat split; reflexivity. Qed.

(** ** Loading an index *)

(** C9 (amended). [Index::load] on a document whose root is not named
    "index" fails with "invalid index".  Otherwise the [version] attribute
    is read as a number, a missing attribute reading 0: when the number is
    0, as for a missing attribute, for "0" or for text without digits, the
    load fails with "index version not found"; when it is neither 0 nor 1
    the load fails with "index version is unsupported"; when it is 1, and
    only then, the loader of version 1 is run and its result returned. *)
Theorem index_load_version_dispatch
    (loadV1 : TiXmlElement -> Index.t -> result Index.t)
    (name : string) (root : TiXmlElement) :
  let version := Index.Attribute_int root "version" 0 in
  let loaded := Index.load_doc loadV1 name (DocRoot root) in
  (Value root <> "index" -> loaded = Err "invalid index")
  /\ (Value root = "index" ->
      Index.attribute (Attributes root) "version" = None ->
      loaded = Err "index version not found")
  /\ (Value root = "index" -> version = 0 ->
      loaded = Err "index version not found")
  /\ (Value root = "index" -> version <> 0 -> version <> 1 ->
      loaded = Err "index version is unsupported")
  /\ (Value root = "index" -> version = 1 ->
      loaded = loadV1 root (Index.mkIndex name []))
  /\ (forall ri, loaded = Ok ri ->
                 Value root = "index" /\ version = 1
                 /\ loadV1 root (Index.mkIndex name []) = Ok ri).
Proof.
  intros version loaded.
  assert (Hnone : Index.attribute (Attributes root) "version" = None ->
                  version = 0).
  { intros H. unfold version, Index.Attribute_int. rewrite H. reflexivity. }
  unfold loaded, Index.load_doc. fold version.
  destruct (String.eqb_spec (Value root) "index") as [Hroot|Hroot];
    cbn [negb].
  - destruct (Z.eqb_spec version 0) as [H0|H0];
      [|destruct (Z.eqb_spec version 1) as [H1|H1]].
    + split; [congruence|]. split; [reflexivity|]. split; [reflexivity|].
      split; [congruence|]. split; [congruence|]. intros ri H. discriminate H.
    + split; [congruence|]. split; [intros _ H; apply Hnone in H; congruence|].
      split; [congruence|]. split; [congruence|]. split; [reflexivity|].
      intros ri H. auto.
    + split; [congruence|]. split; [intros _ H; apply Hnone in H; congruence|].
      split; [congruence|]. split; [reflexivity|]. split; [congruence|].
      intros ri H. discriminate H.
  - split; [reflexivity|]. split; [congruence|]. split; [congruence|].
    split; [congruence|]. split; [congruence|]. intros ri H. discriminate H.
Qed.

Lemma index_load_version_dispatch_witness :
  Index.load_doc Examples.loadV1 "repo"
    (DocRoot (Element "repository" [("version", "1")] []))
  = Err "invalid index"
  /\ Index.load_doc Examples.loadV1 "repo" (DocRoot (Element "index" [] []))
     = Err "index version not found"
  /\ Index.load_doc Examples.loadV1 "repo"
       (DocRoot (Element "index" [("version", "2")] []))
     = Err "index version is unsupported"
  /\ Index.load_doc Examples.loadV1 "repo"
       (DocRoot (Element "index" [("version", "18446744073709551617")] []))
     = Err "index version is unsupported"
  /\ Index.load_doc Examples.loadV1 "repo"
       (DocRoot (Element "index" [("version", "1")] []))
     = Ok (Index.mkIndex "repo" []).
Proof.
  split; [|split; [|split; [|split]]].
  - apply (index_load_version_dispatch Examples.loadV1 "repo"
             (Element "repository" [("version", "1")] [])).
    simpl. intros H. discriminate H.
  - apply (index_load_version_dispatch Examples.loadV1 "repo"
             (Element "index" [] [])); reflexivity.
  - apply (index_load_version_dispatch Examples.loadV1 "repo"
             (Element "index" [("version", "2")] []));
      [reflexivity| |]; vm_compute; intros H; discriminate H.
  - apply (index_load_version_dispatch Examples.loadV1 "repo"
             (Element "index" [("version", "18446744073709551617")] []));
      [reflexivity| |]; vm_compute; intros H; discriminate H.
  - exact (proj1 (proj2 (proj2 (proj2 (proj2
             (index_load_version_dispatch Examples.loadV1 "repo"
                (Element "index" [("version", "1")] []))))))
             eq_refl eq_refl).
Defined.

(** C9, as stated, fails: a root "index" whose version attribute is "0",
    or is not a number, has a version attribute with a value other than 1,
    and loading it fails with "index version not found", not with "index
    version is unsupported". *)
Lemma index_load_version_zero :
  let zero := Element "index" [("version", "0")] [] in
  let text := Element "index" [("version", "latest")] [] in
  Index.attribute (Attributes zero) "version" = Some "0"
  /\ Index.load_doc Examples.loadV1 "repo" (DocRoot zero)
     = Err "index version not found"
  /\ Index.attribute (Attributes text) "version" = Some "latest"
  /\ Index.load_doc Examples.loadV1 "repo" (DocRoot text)
     = Err "index version not found".
Proof. vm_compute. repeat split; reflexivity. Qed.

(** ** Importing an archive *)

Section ImportFacts.

Import Index Registry.

Variable loadV1 : TiXmlElement -> Index.t -> result Index.t.
Variable fromString : string -> Config.Remote.
Variable findVersion : Package -> string -> result (option IVersion).

Local Abbreviation import_line :=
  (Archive.import_line loadV1 fromString findVersion).

Lemma import_line_short st line :
  (String.length line <= 5)%nat -> import_line st line = st.
Proof.
  intros H. unfold Archive.import_line.
  apply Nat.leb_le in H. rewrite H. reflexivity.
Qed.

Lemma import_line_long st line :
  (5 < String.length line)%nat ->
  import_line st line
  = let data := Archive.substr_from 5 line in
    let '(what, st) :=
      match String.get 0 line with
      | Some "R"%char => Archive.importRemote loadV1 fromString data st
      | Some "P"%char => Archive.importPackage findVersion data st
      | _ => (Some ("Unknown token '" +:+ Archive.substr_to 4 line
                    +:+ "' (skipping)"), st)
      end in
    match what with
    | Some what => Archive.addError what st
    | None => st
    end.
Proof.
  intros H. unfold Archive.import_line.
  apply Nat.leb_gt in H. rewrite H. reflexivity.
Qed.

Lemma import_line_unknown st line :
  (5 < String.length line)%nat ->
  String.get 0 line <> Some "R"%char ->
  String.get 0 line <> Some "P"%char ->
  import_line st line
  = Archive.addError
      ("Unknown token '" +:+ Archive.substr_to 4 line +:+ "' (skipping)") st.
Proof.
  intros Hlen HR HP. rewrite import_line_long by exact Hlen. cbv zeta.
  destruct (String.get 0 line) as [c|]; [|reflexivity].
  destruct c as [[] [] [] [] [] [] [] []]; try reflexivity;
    exfalso; auto.
Qed.

End ImportFacts.

(** C10. While the table of contents is replayed, a line of five
    characters or fewer changes nothing: it is skipped and no error is
    recorded.  A longer line is a REPO line when its first character is R
    and a PACK line when it is P, whatever its next four characters are,
    and what follows the fifth character is its data.  A longer line with
    any other first character records the error "Unknown token", with the
    first four characters of the line, in the receipt and changes nothing
    else.  In every case the import goes on with the next line. *)
Theorem manifest_line_dispatch
    (loadV1 : TiXmlElement -> Index.t -> result Index.t)
    (fromString : string -> Config.Remote)
    (findVersion : Index.Package -> string -> result (option Index.IVersion))
    (st : Archive.ImportArchive) (line : string) :
  let import_line := Archive.import_line loadV1 fromString findVersion in
  let import_lines := Archive.import_lines loadV1 fromString findVersion in
  let data := Archive.substr_from 5 line in
  let caught (r : Archive.thrown * Archive.ImportArchive) :=
    match r with
    | (Some what, st') => Archive.addError what st'
    | (None, st') => st'
    end in
  ((String.length line <= 5)%nat -> import_line st line = st)
  /\ ((5 < String.length line)%nat -> String.get 0 line = Some "R"%char ->
      import_line st line
      = caught (Archive.importRemote loadV1 fromString data st))
  /\ ((5 < String.length line)%nat -> String.get 0 line = Some "P"%char ->
      import_line st line = caught (Archive.importPackage findVersion data st))
  /\ ((5 < String.length line)%nat ->
      String.get 0 line <> Some "R"%char ->
      String.get 0 line <> Some "P"%char ->
      let st' := import_line st line in
      Transaction.m_receipt (Archive.m_tx st')
      = Transaction.m_receipt (Archive.m_tx st)
        ++ [("Unknown token '" +:+ Archive.substr_to 4 line +:+ "' (skipping)",
             Archive.path st)]
      /\ Transaction.m_nextQueue (Archive.m_tx st')
         = Transaction.m_nextQueue (Archive.m_tx st)
      /\ Archive.m_lastIndex st' = Archive.m_lastIndex st)
  /\ (forall rest,
        import_lines (line :: rest) st = import_lines rest (import_line st line)).
Proof.
  intros import_line import_lines data caught.
  split; [apply import_line_short|].
  split; [|split; [|split]].
  - intros Hlen HR. unfold import_line.
    rewrite import_line_long by exact Hlen. cbv zeta. rewrite HR.
    fold data. destruct (Archive.importRemote loadV1 fromString data st)
      as [[what|] st']; reflexivity.
  - intros Hlen HP. unfold import_line.
    rewrite import_line_long by exact Hlen. cbv zeta. rewrite HP.
    fold data. destruct (Archive.importPackage findVersion data st)
      as [[what|] st']; reflexivity.
  - intros Hlen HR HP. cbv zeta. unfold import_line.
    rewrite import_line_unknown by assumption.
    repeat split.
  - intros rest. reflexivity.
Qed.

Lemma manifest_line_dispatch_witness :
  let st := Archive.mkImport "backup.zip" ∅
              (Transaction.create Examples.config
                 (Examples.db Examples.entry_free) Examples.disk Examples.noon)
              None in
  let import_line :=
    Archive.import_line Examples.loadV1 Examples.fromString
      Examples.findVersion in
  import_line st "REPO" = st
  /\ Transaction.m_receipt (Archive.m_tx (import_line st "hello world"))
     = [("Unknown token 'hell' (skipping)", "backup.zip")]
  /\ import_line st "Prefix x y"
     = match Archive.importPackage Examples.findVersion "x x y" st with
       | (Some what, st') => Archive.addError what st'
       | (None, st') => st'
       end.
Proof.
  intros st import_line.
  pose proof (manifest_line_dispatch Examples.loadV1 Examples.fromString
                Examples.findVersion st "REPO") as (Hshort & _).
  pose proof (manifest_line_dispatch Examples.loadV1 Examples.fromString
                Examples.findVersion st "hello world")
    as (_ & _ & _ & Hunknown & _).
  pose proof (manifest_line_dispatch Examples.loadV1 Examples.fromString
                Examples.findVersion st "Prefix x y")
    as (_ & _ & Hpack & _).
  split; [|split].
  - apply Hshort. vm_compute. lia.
  - apply Hunknown.
    + vm_compute. lia.
    + intros H. discriminate H.
    + intros H. discriminate H.
  - apply Hpack; [vm_compute; lia|reflexivity].
Defined.




(** * Further properties of the transaction *)

Section TransactionFrames.

Import Index Registry Transaction Protocol Ledger.

Variable loadV1 : TiXmlElement -> Index.t -> result Index.t.
Variable lastVersion : Package -> bool -> Version.t -> option IVersion.

Lemma same_but_queue_refl s : same_but_queue s s.
Proof. repeat split. Qed.

Lemma same_but_queue_trans s1 s2 s3 :
  same_but_queue s1 s2 -> same_but_queue s2 s3 -> same_but_queue s1 s3.
Proof.
  unfold same_but_queue. intros H1 H2.
  repeat match goal with H : _ /\ _ |- _ => destruct H end.
  repeat split; congruence.
Qed.

Lemma synchronize_package_frame pkg opts s :
  same_but_queue s (synchronize_package lastVersion pkg opts s).
Proof.
  unfold synchronize_package. repeat case_match; repeat split.
Qed.

Lemma synchronize_packages_frame opts pkgs : forall s,
  same_but_queue s
    (fold_left (fun s pkg => synchronize_package lastVersion pkg opts s) pkgs s).
Proof.
  induction pkgs as [|pkg pkgs IH]; intros s; simpl.
  - apply same_but_queue_refl.
  - eapply same_but_queue_trans; [apply synchronize_package_frame|apply IH].
Qed.

End TransactionFrames.



Section TransactionFacts.

Import Index Registry Transaction Protocol Ledger.

Variable loadV1 : TiXmlElement -> Index.t -> result Index.t.
Variable lastVersion : Package -> bool -> Version.t -> option IVersion.

Lemma uninstall_entries entries : forall s,
  let s' := fold_left (fun s entry => uninstall entry s) entries s in
  m_nextQueue s' = m_nextQueue s ++ map UninstallTask entries
  /\ same_but_queue s s'.
Proof.
  induction entries as [|e entries IH]; intros s; simpl.
  - split; [now rewrite app_nil_r|apply same_but_queue_refl].
  - destruct (IH (uninstall e s)) as (Hq & Hsame). split.
    + rewrite Hq. simpl. now rewrite <- app_assoc.
    + eapply same_but_queue_trans; [|exact Hsame]. repeat split.
Qed.

(** What the loop over the installed entries adds to the obsolete set. *)
Lemma obsolete_fold ri entries : forall s,
  let s' := fold_left
              (fun s entry =>
                 match Index.find ri (category entry) (package entry) with
                 | Some _ => s
                 | None => obsolete_insert entry s
                 end) entries s in
  (forall e, e ∈ m_obsolete s' <->
             e ∈ m_obsolete s
             \/ (e ∈ entries
                 /\ Index.find ri (category e) (package e) = None))
  /\ (NoDup (m_obsolete s) -> NoDup (m_obsolete s'))
  /\ m_nextQueue s' = m_nextQueue s /\ m_receipt s' = m_receipt s
  /\ m_indexes s' = m_indexes s /\ m_registry s' = m_registry s
  /\ m_config s' = m_config s /\ fs s' = fs s
  /\ m_taskQueues s' = m_taskQueues s.
Proof.
  induction entries as [|x entries IH]; intros s; simpl.
  - split; [|repeat split; auto]. intros e. split; [auto|].
    intros [H|[H _]]; [exact H|]. inversion H.
  - match goal with
    | |- context [fold_left _ entries ?x0] => set (s1 := x0)
    end.
    destruct (IH s1) as (Hmem & Hnd & Hq & Hr & Hi & Hreg & Hc & Hfs & Htq).
    assert (H1 : (forall e, e ∈ m_obsolete s1 <->
                     e ∈ m_obsolete s
                     \/ (e = x /\ Index.find ri (category e) (package e) = None))
                 /\ (NoDup (m_obsolete s) -> NoDup (m_obsolete s1))
                 /\ m_nextQueue s1 = m_nextQueue s /\ m_receipt s1 = m_receipt s
                 /\ m_indexes s1 = m_indexes s /\ m_registry s1 = m_registry s
                 /\ m_config s1 = m_config s /\ fs s1 = fs s
                 /\ m_taskQueues s1 = m_taskQueues s).
    { unfold s1. destruct (Index.find ri (category x) (package x)) eqn:Hfind.
      - split; [|repeat split; auto]. intros e. split; [auto|].
        intros [H|[-> H]]; [exact H|congruence].
      - unfold obsolete_insert. case_bool_decide as Hin.
        + split; [|repeat split; auto]. intros e. split; [auto|].
          intros [H|[-> _]]; assumption.
        + split; [|split; [|repeat split; auto]].
          * intros e. simpl. rewrite elem_of_app, list_elem_of_singleton.
            split; [intros [H| ->]; auto|].
            intros [H|[-> _]]; auto.
          * intros Hn. simpl. apply NoDup_app. split; [exact Hn|].
            split; [|apply NoDup_singleton].
            intros y Hy Hy'. apply list_elem_of_singleton in Hy'. subst y.
            contradiction. }
    destruct H1 as (Hmem1 & Hnd1 & Hq1 & Hr1 & Hi1 & Hreg1 & Hc1 & Hfs1 & Htq1).
    split; [|repeat split; try congruence; auto].
    intros e. rewrite Hmem, Hmem1, elem_of_cons. tauto.
Qed.


End TransactionFacts.

(** X2. [uninstall(remote)] inhibits the remote and forgets that it was
    synchronised, removes its index from the cache and nothing else from
    the disk (the removal being taken to succeed), and inserts in
    [m_nextQueue] one uninstall task for each entry the registry has for
    the remote, in the order the registry lists them; the registry itself
    is not touched. *)
Theorem uninstall_remote_effect (remote : Config.Remote) (s : Transaction.t) :
  let s' := Transaction.uninstall_remote remote s in
  let name := Config.name remote in
  Transaction.m_nextQueue s'
  = Transaction.m_nextQueue s
    ++ map Transaction.UninstallTask
         (Registry.getEntries (Transaction.m_registry s) name)
  /\ Transaction.m_registry s' = Transaction.m_registry s
  /\ (name ∈ Transaction.m_inhibited s')
  /\ (name ∉ Transaction.m_syncedRemotes s')
  /\ FS.exists_ (Transaction.fs s') (Index.pathFor name) = false
  /\ forall path, path <> Index.pathFor name ->
                  Transaction.fs s' !! path = Transaction.fs s !! path.
Proof.
  intros s' name. unfold s', Transaction.uninstall_remote. cbv zeta.
  match goal with
  | |- context [fold_left _ ?l ?x0] =>
      destruct (uninstall_entries l x0) as (Hq & Hsame); set (s1 := x0) in *
  end.
  destruct Hsame as (_ & _ & Hreg & _ & Hsyn & _ & _ & Hinh & _ & _ & _ & _
                     & Hfs & _).
  assert (Hreg1 : Transaction.m_registry s1 = Transaction.m_registry s)
    by (unfold s1; case_match; reflexivity).
  assert (Hq1 : Transaction.m_nextQueue s1 = Transaction.m_nextQueue s)
    by (unfold s1; case_match; reflexivity).
  assert (Hin1 : Transaction.m_inhibited s1
                 = {[name]} ∪ Transaction.m_inhibited s)
    by (unfold s1; case_match; reflexivity).
  assert (Hs1 : Transaction.m_syncedRemotes s1
                = Transaction.m_syncedRemotes s ∖ {[name]})
    by (unfold s1; case_match; reflexivity).
  assert (Hfs1 : FS.exists_ (Transaction.fs s1) (Index.pathFor name) = false
                 /\ forall path, path <> Index.pathFor name ->
                      Transaction.fs s1 !! path = Transaction.fs s !! path).
  { unfold s1, name.
    destruct (FS.exists_ (Transaction.fs (Transaction.inhibit remote s))
                (Index.pathFor (Config.name remote))) eqn:Hex.
    - cbn [Transaction.fs Transaction.set_fs]. split.
      + unfold FS.exists_, FS.t. rewrite lookup_delete_eq. reflexivity.
      + intros path Hne. unfold FS.t.
        rewrite lookup_delete_ne by congruence. reflexivity.
    - split; [exact Hex|reflexivity]. }
  split; [rewrite Hq; fold name; congruence|].
  split; [congruence|].
  split; [rewrite Hinh, Hin1; apply elem_of_union_l, elem_of_singleton;
          reflexivity|].
  split.
  { rewrite Hsyn, Hs1. intros Hin. apply elem_of_difference in Hin as [_ Hn].
    apply Hn, elem_of_singleton. reflexivity. }
  rewrite Hfs. exact Hfs1.
Qed.

(** X3. [loadIndex] reads the index of a remote from the disk once.  When
    the load succeeds the index is kept, and it is what every later call
    for a remote of that name returns, without looking at the disk again
    and without touching the transaction.  When the load fails, nothing
    is kept, so that a later call tries again, and the receipt gains one
    error, "Couldn't load repository: " followed by the reason, under the
    name of the remote. *)
Theorem loadIndex_caches
    (loadV1 : TiXmlElement -> Index.t -> result Index.t)
    (remote : Config.Remote) (s : Transaction.t) :
  let name := Config.name remote in
  match Transaction.loadIndex loadV1 remote s with
  | (Some ri, s') =>
      Transaction.m_receipt s' = Transaction.m_receipt s
      /\ Ledger.getIndexes [remote] s' = [ri]
      /\ forall again files,
           Config.name again = name ->
           Transaction.loadIndex loadV1 again (Transaction.set_fs files s')
           = (Some ri, Transaction.set_fs files s')
  | (None, s') =>
      Transaction.m_indexes s' = Transaction.m_indexes s
      /\ Transaction.m_indexes s !! name = None
      /\ Ledger.getIndexes [remote] s' = []
      /\ exists what,
           Index.load loadV1 (Transaction.fs s) name = Err what
           /\ Transaction.m_receipt s'
              = Transaction.m_receipt s
                ++ [("Couldn't load repository: " +:+ what, name)]
  end.
Proof.
  intros name. unfold Transaction.loadIndex. fold name.
  destruct (Transaction.m_indexes s !! name) as [ri|] eqn:Hidx.
  - split; [reflexivity|]. split; [simpl; fold name; now rewrite Hidx|].
    intros again files Hagain. unfold Transaction.loadIndex.
    rewrite Hagain. simpl. rewrite Hidx. reflexivity.
  - destruct (Index.load loadV1 (Transaction.fs s) name) as [ri|what] eqn:Hload.
    + split; [reflexivity|].
      split; [simpl; fold name; now rewrite lookup_insert_eq|].
      intros again files Hagain. unfold Transaction.loadIndex.
      rewrite Hagain. simpl. rewrite lookup_insert_eq. reflexivity.
    + split; [reflexivity|]. split; [reflexivity|].
      split; [simpl; fold name; now rewrite Hidx|].
      exists what. split; reflexivity.
Qed.

Lemma loadIndex_caches_witness :
  let s := Transaction.create Examples.config
             (Examples.db Examples.entry_free) Examples.disk Examples.noon in
  exists ri s',
    Transaction.loadIndex Examples.loadV1 Examples.repo s = (Some ri, s')
    /\ Transaction.loadIndex Examples.loadV1 Examples.repo
         (Transaction.set_fs ∅ s')
       = (Some ri, Transaction.set_fs ∅ s').
Proof.
  intros s.
  pose proof (loadIndex_caches Examples.loadV1 Examples.repo s) as H.
  destruct (Transaction.loadIndex Examples.loadV1 Examples.repo s)
    as [[ri|] s'] eqn:Hload.
  - exists ri, s'. split; [reflexivity|].
    destruct H as (_ & _ & H). apply H. reflexivity.
  - exfalso. vm_compute in Hload. discriminate Hload.
Defined.

Section DownloadFacts.

Import Index Registry Transaction Protocol Ledger.

Variable loadV1 : TiXmlElement -> Index.t -> result Index.t.
Variable lastVersion : Package -> bool -> Version.t -> option IVersion.

Lemma load_then_no_callback remote s :
  load_then loadV1 lastVersion remote NoCallback s
  = snd (loadIndex loadV1 remote s).
Proof.
  unfold load_then. destruct (loadIndex loadV1 remote s) as [[ri|] s'];
    reflexivity.
Qed.

Lemma loadIndex_frame remote s :
  let s' := snd (loadIndex loadV1 remote s) in
  m_nextQueue s' = m_nextQueue s /\ m_obsolete s' = m_obsolete s
  /\ m_registry s' = m_registry s /\ m_syncedRemotes s' = m_syncedRemotes s
  /\ m_inhibited s' = m_inhibited s /\ m_threadPool s' = m_threadPool s
  /\ m_taskQueues s' = m_taskQueues s /\ fs s' = fs s
  /\ m_config s' = m_config s
  /\ exists errors, m_receipt s' = m_receipt s ++ errors.
Proof.
  unfold loadIndex. repeat case_match; simpl; repeat split;
    first [ exists []; now rewrite app_nil_r | eexists; reflexivity ].
Qed.

Lemma fetchIndex_no_callback remote stale s :
  let s' := fetchIndex loadV1 lastVersion remote stale NoCallback s in
  m_nextQueue s' = m_nextQueue s /\ m_obsolete s' = m_obsolete s
  /\ m_registry s' = m_registry s /\ m_syncedRemotes s' = m_syncedRemotes s
  /\ m_inhibited s' = m_inhibited s /\ m_taskQueues s' = m_taskQueues s
  /\ fs s' = fs s
  /\ (length (m_threadPool s') <= S (length (m_threadPool s)))%nat
  /\ (length (m_threadPool s) <= length (m_threadPool s'))%nat
  /\ exists errors, m_receipt s' = m_receipt s ++ errors.
Proof.
  unfold fetchIndex. cbv zeta. case_match.
  - rewrite load_then_no_callback.
    destruct (loadIndex_frame remote s)
      as (H1 & H2 & H3 & H4 & H5 & H6 & H7 & H8 & _ & H9).
    rewrite H6. repeat split; auto.
  - simpl. rewrite length_app. simpl. repeat split; try lia.
    exists []. now rewrite app_nil_r.
Qed.

End DownloadFacts.

(** X5. [fetchIndexes] only fetches: whatever the remotes and the state of
    the cache, it queues no task, collects no obsolete entry, leaves the
    registry, the disk and the set of synchronised remotes alone, pushes
    at most one download for each remote it is given, and can only add
    errors to the receipt. *)
Theorem fetchIndexes_only_fetches
    (loadV1 : TiXmlElement -> Index.t -> result Index.t)
    (lastVersion : Index.Package -> bool -> Version.t -> option Index.IVersion)
    (remotes : list Config.Remote) (stale : bool) (s : Transaction.t) :
  let s' := Transaction.fetchIndexes loadV1 lastVersion remotes stale s in
  Transaction.m_nextQueue s' = Transaction.m_nextQueue s
  /\ Transaction.m_taskQueues s' = Transaction.m_taskQueues s
  /\ Transaction.m_obsolete s' = Transaction.m_obsolete s
  /\ Transaction.m_registry s' = Transaction.m_registry s
  /\ Transaction.m_syncedRemotes s' = Transaction.m_syncedRemotes s
  /\ Transaction.fs s' = Transaction.fs s
  /\ (length (Transaction.m_threadPool s) <= length (Transaction.m_threadPool s')
      <= length (Transaction.m_threadPool s) + length remotes)%nat
  /\ exists errors,
       Transaction.m_receipt s' = Transaction.m_receipt s ++ errors.
Proof.
  unfold Transaction.fetchIndexes. revert s.
  induction remotes as [|remote rest IH]; intros s; simpl.
  - repeat split; try lia. exists []. now rewrite app_nil_r.
  - destruct (fetchIndex_no_callback loadV1 lastVersion remote stale s)
      as (H1 & H2 & H3 & H4 & _ & H5 & H6 & H7 & H8 & errs1 & H9).
    destruct (IH (Transaction.fetchIndex loadV1 lastVersion remote stale
                    Transaction.NoCallback s))
      as (G1 & G2 & G3 & G4 & G5 & G6 & G7 & errs2 & G8).
    split; [congruence|]. split; [congruence|]. split; [congruence|].
    split; [congruence|]. split; [congruence|]. split; [congruence|].
    split; [lia|]. exists (errs1 ++ errs2). rewrite G8, H9.
    now rewrite app_assoc.
Qed.



(** X6. When the index of a remote has been synchronised, the obsolete
    set holds what it held before and, if prompting for obsolete packages
    is on and the remote is not protected, the entries the registry has
    for the remote whose category and package the new index does not
    have; nothing else, and no entry twice. *)
Theorem obsolete_entries_collected
    (lastVersion : Index.Package -> bool -> Version.t -> option Index.IVersion)
    (remote : Config.Remote) (opts : Config.InstallOpts) (ri : Index.t)
    (s : Transaction.t) :
  let s' := Transaction.run_callback lastVersion
              (Transaction.SyncPackages remote opts) ri s in
  (forall e,
     e ∈ Transaction.m_obsolete s' <->
     e ∈ Transaction.m_obsolete s
     \/ (Config.promptObsolete (Config.install (Transaction.m_config s)) = true
         /\ Config.isProtected remote = false
         /\ e ∈ Registry.getEntries (Transaction.m_registry s) (Index.name ri)
         /\ Index.find ri (Registry.category e) (Registry.package e) = None))
  /\ (NoDup (Transaction.m_obsolete s) -> NoDup (Transaction.m_obsolete s')).
Proof.
  intros s'. unfold s', Transaction.run_callback.
  destruct (synchronize_packages_frame lastVersion opts (Index.packages ri) s)
    as (_ & Hcfg & Hreg & _ & _ & _ & Hobs & _).
  set (s1 := fold_left
               (fun s0 pkg =>
                  Transaction.synchronize_package lastVersion pkg opts s0)
               (Index.packages ri) s) in *.
  rewrite Hcfg, Hreg.
  destruct (Config.promptObsolete (Config.install (Transaction.m_config s)));
    [destruct (Config.isProtected remote)|]; simpl.
  - rewrite Hobs. split; [|auto]. intros e. split; [auto|].
    intros [H|(_ & H & _)]; [exact H|discriminate].
  - destruct (obsolete_fold ri
                (Registry.getEntries (Transaction.m_registry s) (Index.name ri))
                s1) as (Hmem & Hnd & _).
    rewrite Hobs in Hmem, Hnd. split; [|exact Hnd].
    intros e. rewrite Hmem. tauto.
  - rewrite Hobs. split; [|auto]. intros e. split; [auto|].
    intros [H|(H & _)]; [exact H|discriminate].
Qed.

Lemma obsolete_entries_collected_witness :
  let config := Config.mkConfig (Config.mkOpts true false true) [Examples.repo] in
  let s := Transaction.create config (Examples.db Examples.entry_free)
             Examples.disk Examples.noon in
  let s' := Transaction.run_callback Examples.lastVersion
              (Transaction.SyncPackages Examples.repo Examples.opts)
              (Index.mkIndex "repo" []) s in
  Examples.entry_free ∈ Transaction.m_obsolete s'.
Proof.
  intros config s s'.
  apply (obsolete_entries_collected Examples.lastVersion Examples.repo
           Examples.opts (Index.mkIndex "repo" []) s).
  right. split; [reflexivity|]. split; [reflexivity|].
  split; [|reflexivity].
  vm_compute. apply list_elem_of_here.
Defined.

(** X7. [promptObsolete] asks only when prompting is on and the obsolete
    set is not empty; otherwise it changes nothing.  When it asks, the
    obsolete set is emptied whatever the answer.  If the handler declines
    or keeps no entry, no task is queued.  If it accepts, one uninstall
    task for each entry it kept is inserted in the last waiting queue,
    after the tasks that queue has, a queue being made when none is
    waiting; the other queues and [m_nextQueue] are not touched. *)
Theorem promptObsolete_outcomes
    (m_promptObsolete : list Registry.Entry -> bool * list Registry.Entry)
    (s : Transaction.t) :
  let s' := Transaction.promptObsolete m_promptObsolete s in
  let prompting :=
    Config.promptObsolete (Config.install (Transaction.m_config s)) in
  let answer := m_promptObsolete (Transaction.m_obsolete s) in
  let uninstalls := map Transaction.UninstallTask (snd answer) in
  (prompting = false \/ Transaction.m_obsolete s = [] -> s' = s)
  /\ (prompting = true -> Transaction.m_obsolete s <> [] ->
      Transaction.m_obsolete s' = []
      /\ Transaction.m_nextQueue s' = Transaction.m_nextQueue s
      /\ (fst answer = false \/ snd answer = [] ->
          Transaction.m_taskQueues s' = Transaction.m_taskQueues s)
      /\ (fst answer = true -> snd answer <> [] ->
          concat (Transaction.m_taskQueues s')
          = concat (Transaction.m_taskQueues s) ++ uninstalls
          /\ exists front back,
               Transaction.m_taskQueues s' = front ++ [back ++ uninstalls]
               /\ (Transaction.m_taskQueues s = front ++ [back]
                   \/ Transaction.m_taskQueues s = []
                      /\ front = [] /\ back = []))).
Proof.
  intros s' prompting answer uninstalls.
  unfold s', Transaction.promptObsolete. fold prompting. split.
  - intros [-> | ->]; [reflexivity|].
    rewrite bool_decide_eq_true_2 by reflexivity.
    rewrite orb_true_r. reflexivity.
  - intros -> Hne. rewrite bool_decide_eq_false_2 by exact Hne.
    cbn [negb orb]. fold answer.
    destruct answer as [accepted selected] eqn:Hanswer. simpl in uninstalls.
    cbn [fst snd].
    destruct accepted; cbn [negb orb].
    + case_bool_decide as Hsel.
      * repeat split; intros; congruence.
      * cbn [Transaction.m_obsolete Transaction.set_taskQueues
             Transaction.set_obsolete Transaction.m_nextQueue
             Transaction.m_taskQueues].
        split; [reflexivity|]. split; [reflexivity|].
        split; [intros [H|H]; [discriminate|contradiction]|].
        intros _ _.
        destruct (Transaction.m_taskQueues s) as [|q qs] eqn:Hqs.
        -- simpl. split; [now rewrite app_nil_r|].
           exists [], []. split; [reflexivity|]. right. auto.
        -- assert (Hnn : q :: qs <> []) by discriminate.
           pose proof (app_removelast_last [] Hnn) as Hsplit.
           assert (Hcat : forall (front : list Transaction.TaskQueue) back,
                      concat (front ++ [back ++ uninstalls])
                      = concat (front ++ [back]) ++ uninstalls).
           { intros front back. rewrite !concat_app. cbn [concat].
             rewrite !app_nil_r. now rewrite app_assoc. }
           split.
           ++ rewrite Hcat. f_equal. f_equal. symmetry. exact Hsplit.
           ++ exists (removelast (q :: qs)), (List.last (q :: qs) []).
              split; [reflexivity|]. left. exact Hsplit.
    + repeat split; intros; congruence.
Qed.

Lemma promptObsolete_outcomes_witness :
  let config := Config.mkConfig (Config.mkOpts true false true) [Examples.repo] in
  let s := Transaction.set_obsolete [Examples.entry_free]
             (Transaction.create config (Examples.db Examples.entry_free)
                Examples.disk Examples.noon) in
  let s' := Transaction.promptObsolete Examples.promptObsolete s in
  Transaction.m_obsolete s' = []
  /\ concat (Transaction.m_taskQueues s')
     = [Transaction.UninstallTask Examples.entry_free].
Proof.
  intros config s s'.
  pose proof (promptObsolete_outcomes Examples.promptObsolete s) as (_ & H).
  destruct H as (Hobs & _ & _ & Hacc); [reflexivity|discriminate|].
  split; [exact Hobs|].
  destruct Hacc as (Hconcat & _); [reflexivity|discriminate|].
  exact Hconcat.
Defined.

(** ** Accounting for tasks *)

Section LedgerFacts.

Import Index Registry Transaction Protocol Ledger.

Lemma omap_snoc {A B} (f : A -> option B) (l : list A) (x : A) :
  omap f (l ++ [x]) = omap f l ++ match f x with Some y => [y] | None => [] end.
Proof. rewrite omap_app. simpl. destruct (f x); reflexivity. Qed.

Lemma omap_hosts {B} (f : Event -> option B) hosts :
  (forall t l, f (EHostRegister t l) = None) ->
  forallb is_host hosts = true -> omap f hosts = [].
Proof.
  intros Hf. induction hosts as [|e hosts IH]; simpl; [reflexivity|].
  intros H. apply andb_true_iff in H as [He Hh].
  destruct e; try discriminate. rewrite Hf. apply IH, Hh.
Qed.

Lemma cstep_accounted c c' : cstep c c' -> accounted c -> accounted c'.
Proof.
  unfold accounted, started_ok, settled, pushed, ended.
  intros H [Ht Hp].
  destruct H; simpl in *; rewrite ?omap_snoc; simpl;
    rewrite ?app_nil_r in *; try (split; assumption).
  - split; [exact Ht|]. rewrite Hp.
    rewrite (app_assoc _ pool [job]). reflexivity.
  - split; [exact Ht|]. rewrite Hp.
    rewrite <- app_assoc. apply Permutation_app_head.
    rewrite (delete_Permutation pool i job) at 1 by assumption.
    reflexivity.
  - split; [|exact Hp]. destruct ok; rewrite ?app_nil_r, Ht;
      [now rewrite app_assoc|reflexivity].
  - split; [|exact Hp]. rewrite Ht, <- app_assoc. reflexivity.
  - split; [|exact Hp]. rewrite Ht, <- app_assoc. reflexivity.
  - rewrite !omap_app. simpl. rewrite !omap_app. simpl.
    rewrite !(omap_hosts _ hosts) by (assumption || (intros; reflexivity)).
    rewrite !app_nil_r. split; assumption.
Qed.

Lemma rtc_accounted c c' : rtc cstep c c' -> accounted c -> accounted c'.
Proof. induction 1; eauto using cstep_accounted. Qed.

End LedgerFacts.

(** X9. Whatever happens to a transaction, the tasks whose [start]
    succeeded are, in the order they started, first the tasks that have
    been committed or rolled back, in the order that was done, then the
    tasks still running: tasks are settled once each and in the order
    they started, and a task whose [start] failed is never committed nor
    rolled back.  Likewise every thread task pushed on the pool is in the
    pool or has ended, once. *)
Theorem tasks_settle_in_start_order
    (loadV1 : TiXmlElement -> Index.t -> result Index.t)
    (lastVersion : Index.Package -> bool -> Version.t -> option Index.IVersion)
    (m_promptObsolete : list Registry.Entry -> bool * list Registry.Entry)
    (doStart : Transaction.Task -> Registry.table -> Transaction.StartResult)
    (doCommit : Transaction.Task -> Registry.table -> Transaction.CommitResult)
    (doRollback : Transaction.Task -> list Transaction.ErrorInfo)
    (config : Config.t) (db : Registry.table) (files : FS.t) (time : Z)
    (actions : list Transaction.Action) :
  let s := Transaction.run loadV1 lastVersion m_promptObsolete doStart
             doCommit doRollback actions
             (Transaction.create config db files time) in
  Ledger.started_ok (Transaction.trace s)
  = Ledger.settled (Transaction.trace s) ++ Transaction.m_runningTasks s
  /\ Ledger.pushed (Transaction.trace s)
     ≡ₚ Ledger.ended (Transaction.trace s) ++ Transaction.m_threadPool s.
Proof.
  intros s.
  destruct (sim_run loadV1 lastVersion m_promptObsolete doStart doCommit
              doRollback actions (Transaction.create config db files time)
              eq_refl eq_refl) as (H & _).
  assert (H0 : Ledger.accounted
                 (Protocol.core (Transaction.create config db files time))).
  { split; reflexivity. }
  exact (rtc_accounted _ _ H H0).
Qed.

(** ** What running the tasks does to the registry and to the queues *)

Section RunFacts.

Import Index Registry Transaction Protocol Ledger.

Variable m_promptObsolete : list Entry -> bool * list Entry.
Variable doStart : Task -> Registry.table -> StartResult.
Variable doCommit : Task -> Registry.table -> CommitResult.
Variable doRollback : Task -> list ErrorInfo.

Local Abbreviation start_task := (start_task doStart).
Local Abbreviation start_queue := (start_queue doStart).
Local Abbreviation finish_running := (finish_running doCommit doRollback).
Local Abbreviation commitTasks := (commitTasks doCommit doRollback).
Local Abbreviation run_queues := (run_queues doStart doCommit doRollback).
Local Abbreviation promptObsolete := (promptObsolete m_promptObsolete).
Local Abbreviation runTasks :=
  (runTasks m_promptObsolete doStart doCommit doRollback).

Lemma same_plan_refl s : same_plan s s.
Proof. repeat split. Qed.

Lemma same_plan_trans s1 s2 s3 :
  same_plan s1 s2 -> same_plan s2 s3 -> same_plan s1 s3.
Proof.
  intros (H1 & H2 & H3 & H4 & H5 & H6) (H7 & H8 & H9 & H10 & H11 & H12).
  repeat split; congruence.
Qed.

Lemma with_working_same r : with_working (working r) r = r.
Proof. destruct r; reflexivity. Qed.

Lemma pushes_state job n s :
  Nat.iter n (pool_push job) s
  = set_trace (trace s ++ repeat (EPush job) n)
      (set_threadPool (m_threadPool s ++ repeat job n) s).
Proof.
  induction n as [|n IH]; simpl.
  - destruct s. unfold set_trace, set_threadPool. simpl.
    now rewrite !app_nil_r.
  - rewrite IH. unfold pool_push, emit, set_trace, set_threadPool. simpl.
    rewrite <- !app_assoc. rewrite <- !repeat_cons. reflexivity.
Qed.

Lemma omap_pushes {B} (f : Event -> option B) job n :
  f (EPush job) = None -> omap f (repeat (EPush job) n) = [].
Proof. intros Hf. induction n; simpl; [reflexivity|]. now rewrite Hf. Qed.

Lemma start_task_effect task s :
  let s' := start_task task s in
  started (trace s') = started (trace s) ++ [task]
  /\ settled (trace s') = settled (trace s)
  /\ durable (m_registry s') = durable (m_registry s)
  /\ savepoints (m_registry s') = savepoints (m_registry s)
  /\ same_plan s s'.
Proof.
  unfold Transaction.start_task. cbv zeta. rewrite pushes_state.
  unfold started, settled.
  destruct (Transaction.started (doStart task (working (m_registry s))));
    simpl; rewrite !omap_app, !omap_pushes by reflexivity; simpl;
    rewrite ?app_nil_r; repeat split.
Qed.

Lemma start_queue_effect queue : forall s,
  let s' := start_queue queue s in
  started (trace s') = started (trace s) ++ queue
  /\ settled (trace s') = settled (trace s)
  /\ durable (m_registry s') = durable (m_registry s)
  /\ savepoints (m_registry s') = savepoints (m_registry s)
  /\ same_plan s s'.
Proof.
  induction queue as [|task rest IH]; intros s; simpl.
  - rewrite app_nil_r. repeat split.
  - destruct (start_task_effect task s) as (H1 & H2 & H3 & H4 & H5).
    destruct (IH (start_task task s)) as (H6 & H7 & H8 & H9 & H10).
    rewrite H6, H7, H8, H9, H1, H2, H3, H4, <- app_assoc.
    do 4 (split; [reflexivity|]). eapply same_plan_trans; eassumption.
Qed.

Lemma finish_running_effect running : forall s,
  let s' := finish_running running s in
  started (trace s') = started (trace s)
  /\ settled (trace s') = settled (trace s) ++ running
  /\ m_registry s'
     = (if m_isCancelled s then m_registry s
        else with_working
               (apply_commits doCommit running (working (m_registry s)))
               (m_registry s))
  /\ same_plan s s'
  /\ m_threadPool s' = m_threadPool s.
Proof.
  induction running as [|front rest IH]; intros s; simpl.
  - rewrite app_nil_r, with_working_same.
    destruct (m_isCancelled s); repeat split.
  - destruct (m_isCancelled s) eqn:Hcs.
    + set (s1 := set_runningTasks rest (rollback_task doRollback front s)).
      destruct (IH s1) as (H1 & H2 & H3 & H4 & H5).
      change (m_isCancelled s1) with (m_isCancelled s) in H3.
      rewrite Hcs in H3. rewrite H1, H2, H3, H5.
      unfold s1, started, settled, Transaction.rollback_task. simpl.
      rewrite !omap_snoc. simpl. rewrite ?app_nil_r, <- ?app_assoc.
      do 3 (split; [reflexivity|]). split; [|reflexivity].
      eapply same_plan_trans; [|exact H4]. repeat split.
    + set (s1 := set_runningTasks rest (commit_task doCommit front s)).
      destruct (IH s1) as (H1 & H2 & H3 & H4 & H5).
      change (m_isCancelled s1) with (m_isCancelled s) in H3.
      rewrite Hcs in H3. rewrite H1, H2, H3, H5.
      unfold s1, started, settled, Transaction.commit_task. simpl.
      rewrite !omap_snoc. simpl. rewrite ?app_nil_r, <- ?app_assoc.
      do 3 (split; [reflexivity|]). split; [|reflexivity].
      eapply same_plan_trans; [|exact H4]. repeat split.
Qed.

Lemma apply_commits_app tasks tasks' w :
  apply_commits doCommit (tasks ++ tasks') w
  = apply_commits doCommit tasks' (apply_commits doCommit tasks w).
Proof. apply fold_left_app. Qed.

(** The loop over the queues: what it commits is what it applies to the
    registry; the tasks it starts leave the queues. *)
Lemma run_queues_effect queues : forall s,
  m_isCancelled s = false -> idle s = true -> m_runningTasks s = [] ->
  m_taskQueues s = queues ->
  let r := run_queues queues s in
  exists committed,
    settled (trace (snd r)) = settled (trace s) ++ committed
    /\ m_registry (snd r)
       = with_working
           (apply_commits doCommit committed (working (m_registry s)))
           (m_registry s)
    /\ started (trace (snd r)) ++ concat (m_taskQueues (snd r))
       = started (trace s) ++ concat queues
    /\ m_nextQueue (snd r) = m_nextQueue s
    /\ m_isCancelled (snd r) = false
    /\ finished (snd r) = finished s
    /\ idle (snd r) = fst r
    /\ (fst r = true ->
        m_taskQueues (snd r) = [] /\ m_runningTasks (snd r) = []).
Proof.
  induction queues as [|queue rest IH]; intros s Hc Hi Hrun Hq.
  - exists []. simpl. rewrite !app_nil_r, with_working_same, Hq.
    repeat split; auto; try discriminate. simpl. now rewrite app_nil_r.
  - cbn [Transaction.run_queues].
    set (s1 := emit ESavepoint
                 (set_registry (Registry.savepoint (m_registry s)) s)).
    destruct (start_queue_effect queue s1)
      as (H1 & H2 & H3 & H4 & (_ & Hn2 & Hc2 & Hf2 & Ho2 & Hg2)).
    set (s2 := start_queue queue s1) in *.
    change (m_isCancelled s1) with (m_isCancelled s) in Hc2.
    change (finished s1) with (finished s) in Hf2.
    change (m_nextQueue s1) with (m_nextQueue s) in Hn2.
    set (s3 := set_taskQueues rest
                 (emit ERestore
                    (set_registry (Registry.restore (m_registry s2)) s2))).
    assert (Hr3 : m_registry s3 = m_registry s).
    { unfold s3. simpl. unfold Registry.restore. rewrite H4, H3.
      unfold s1. simpl. destruct (m_registry s); reflexivity. }
    assert (Hst3 : started (trace s3) = started (trace s) ++ queue).
    { unfold s3, started in *. simpl. rewrite omap_snoc, H1. simpl.
      unfold s1. simpl. rewrite omap_snoc. simpl.
      now rewrite !app_nil_r. }
    assert (Hse3 : settled (trace s3) = settled (trace s)).
    { unfold s3, settled in *. simpl. rewrite omap_snoc, H2. simpl.
      unfold s1. simpl. rewrite omap_snoc. simpl.
      now rewrite !app_nil_r. }
    assert (Hc3 : m_isCancelled s3 = false) by (unfold s3; simpl; congruence).
    unfold Transaction.commitTasks.
    destruct (idle s3) eqn:Hi3; cbn [negb fst snd].
    + destruct (finish_running_effect (m_runningTasks s3) s3)
        as (H5 & H6 & H7 & (Hq4 & Hn4 & Hc4 & Hf4 & Ho4 & Hg4) & Hp4).
      rewrite Hc3 in H7.
      set (s4 := finish_running (m_runningTasks s3) s3) in *.
      assert (Hrun4 : m_runningTasks s4 = []).
      { unfold s4. clear. generalize s3.
        intros s0. remember (m_runningTasks s0) as run eqn:E.
        revert s0 E. induction run as [|x run IHr]; intros s0 E; simpl;
          [auto|]. apply IHr. reflexivity. }
      destruct (IH s4) as (committed & K1 & K2 & K3 & K4 & K5 & K6 & K7 & K8).
      all: cycle 4.
      * exists (m_runningTasks s3 ++ committed).
        rewrite K1, K2, K3, K4, K5, K6, K7, H5, H6, H7, Hst3, Hse3, Hr3, Hn4,
          Hf4.
        rewrite apply_commits_app, <- !app_assoc.
        repeat split; auto; apply K8; auto.
      * congruence.
      * unfold idle in *. rewrite Hp4. exact Hi3.
      * exact Hrun4.
      * rewrite Hq4. reflexivity.
    + exists []. unfold apply_commits. cbn [fold_left concat].
      rewrite Hst3, Hse3, Hr3, app_nil_r, <- app_assoc.
      rewrite with_working_same.
      repeat split; auto; discriminate.
Qed.

End RunFacts.

Section RunTasksFacts.

Import Index Registry Transaction Protocol Ledger.

Variable m_promptObsolete : list Entry -> bool * list Entry.
Variable doStart : Task -> Registry.table -> StartResult.
Variable doCommit : Task -> Registry.table -> CommitResult.
Variable doRollback : Task -> list ErrorInfo.

Local Abbreviation finish_running := (finish_running doCommit doRollback).
Local Abbreviation commitTasks := (commitTasks doCommit doRollback).
Local Abbreviation run_queues := (run_queues doStart doCommit doRollback).
Local Abbreviation promptObsolete := (promptObsolete m_promptObsolete).
Local Abbreviation runTasks :=
  (runTasks m_promptObsolete doStart doCommit doRollback).

Lemma finish_running_done s :
  m_runningTasks (finish_running (m_runningTasks s) s) = [].
Proof.
  remember (m_runningTasks s) as run eqn:E. revert s E.
  induction run as [|x run IH]; intros s E; simpl; [auto|].
  apply IH. reflexivity.
Qed.

Lemma promptObsolete_pending s :
  let s' := promptObsolete s in
  m_nextQueue s' = m_nextQueue s
  /\ exists extra,
       concat (m_taskQueues s') = concat (m_taskQueues s) ++ extra
       /\ (extra = []
           \/ extra = map UninstallTask (snd (m_promptObsolete (m_obsolete s)))).
Proof.
  assert (Hcat : forall (front : list TaskQueue) (back more : TaskQueue),
             concat (front ++ [back ++ more])
             = concat (front ++ [back]) ++ more).
  { intros. rewrite !concat_app. simpl.
    now rewrite !app_nil_r, app_assoc. }
  unfold Transaction.promptObsolete.
  destruct (negb (Config.promptObsolete (Config.install (m_config s)))
            || bool_decide (m_obsolete s = [])).
  { split; [reflexivity|]. exists []. now rewrite app_nil_r; auto. }
  destruct (m_promptObsolete (m_obsolete s)) as [accepted selected].
  cbn [snd].
  destruct (negb accepted || bool_decide (selected = [])).
  { split; [reflexivity|]. exists []. simpl. now rewrite app_nil_r; auto. }
  split; [reflexivity|].
  exists (map UninstallTask selected). split; [|auto].
  cbn [m_taskQueues set_taskQueues set_obsolete].
  destruct (m_taskQueues s) as [|q qs] eqn:Eq.
  - simpl. now rewrite app_nil_r.
  - rewrite Hcat. f_equal. f_equal. symmetry.
    apply (app_removelast_last (l := q :: qs) []). discriminate.
Qed.

Lemma registerQueued_from_plan queue : forall s,
  same_plan s (registerQueued_from queue s).
Proof.
  induction queue as [|reg rest IH]; intros s;
    cbn [Transaction.registerQueued_from]; [apply same_plan_refl|].
  case_match; [repeat split|].
  eapply same_plan_trans; [|apply IH].
  unfold registerScript. repeat case_match; repeat split.
Qed.

Lemma registerQueued_ledger {B} (f : Event -> option B) s :
  (forall t l, f (EHostRegister t l) = None) ->
  omap f (trace (registerQueued s)) = omap f (trace s).
Proof.
  intros Hf. unfold registerQueued.
  destruct (sim_registerQueued_from (m_regQueue s) s) as (hosts & Hh & Heq).
  unfold core in Heq. injection Heq as _ _ _ _ _ Ht.
  rewrite Ht, omap_app, (omap_hosts f hosts Hf Hh). apply app_nil_r.
Qed.

Lemma registerQueued_frame s :
  let s' := registerQueued s in
  m_registry s' = m_registry s
  /\ m_runningTasks s' = m_runningTasks s
  /\ m_threadPool s' = m_threadPool s
  /\ same_plan s s'.
Proof.
  unfold registerQueued.
  destruct (sim_registerQueued_from (m_regQueue s) s) as (hosts & _ & Heq).
  unfold core in Heq. injection Heq as _ Hreg Hrun Hpool _ _.
  repeat split; auto; apply registerQueued_from_plan.
Qed.

(** What one call of [runTasks] does, as the tasks see it. *)
Lemma runTasks_effect s :
  let r := runTasks s in
  (m_isCancelled s = true ->
     started (trace (snd r)) = started (trace s)
     /\ pending (snd r) = pending s
     /\ m_registry (snd r) = m_registry s)
  /\ (m_isCancelled s = false ->
      exists committed extra,
        settled (trace (snd r)) = settled (trace s) ++ committed
        /\ working (m_registry (snd r))
           = apply_commits doCommit committed (working (m_registry s))
        /\ (if fst r
            then durable (m_registry (snd r)) = working (m_registry (snd r))
            else durable (m_registry (snd r)) = durable (m_registry s)
                 /\ savepoints (m_registry (snd r))
                    = savepoints (m_registry s))
        /\ started (trace (snd r)) ++ pending (snd r)
           = started (trace s) ++ pending s ++ extra
        /\ (extra = []
            \/ extra
               = map UninstallTask (snd (m_promptObsolete (m_obsolete s))))
        /\ (fst r = true -> pending (snd r) = []))
  /\ finished (snd r) = fst r || finished s
  /\ idle (snd r) = fst r
  /\ (fst r = true ->
      m_runningTasks (snd r) = [] /\ m_nextQueue (snd r) = []).
Proof.
  unfold Transaction.runTasks.
  match goal with
  | |- context [Transaction.commitTasks _ _ ?x] => set (s0 := x)
  end.
  assert (H0 : trace s0 = trace s /\ m_registry s0 = m_registry s
               /\ m_isCancelled s0 = m_isCancelled s
               /\ finished s0 = finished s /\ m_obsolete s0 = m_obsolete s
               /\ m_nextQueue s0 = []
               /\ concat (m_taskQueues s0) = pending s).
  { unfold s0, pending. destruct (m_nextQueue s) eqn:En; simpl.
    - rewrite app_nil_r. repeat split; auto.
    - rewrite concat_app. simpl. rewrite !app_nil_r. repeat split. }
  destruct H0 as (Ht0 & Hr0 & Hc0 & Hf0 & Ho0 & Hn0 & Hq0).
  unfold Transaction.commitTasks.
  destruct (idle s0) eqn:Hi0; cbn [negb fst snd].
  2:{ assert (Hpend0 : pending s0 = pending s).
      { unfold pending at 1. now rewrite Hn0, Hq0, app_nil_r. }
      rewrite Ht0, Hr0, Hf0, Hpend0.
      split; [auto|]. split.
      - intros _. exists [], []. simpl. rewrite !app_nil_r.
        repeat split; auto; discriminate.
      - repeat split; auto; discriminate. }
  destruct (finish_running_effect doCommit doRollback (m_runningTasks s0) s0)
    as (H1 & H2 & H3 & (Hq1 & Hn1 & Hc1 & Hf1 & Ho1 & Hg1) & Hp1).
  pose proof (finish_running_done s0) as Hrun1.
  set (s1 := finish_running (m_runningTasks s0) s0) in *.
  assert (Hi1 : idle s1 = true) by (unfold idle in *; now rewrite Hp1).
  rewrite Hc1, Hc0. rewrite Hc0 in H3.
  destruct (m_isCancelled s) eqn:Hc.
  { cbn [fst snd]. unfold finish, pending. simpl. unfold started.
    rewrite omap_snoc. simpl. rewrite app_nil_r.
    fold (started (trace s1)). rewrite H1, H3, Ht0, Hr0, Hq1, Hn1, Hn0, Hq0.
    rewrite app_nil_r.
    split; [auto|]. split; [discriminate|].
    split; [reflexivity|]. split; [exact Hi1|].
    intros _. split; [exact Hrun1|congruence]. }
  destruct (promptObsolete_pending s1) as (Hn2 & extra & Hq2 & Hex).
  pose proof (core_promptObsolete m_promptObsolete s1) as Hcore2.
  set (s2 := promptObsolete s1) in *.
  unfold core in Hcore2. injection Hcore2 as Hc2 Hr2 Hrun2 Hp2 Hf2 Ht2.
  destruct (run_queues_effect doStart doCommit doRollback
              (m_taskQueues s2) s2)
    as (committed & K1 & K2 & K3 & K4 & K5 & K6 & K7 & K8);
    [congruence|unfold idle in *; now rewrite Hp2| congruence|reflexivity|].
  split; [discriminate|].
  destruct (run_queues (m_taskQueues s2) s2) as [[|] s3]; cbn [fst snd] in *.
  - destruct (K8 eq_refl) as [Hq3 Hrun3].
    set (s4 := emit ERegistryCommit
                 (set_registry (Registry.commit (m_registry s3)) s3)).
    destruct (registerQueued_frame s4)
      as (Hr5 & Hrun5 & Hp5 & (Hq5 & Hn5 & Hc5 & Hf5 & _ & _)).
    assert (Hst : started (trace (finish (registerQueued s4)))
                  = started (trace s3)).
    { unfold started, finish. simpl. rewrite omap_snoc. simpl.
      rewrite app_nil_r, registerQueued_ledger by reflexivity.
      unfold s4. simpl. rewrite omap_snoc. simpl. apply app_nil_r. }
    assert (Hse : settled (trace (finish (registerQueued s4)))
                  = settled (trace s3)).
    { unfold settled, finish. simpl. rewrite omap_snoc. simpl.
      rewrite app_nil_r, registerQueued_ledger by reflexivity.
      unfold s4. simpl. rewrite omap_snoc. simpl. apply app_nil_r. }
    set (s5 := registerQueued s4) in *.
    assert (Hreg : m_registry (finish s5) = Registry.commit (m_registry s3))
      by exact Hr5.
    assert (Hpend : pending (finish s5) = []).
    { unfold pending, finish. simpl. rewrite Hq5, Hn5. unfold s4. simpl.
      rewrite Hq3, K4, Hn2, Hn1, Hn0. reflexivity. }
    rewrite Hq3 in K3. simpl in K3. rewrite app_nil_r in K3.
    rewrite Ho1, Ho0 in Hex.
    split; [|split; [reflexivity|split]].
    + intros _. exists (m_runningTasks s0 ++ committed), extra.
      rewrite Hst, Hse, Hreg, Hpend, K1, K3, Ht2, H1, H2, Hq2, Hq1, Hq0, Ht0.
      simpl. rewrite K2, Hr2, H3, Hr0. simpl.
      rewrite apply_commits_app, app_nil_r, <- !app_assoc.
      repeat split; auto.
    + unfold finish, idle. simpl. rewrite Hp5. exact K7.
    + intros _. unfold finish. simpl. rewrite Hrun5, Hn5.
      split; [exact Hrun3|]. unfold s4. simpl. congruence.
  - split; [|split; [|split; [exact K7|discriminate]]].
    + intros _. exists (m_runningTasks s0 ++ committed), extra.
      assert (Hpend3 : started (trace s3) ++ pending s3
                       = started (trace s) ++ pending s ++ extra).
      { unfold pending at 1.
        rewrite K4, Hn2, Hn1, Hn0, app_nil_r, K3, Ht2, H1, Ht0, Hq2, Hq1, Hq0.
        reflexivity. }
      rewrite Ho1, Ho0 in Hex.
      rewrite Hpend3, K1, K2, Ht2, H2, Hr2, H3, Hr0, Ht0, apply_commits_app,
        <- app_assoc.
      simpl. repeat split; auto; discriminate.
    + rewrite K6. simpl. congruence.
Qed.

End RunTasksFacts.

(** X8. A call of [runTasks] on a transaction that is not cancelled
    leaves in the registry exactly what the [commit] of the tasks it
    settled wrote, one after the other in the order they were settled:
    whatever [start] wrote to the registry to look for conflicts has been
    undone by [restore].  When the call returns true these writes have
    been committed; when it returns false nothing has been committed and
    the savepoints are those it found. *)
Theorem runTasks_applies_commits
    (m_promptObsolete : list Registry.Entry -> bool * list Registry.Entry)
    (doStart : Transaction.Task -> Registry.table -> Transaction.StartResult)
    (doCommit : Transaction.Task -> Registry.table -> Transaction.CommitResult)
    (doRollback : Transaction.Task -> list Transaction.ErrorInfo)
    (s : Transaction.t) :
  Transaction.m_isCancelled s = false ->
  let r := Transaction.runTasks m_promptObsolete doStart doCommit doRollback
             s in
  exists committed,
    Ledger.settled (Transaction.trace (snd r))
    = Ledger.settled (Transaction.trace s) ++ committed
    /\ Registry.working (Transaction.m_registry (snd r))
       = Ledger.apply_commits doCommit committed
           (Registry.working (Transaction.m_registry s))
    /\ (if fst r
        then Registry.durable (Transaction.m_registry (snd r))
             = Registry.working (Transaction.m_registry (snd r))
        else Registry.durable (Transaction.m_registry (snd r))
             = Registry.durable (Transaction.m_registry s)
             /\ Registry.savepoints (Transaction.m_registry (snd r))
                = Registry.savepoints (Transaction.m_registry s)).
Proof.
  intros Hc r.
  destruct (runTasks_effect m_promptObsolete doStart doCommit doRollback s)
    as (_ & H & _).
  destruct (H Hc) as (committed & extra & H1 & H2 & H3 & _).
  exists committed. auto.
Qed.

Lemma runTasks_applies_commits_witness :
  let task := Transaction.InstallTask
                (Transaction.mkRef Examples.pkg_new Examples.script_1_1)
                false (Some Examples.entry_free) None in
  let s := Transaction.enqueue task
             (Transaction.create Examples.config
                (Examples.db Examples.entry_free) Examples.disk
                Examples.noon) in
  let r := Transaction.runTasks Examples.promptObsolete Examples.doStart
             Examples.doCommit Examples.doRollback s in
  Transaction.m_isCancelled s = false
  /\ exists committed,
       Ledger.settled (Transaction.trace (snd r))
       = Ledger.settled (Transaction.trace s) ++ committed
       /\ Registry.working (Transaction.m_registry (snd r))
          = Ledger.apply_commits Examples.doCommit committed
              (Registry.working (Transaction.m_registry s))
       /\ (if fst r
           then Registry.durable (Transaction.m_registry (snd r))
                = Registry.working (Transaction.m_registry (snd r))
           else Registry.durable (Transaction.m_registry (snd r))
                = Registry.durable (Transaction.m_registry s)
                /\ Registry.savepoints (Transaction.m_registry (snd r))
                   = Registry.savepoints (Transaction.m_registry s)).
Proof.
  intros task s r. split; [reflexivity|].
  apply (runTasks_applies_commits Examples.promptObsolete Examples.doStart
           Examples.doCommit Examples.doRollback s).
  reflexivity.
Defined.

(** X10. [runTasks] neither loses nor repeats a task: the tasks taken
    from the queues so far together with those still queued are, after
    the call, the same tasks as before it, each as many times, with in
    addition the uninstallations of the obsolete packages when the user
    accepted them.  When the call returns true on a transaction that is
    not cancelled, no task is left in the queues.  On a cancelled
    transaction no task is started: the queued tasks stay queued and the
    registry is left as it is. *)
Theorem runTasks_starts_queued_tasks_once
    (m_promptObsolete : list Registry.Entry -> bool * list Registry.Entry)
    (doStart : Transaction.Task -> Registry.table -> Transaction.StartResult)
    (doCommit : Transaction.Task -> Registry.table -> Transaction.CommitResult)
    (doRollback : Transaction.Task -> list Transaction.ErrorInfo)
    (s : Transaction.t) :
  let r := Transaction.runTasks m_promptObsolete doStart doCommit doRollback
             s in
  if Transaction.m_isCancelled s
  then Ledger.started (Transaction.trace (snd r))
       = Ledger.started (Transaction.trace s)
       /\ Ledger.pending (snd r) = Ledger.pending s
       /\ Transaction.m_registry (snd r) = Transaction.m_registry s
  else exists extra,
         Ledger.started (Transaction.trace (snd r)) ++ Ledger.pending (snd r)
         ≡ₚ Ledger.started (Transaction.trace s) ++ Ledger.pending s ++ extra
         /\ (extra = []
             \/ extra
                = map Transaction.UninstallTask
                    (snd (m_promptObsolete (Transaction.m_obsolete s))))
         /\ (fst r = true -> Ledger.pending (snd r) = []).
Proof.
  intros r.
  destruct (runTasks_effect m_promptObsolete doStart doCommit doRollback s)
    as (Hyes & Hno & _).
  destruct (Transaction.m_isCancelled s).
  - apply Hyes. reflexivity.
  - destruct (Hno eq_refl) as (committed & extra & _ & _ & _ & H1 & H2 & H3).
    exists extra. split; [|split; assumption].
    fold r in H1. rewrite H1. reflexivity.
Qed.

(** X11. [runTasks] returns true exactly when it has finished the
    transaction and false exactly when it stopped because the thread pool
    still has work to do; when it returns true no task is left running
    and the queue of the next tasks is empty. *)
Theorem runTasks_returns_whether_finished
    (m_promptObsolete : list Registry.Entry -> bool * list Registry.Entry)
    (doStart : Transaction.Task -> Registry.table -> Transaction.StartResult)
    (doCommit : Transaction.Task -> Registry.table -> Transaction.CommitResult)
    (doRollback : Transaction.Task -> list Transaction.ErrorInfo)
    (s : Transaction.t) :
  Transaction.finished s = false ->
  let r := Transaction.runTasks m_promptObsolete doStart doCommit doRollback
             s in
  Transaction.finished (snd r) = fst r
  /\ Transaction.idle (snd r) = fst r
  /\ (fst r = true ->
      Transaction.m_runningTasks (snd r) = []
      /\ Transaction.m_nextQueue (snd r) = []).
Proof.
  intros Hf r.
  destruct (runTasks_effect m_promptObsolete doStart doCommit doRollback s)
    as (_ & _ & H1 & H2 & H3).
  fold r in H1, H2, H3. rewrite Hf, orb_false_r in H1. auto.
Qed.

Lemma runTasks_returns_whether_finished_witness :
  let task := Transaction.InstallTask
                (Transaction.mkRef Examples.pkg_new Examples.script_1_1)
                false (Some Examples.entry_free) None in
  let s := Transaction.enqueue task
             (Transaction.create Examples.config
                (Examples.db Examples.entry_free) Examples.disk
                Examples.noon) in
  let r := Transaction.runTasks Examples.promptObsolete Examples.doStart
             Examples.doCommit Examples.doRollback s in
  Transaction.finished s = false
  /\ Transaction.finished (snd r) = fst r
  /\ Transaction.idle (snd r) = fst r
  /\ (fst r = true ->
      Transaction.m_runningTasks (snd r) = []
      /\ Transaction.m_nextQueue (snd r) = []).
Proof.
  intros task s r. split; [reflexivity|].
  apply (runTasks_returns_whether_finished Examples.promptObsolete
           Examples.doStart Examples.doCommit Examples.doRollback s).
  reflexivity.
Defined.

(** ** Registering in the host *)

Section RegisterFacts.

Import Index Registry Transaction Protocol Ledger.

Lemma registerScript_registered reg isLast s :
  let s' := registerScript reg isLast s in
  registered (trace s')
  = registered (trace s)
    ++ (if negb (sections (file reg) =? 0)%Z then [(reg, isLast)] else [])
  /\ m_inhibited s' = m_inhibited s.
Proof.
  unfold registerScript, registered.
  destruct (sections (file reg) =? 0)%Z; simpl.
  - now rewrite app_nil_r.
  - now rewrite omap_snoc.
Qed.

Lemma registerQueued_from_served served : forall rest s,
  m_regQueue s = served ++ rest ->
  forallb (fun reg => negb (refused s reg)) served = true ->
  match rest with [] => True | reg :: _ => refused s reg = true end ->
  let s' := registerQueued_from (served ++ rest) s in
  registered (trace s')
  = registered (trace s) ++ host_calls served (length rest)
  /\ m_regQueue s' = tail rest
  /\ m_inhibited s' = m_inhibited s.
Proof.
  induction served as [|reg more IH]; intros rest s Hq Hs Hr.
  - simpl in *. destruct rest as [|reg rest'].
    + simpl. now rewrite app_nil_r.
    + cbn [registerQueued_from]. unfold refused in Hr. rewrite Hr.
      simpl. now rewrite app_nil_r.
  - cbn [forallb] in Hs. apply andb_true_iff in Hs as [Hreg Hmore].
    apply negb_true_iff in Hreg. pose proof Hreg as Hreg'.
    unfold refused in Hreg'.
    change ((reg :: more) ++ rest) with (reg :: (more ++ rest)).
    cbn [registerQueued_from]. rewrite Hreg'.
    match goal with
    | |- context [registerQueued_from _ (set_regQueue _ ?x)] =>
        set (s1 := x)
    end.
    assert (H1 : registered (trace s1)
                 = registered (trace s)
                   ++ (if reaches_host reg
                       then [(reg, (length more + length rest =? 0)%nat)]
                       else [])
                 /\ m_inhibited s1 = m_inhibited s).
    { unfold s1, reaches_host. destruct (type (file reg));
        try (now rewrite app_nil_r).
      cbn [length]. rewrite length_app.
      apply registerScript_registered. }
    destruct H1 as [H1 Hi1].
    assert (Href : forall x,
               refused (set_regQueue (more ++ rest) s1) x = refused s x)
      by (intros; unfold refused; simpl; now rewrite Hi1).
    destruct (IH rest (set_regQueue (more ++ rest) s1))
      as (K1 & K2 & K3).
    + reflexivity.
    + rewrite forallb_forall in *. intros x Hx. rewrite Href.
      apply Hmore, Hx.
    + destruct rest; [exact I|]. rewrite Href. exact Hr.
    + rewrite K1, K2, K3. simpl. rewrite H1, <- app_assoc.
      repeat split; auto.
Qed.

End RegisterFacts.



(** ** Inhibited remotes *)

Section HostFacts.

Import Index Registry Transaction Protocol Ledger.

Variable loadV1 : TiXmlElement -> Index.t -> result Index.t.
Variable lastVersion : Package -> bool -> Version.t -> option IVersion.
Variable m_promptObsolete : list Entry -> bool * list Entry.
Variable doStart : Task -> Registry.table -> StartResult.
Variable doCommit : Task -> Registry.table -> CommitResult.
Variable doRollback : Task -> list ErrorInfo.

Local Abbreviation synchronize_package := (synchronize_package lastVersion).
Local Abbreviation run_callback := (run_callback lastVersion).
Local Abbreviation load_then := (load_then loadV1 lastVersion).
Local Abbreviation fetchIndex := (fetchIndex loadV1 lastVersion).
Local Abbreviation fetchIndexes := (fetchIndexes loadV1 lastVersion).
Local Abbreviation synchronize := (synchronize loadV1 lastVersion).
Local Abbreviation download_finished := (download_finished loadV1 lastVersion).
Local Abbreviation start_task := (start_task doStart).
Local Abbreviation start_queue := (start_queue doStart).
Local Abbreviation finish_running := (finish_running doCommit doRollback).
Local Abbreviation commitTasks := (commitTasks doCommit doRollback).
Local Abbreviation run_queues := (run_queues doStart doCommit doRollback).
Local Abbreviation promptObsolete := (promptObsolete m_promptObsolete).
Local Abbreviation runTasks :=
  (runTasks m_promptObsolete doStart doCommit doRollback).
Local Abbreviation thread_finished :=
  (thread_finished loadV1 lastVersion m_promptObsolete doStart doCommit
     doRollback).
Local Abbreviation step :=
  (step loadV1 lastVersion m_promptObsolete doStart doCommit doRollback).
Local Abbreviation run :=
  (run loadV1 lastVersion m_promptObsolete doStart doCommit doRollback).

Lemma same_host_refl s : same_host s s.
Proof. repeat split. Qed.

Lemma same_host_trans s1 s2 s3 :
  same_host s1 s2 -> same_host s2 s3 -> same_host s1 s3.
Proof. intros (H1 & H2 & H3) (H4 & H5 & H6). repeat split; congruence. Qed.

Lemma same_host_fold {A} (f : t -> A -> t) (l : list A) :
  (forall s x, same_host s (f s x)) ->
  forall s, same_host s (fold_left f l s).
Proof.
  intros Hf. induction l as [|x l IH]; intros s; simpl.
  - apply same_host_refl.
  - eapply same_host_trans; [apply Hf|apply IH].
Qed.

Lemma same_host_core s s' :
  core s' = core s -> m_inhibited s' = m_inhibited s -> same_host s s'.
Proof.
  unfold core. intros [= H1 H2 H3 H4 H5 H6] Hi. repeat split; congruence.
Qed.

Lemma host_synchronize_package pkg opts s :
  same_host s (synchronize_package pkg opts s).
Proof.
  unfold Transaction.synchronize_package. repeat case_match; repeat split.
Qed.

Lemma host_run_callback cb ri s : same_host s (run_callback cb ri s).
Proof.
  destruct cb as [|remote opts]; [apply same_host_refl|].
  unfold Transaction.run_callback.
  assert (Hsync : forall s0,
             same_host s0
               (fold_left (fun s pkg => synchronize_package pkg opts s)
                  (packages ri) s0)).
  { apply same_host_fold. intros. apply host_synchronize_package. }
  case_match; [|apply Hsync].
  eapply same_host_trans; [apply Hsync|].
  apply same_host_fold. intros s0 e. unfold obsolete_insert.
  repeat case_match; repeat split.
Qed.

Lemma host_load_then remote cb s : same_host s (load_then remote cb s).
Proof.
  unfold Transaction.load_then.
  assert (H : same_host s (snd (loadIndex loadV1 remote s)))
    by (unfold loadIndex; repeat case_match; repeat split).
  destruct (loadIndex loadV1 remote s) as [[ri|] s1]; simpl in H;
    [|exact H].
  eapply same_host_trans; [exact H|apply host_run_callback].
Qed.

Lemma host_pool_push job s : same_host s (pool_push job s).
Proof.
  unfold same_host, pool_push, registered. simpl. rewrite omap_snoc. simpl.
  now rewrite app_nil_r.
Qed.

Lemma host_fetchIndex remote stale cb s :
  same_host s (fetchIndex remote stale cb s).
Proof.
  unfold Transaction.fetchIndex. cbv zeta.
  case_match; [apply host_load_then|apply host_pool_push].
Qed.

Lemma host_synchronize remote force s :
  same_host s (synchronize remote force s).
Proof.
  unfold Transaction.synchronize. case_match; [apply same_host_refl|].
  cbv zeta.
  match goal with
  | |- same_host s (Transaction.fetchIndex _ _ ?r ?b ?cb ?x) =>
      eapply (same_host_trans s x); [repeat split|apply host_fetchIndex]
  end.
Qed.

Lemma host_download_finished remote cb outcome s :
  same_host s (download_finished remote cb outcome s).
Proof.
  assert (Hload : forall s1 (c : bool),
             same_host s s1 ->
             same_host s (if c then load_then remote cb s1 else s1)).
  { intros s1 c H. destruct c; [|exact H].
    eapply same_host_trans; [exact H|apply host_load_then]. }
  unfold Transaction.download_finished.
  destruct outcome; cbv zeta.
  - apply Hload. repeat split.
  - match goal with
    | |- same_host s (addError _ ?x) =>
        apply (same_host_trans s x); [apply Hload|]; repeat split
    end.
  - apply Hload. repeat split.
Qed.

Lemma host_start_queue queue : forall s, same_host s (start_queue queue s).
Proof.
  induction queue as [|task rest IH]; intros s; simpl;
    [apply same_host_refl|].
  eapply same_host_trans; [|apply IH].
  unfold Transaction.start_task. cbv zeta. rewrite pushes_state.
  unfold same_host, registered.
  destruct (Transaction.started (doStart task (working (m_registry s))));
    simpl; rewrite !omap_app, !omap_pushes by reflexivity; simpl;
    rewrite ?app_nil_r; repeat split.
Qed.

Lemma host_finish_running running : forall s,
  same_host s (finish_running running s).
Proof.
  induction running as [|front rest IH]; intros s; simpl;
    [apply same_host_refl|].
  eapply same_host_trans; [|apply IH].
  unfold same_host, registered, Transaction.commit_task,
    Transaction.rollback_task.
  destruct (m_isCancelled s); simpl; rewrite omap_snoc; simpl;
    rewrite app_nil_r; repeat split.
Qed.

Lemma host_run_queues queues : forall s,
  same_host s (snd (run_queues queues s)).
Proof.
  induction queues as [|queue rest IH]; intros s;
    [apply same_host_refl|].
  cbn [Transaction.run_queues].
  set (s1 := emit ESavepoint
               (set_registry (Registry.savepoint (m_registry s)) s)).
  assert (H1 : same_host s s1).
  { unfold same_host, registered, s1. simpl. rewrite omap_snoc. simpl.
    now rewrite app_nil_r. }
  pose proof (host_start_queue queue s1) as H2.
  set (s2 := Transaction.start_queue doStart queue s1) in *.
  set (s3 := set_taskQueues rest
               (emit ERestore
                  (set_registry (Registry.restore (m_registry s2)) s2))).
  assert (H3 : same_host s2 s3).
  { unfold same_host, registered, s3. simpl. rewrite omap_snoc. simpl.
    now rewrite app_nil_r. }
  assert (H03 : same_host s s3)
    by (eapply same_host_trans; [exact H1|];
        eapply same_host_trans; [exact H2|exact H3]).
  unfold Transaction.commitTasks.
  destruct (idle s3); cbn [negb fst snd]; [|exact H03].
  eapply same_host_trans; [exact H03|].
  eapply same_host_trans; [apply host_finish_running|apply IH].
Qed.

Lemma in_host_calls served after ticket last :
  (ticket, last) ∈ host_calls served after -> ticket ∈ served.
Proof.
  induction served as [|reg more IH]; simpl; [intros H; inversion H|].
  rewrite elem_of_app. intros [H|H].
  - destruct (reaches_host reg); [|inversion H].
    apply list_elem_of_singleton in H. injection H as -> _.
    apply list_elem_of_here.
  - apply list_elem_of_further, IH, H.
Qed.

Lemma split_at_refused s queue :
  exists served rest,
    queue = served ++ rest
    /\ forallb (fun reg => negb (refused s reg)) served = true
    /\ match rest with [] => True | reg :: _ => refused s reg = true end.
Proof.
  induction queue as [|reg queue IH].
  - exists [], []. repeat split.
  - destruct (refused s reg) eqn:Hr.
    + exists [], (reg :: queue). repeat split. exact Hr.
    + destruct IH as (served & rest & -> & Hs & Hrest).
      exists (reg :: served), rest. simpl. rewrite Hr, Hs.
      repeat split. exact Hrest.
Qed.

(** What [runTasks] tells the host. *)
Lemma host_runTasks s :
  let s' := snd (runTasks s) in
  m_inhibited s' = m_inhibited s
  /\ exists served after,
       registered (trace s')
       = registered (trace s) ++ host_calls served after
       /\ forallb (fun reg => negb (refused s' reg)) served = true
       /\ (finished s' = false -> served = []).
Proof.
  unfold Transaction.runTasks.
  match goal with
  | |- context [Transaction.commitTasks _ _ ?x] => set (s0 := x)
  end.
  assert (H0 : same_host s s0)
    by (unfold s0; destruct (m_nextQueue s); repeat split).
  assert (Hquiet : forall s', same_host s s' ->
             m_inhibited s' = m_inhibited s
             /\ exists served after,
                  registered (trace s')
                  = registered (trace s) ++ host_calls served after
                  /\ forallb (fun reg => negb (refused s' reg)) served = true
                  /\ (finished s' = false -> served = [])).
  { intros s' (H1 & H2 & H3). split; [exact H2|].
    exists [], 0%nat. simpl. rewrite app_nil_r. auto. }
  unfold Transaction.commitTasks.
  destruct (idle s0); cbn [negb fst snd]; [|apply Hquiet, H0].
  pose proof (host_finish_running (m_runningTasks s0) s0) as H1.
  set (s1 := Transaction.finish_running doCommit doRollback
               (m_runningTasks s0) s0) in *.
  assert (H01 : same_host s s1) by (eapply same_host_trans; eassumption).
  destruct (m_isCancelled s1).
  { cbn [snd]. destruct H01 as (K1 & K2 & K3). split; [exact K2|].
    exists [], 0%nat. unfold finish, registered in *. simpl.
    rewrite omap_snoc. simpl. rewrite !app_nil_r. auto. }
  assert (H2 : same_host s1 (promptObsolete s1)).
  { apply same_host_core; [apply core_promptObsolete|].
    unfold Transaction.promptObsolete. repeat case_match; reflexivity. }
  set (s2 := Transaction.promptObsolete m_promptObsolete s1) in *.
  pose proof (host_run_queues (m_taskQueues s2) s2) as H3.
  assert (H03 : same_host s (snd (run_queues (m_taskQueues s2) s2))).
  { eapply same_host_trans; [exact H01|].
    eapply same_host_trans; [exact H2|exact H3]. }
  destruct (run_queues (m_taskQueues s2) s2) as [[|] s3];
    cbn [fst snd] in *; [|apply Hquiet, H03].
  set (s4 := emit ERegistryCommit
               (set_registry (Registry.commit (m_registry s3)) s3)).
  destruct (split_at_refused s4 (m_regQueue s4))
    as (served & rest & Hq & Hs & Hr).
  destruct (registerQueued_from_served served rest s4 Hq Hs Hr)
    as (K1 & K2 & K3).
  destruct H03 as (L1 & L2 & L3).
  unfold registerQueued. rewrite Hq.
  set (s5 := registerQueued_from (served ++ rest) s4) in *.
  split; [simpl; rewrite K3; exact L2|].
  exists served, (length rest). split; [|split].
  - unfold finish, registered in *. simpl. rewrite omap_snoc. simpl.
    rewrite app_nil_r, K1. unfold s4. simpl. rewrite omap_snoc. simpl.
    now rewrite app_nil_r, L1.
  - rewrite forallb_forall in *. intros x Hx. specialize (Hs x Hx).
    unfold refused in *. simpl. rewrite K3. exact Hs.
  - simpl. intros Hf. discriminate Hf.
Qed.

Lemma inhibited_uninstall_remote remote s :
  m_inhibited (uninstall_remote remote s)
  = {[Config.name remote]} ∪ m_inhibited s.
Proof.
  unfold uninstall_remote.
  match goal with
  | |- context [fold_left ?f ?l ?x] =>
      assert (H : forall l0 s0, m_inhibited (fold_left f l0 s0)
                                = m_inhibited s0)
  end.
  { induction l0 as [|e l0 IH]; intros s0; simpl; [reflexivity|].
    now rewrite IH. }
  rewrite H. case_match; reflexivity.
Qed.

Lemma regQueue_registerAll_entry add entry s :
  let s' := registerAll_entry add entry s in
  m_regQueue s'
  = m_regQueue s
    ++ map (mkTicket add entry) (getMainFiles (m_registry s) entry)
  /\ m_registry s' = m_registry s /\ m_inhibited s' = m_inhibited s
  /\ m_syncedRemotes s' = m_syncedRemotes s.
Proof.
  unfold registerAll_entry.
  generalize (getMainFiles (m_registry s) entry). intros files.
  revert s. induction files as [|f files IH]; intros s; simpl.
  - now rewrite app_nil_r.
  - destruct (IH (registerFile (mkTicket add entry f) s))
      as (H1 & H2 & H3 & H4).
    rewrite H1, H2, H3, H4. simpl. rewrite <- app_assoc. auto.
Qed.

Lemma regQueue_registerAll_entries add entries : forall s,
  let s' := fold_left (fun s entry => registerAll_entry add entry s)
              entries s in
  m_regQueue s'
  = m_regQueue s
    ++ flat_map
         (fun entry =>
            map (mkTicket add entry) (getMainFiles (m_registry s) entry))
         entries
  /\ m_registry s' = m_registry s /\ m_inhibited s' = m_inhibited s
  /\ m_syncedRemotes s' = m_syncedRemotes s.
Proof.
  induction entries as [|e entries IH]; intros s; simpl.
  - now rewrite app_nil_r.
  - destruct (regQueue_registerAll_entry add e s) as (H1 & H2 & H3 & H4).
    destruct (IH (registerAll_entry add e s)) as (K1 & K2 & K3 & K4).
    rewrite K1, K2, K3, K4, H1, H2, H3, H4, <- app_assoc. auto.
Qed.

Lemma quiet_step s s' :
  registered (trace s') = registered (trace s) ->
  m_inhibited s ⊆ m_inhibited s' ->
  m_inhibited s ⊆ m_inhibited s'
  /\ exists served after,
       registered (trace s')
       = registered (trace s) ++ host_calls served after
       /\ forallb (fun reg => negb (refused s' reg)) served = true
       /\ (finished s' = false -> served = []).
Proof.
  intros H1 H2. split; [exact H2|]. exists [], 0%nat. simpl.
  rewrite app_nil_r. auto.
Qed.

Lemma same_host_quiet s s' :
  same_host s s' ->
  m_inhibited s ⊆ m_inhibited s'
  /\ exists served after,
       registered (trace s')
       = registered (trace s) ++ host_calls served after
       /\ forallb (fun reg => negb (refused s' reg)) served = true
       /\ (finished s' = false -> served = []).
Proof.
  intros (H1 & H2 & H3). apply quiet_step; [exact H1|]. now rewrite H2.
Qed.

Lemma host_runTasks_from s s1 :
  same_host s s1 ->
  let s' := snd (runTasks s1) in
  m_inhibited s ⊆ m_inhibited s'
  /\ exists served after,
       registered (trace s')
       = registered (trace s) ++ host_calls served after
       /\ forallb (fun reg => negb (refused s' reg)) served = true
       /\ (finished s' = false -> served = []).
Proof.
  intros (H1 & H2 & H3).
  destruct (host_runTasks s1) as (K1 & served & after & K2 & K3 & K4).
  cbv zeta. rewrite K1, H2. split; [reflexivity|].
  exists served, after. rewrite K2, H1. auto.
Qed.

(** What one step of a transaction tells the host, and what it does to
    the inhibited remotes. *)
Lemma host_step a s :
  let s' := step a s in
  m_inhibited s ⊆ m_inhibited s'
  /\ exists served after,
       registered (trace s')
       = registered (trace s) ++ host_calls served after
       /\ forallb (fun reg => negb (refused s' reg)) served = true
       /\ (finished s' = false -> served = []).
Proof.
  unfold Transaction.step.
  destruct (finished s); [apply same_host_quiet, same_host_refl|].
  destruct a as [rem force|rems stale|ver pin reader|e pin|e|rem|rem| |
                 |i outcome].
  - apply same_host_quiet, host_synchronize.
  - apply same_host_quiet. unfold Transaction.fetchIndexes.
    apply same_host_fold. intros. apply host_fetchIndex.
  - apply same_host_quiet. repeat split.
  - apply same_host_quiet. repeat split.
  - apply same_host_quiet. repeat split.
  - apply quiet_step.
    + pose proof (core_uninstall_remote rem s) as H.
      unfold core in H. injection H as _ _ _ _ _ ->. reflexivity.
    + rewrite inhibited_uninstall_remote. apply union_subseteq_r.
  - apply quiet_step.
    + pose proof (core_registerAll rem s) as H.
      unfold core in H. injection H as _ _ _ _ _ ->. reflexivity.
    + unfold registerAll.
      destruct (regQueue_registerAll_entries (Config.isEnabled rem)
                  (getEntries (m_registry s) (Config.name rem)) s)
        as (_ & _ & Hi & _).
      destruct (Config.isEnabled rem); simpl; rewrite Hi;
        [reflexivity|apply union_subseteq_r].
  - apply host_runTasks_from, same_host_refl.
  - apply same_host_quiet. repeat split.
  - unfold Transaction.thread_finished.
    destruct (m_threadPool s !! i) as [job|];
      [|apply same_host_quiet, same_host_refl].
    match goal with
    | |- context [idle ?x] => set (s2 := x)
    end.
    assert (H2 : same_host s s2).
    { unfold s2.
      match goal with
      | |- context [emit ?e ?x] =>
          assert (H1 : same_host s (emit e x))
      end.
      { unfold same_host, registered. simpl. rewrite omap_snoc. simpl.
        now rewrite app_nil_r. }
      destruct job as [rem cb|task].
      - eapply same_host_trans; [exact H1|apply host_download_finished].
      - destruct outcome; exact H1. }
    destruct (idle s2); [|apply same_host_quiet, H2].
    apply host_runTasks_from, H2.
Qed.

Lemma step_respects a s :
  host_respects_inhibited s -> host_respects_inhibited (step a s).
Proof.
  intros [Hq Hr].
  destruct (finished s) eqn:Hf.
  { unfold Transaction.step. rewrite Hf.
    split; [intros H; congruence|exact Hr]. }
  destruct (host_step a s) as (Hi & served & after & H1 & H2 & H3).
  rewrite (Hq eq_refl) in H1. simpl in H1.
  split.
  - intros Hf'. rewrite H1, (H3 Hf'). reflexivity.
  - intros ticket last Hin Hadd. rewrite H1 in Hin.
    apply in_host_calls in Hin.
    rewrite forallb_forall in H2.
    assert (Hx : negb (refused (step a s) ticket) = true).
    { apply H2. apply list_elem_of_In. exact Hin. }
    apply negb_true_iff in Hx. unfold refused in Hx.
    rewrite Hadd in Hx. simpl in Hx.
    apply bool_decide_eq_false in Hx. exact Hx.
Qed.

Lemma run_respects actions : forall s,
  host_respects_inhibited s -> host_respects_inhibited (run actions s).
Proof.
  induction actions as [|a actions IH]; intros s H; simpl; [exact H|].
  apply IH, step_respects, H.
Qed.

Lemma run_inhibited actions : forall s,
  m_inhibited s ⊆ m_inhibited (run actions s).
Proof.
  induction actions as [|a actions IH]; intros s; simpl; [reflexivity|].
  etrans; [|apply IH]. apply host_step.
Qed.

End HostFacts.

(** X13. [registerAll] of a remote does not call the host: it queues, for
    each package of the remote the registry knows and each main file of
    it, in that order, a ticket that adds the file when the remote is
    enabled and removes it when the remote is disabled.  A disabled
    remote is also inhibited and is no longer taken as synchronised; an
    enabled one changes neither set. *)
Theorem registerAll_queues_tickets
    (remote : Config.Remote) (s : Transaction.t) :
  let s' := Transaction.registerAll remote s in
  let name := Config.name remote in
  Transaction.m_regQueue s'
  = Transaction.m_regQueue s
    ++ flat_map
         (fun entry =>
            map (Transaction.mkTicket (Config.isEnabled remote) entry)
              (Registry.getMainFiles (Transaction.m_registry s) entry))
         (Registry.getEntries (Transaction.m_registry s) name)
  /\ Transaction.trace s' = Transaction.trace s
  /\ Transaction.m_registry s' = Transaction.m_registry s
  /\ (if Config.isEnabled remote
      then Transaction.m_inhibited s' = Transaction.m_inhibited s
           /\ Transaction.m_syncedRemotes s' = Transaction.m_syncedRemotes s
      else Transaction.m_inhibited s' = {[name]} ∪ Transaction.m_inhibited s
           /\ Transaction.m_syncedRemotes s'
              = Transaction.m_syncedRemotes s ∖ {[name]}).
Proof.
  intros s' name.
  pose proof (core_registerAll remote s) as Hcore.
  unfold Protocol.core in Hcore. injection Hcore as _ _ _ _ _ Htrace.
  destruct (regQueue_registerAll_entries (Config.isEnabled remote)
              (Registry.getEntries (Transaction.m_registry s) name) s)
    as (H1 & H2 & H3 & H4).
  unfold s', Transaction.registerAll in *. fold name in H1, H2, H3, H4 |- *.
  destruct (Config.isEnabled remote); simpl in *;
    rewrite H1, H2, H3, H4; repeat split; auto.
Qed.

(** X14. Once a remote has been uninstalled, or disabled through
    [registerAll], in a transaction that has not finished, that
    transaction never adds a file of this remote to the host, whatever is
    asked of it before and afterwards (enabling the remote again
    included): [m_inhibited] only grows, and [registerQueued], the only
    caller of the host, refuses the additions for inhibited remotes. *)
Theorem inhibited_remote_is_not_registered
    (loadV1 : TiXmlElement -> Index.t -> result Index.t)
    (lastVersion : Index.Package -> bool -> Version.t -> option Index.IVersion)
    (m_promptObsolete : list Registry.Entry -> bool * list Registry.Entry)
    (doStart : Transaction.Task -> Registry.table -> Transaction.StartResult)
    (doCommit : Transaction.Task -> Registry.table -> Transaction.CommitResult)
    (doRollback : Transaction.Task -> list Transaction.ErrorInfo)
    (config : Config.t) (db : Registry.table) (files : FS.t) (time : Z)
    (pre post : list Transaction.Action) (a : Transaction.Action)
    (remote : Config.Remote) :
  a = Transaction.AUninstallRemote remote
  \/ (a = Transaction.ARegisterAll remote
      /\ Config.isEnabled remote = false) ->
  let run := Transaction.run loadV1 lastVersion m_promptObsolete doStart
               doCommit doRollback in
  let init := Transaction.create config db files time in
  Transaction.finished (run pre init) = false ->
  forall ticket last,
    (ticket, last)
      ∈ Ledger.registered (Transaction.trace (run (pre ++ a :: post) init)) ->
    Transaction.add ticket = true ->
    Registry.remote (Transaction.entry ticket) <> Config.name remote.
Proof.
  intros Ha run init Hf ticket last Hin Hadd Hname.
  set (step := Transaction.step loadV1 lastVersion m_promptObsolete doStart
                 doCommit doRollback).
  assert (Happ : run (pre ++ a :: post) init
                 = run post (step a (run pre init))).
  { unfold run, Transaction.run. rewrite fold_left_app. reflexivity. }
  rewrite Happ in Hin.
  assert (Hinit : Ledger.host_respects_inhibited init).
  { split; [reflexivity|]. intros t l H. inversion H. }
  pose proof (run_respects loadV1 lastVersion m_promptObsolete doStart
                doCommit doRollback pre init Hinit) as H1.
  pose proof (step_respects loadV1 lastVersion m_promptObsolete doStart
                doCommit doRollback a _ H1) as H2.
  pose proof (run_respects loadV1 lastVersion m_promptObsolete doStart
                doCommit doRollback post _ H2) as [_ Hr].
  apply (Hr ticket last Hin Hadd).
  apply (run_inhibited loadV1 lastVersion m_promptObsolete doStart
           doCommit doRollback post).
  rewrite Hname. unfold Transaction.step. fold run. rewrite Hf.
  destruct Ha as [->|[-> He]].
  - rewrite inhibited_uninstall_remote. set_solver.
  - unfold Transaction.registerAll. rewrite He. simpl. set_solver.
Qed.

Lemma inhibited_remote_is_not_registered_witness :
  let run := Transaction.run Examples.loadV1 Examples.lastVersion
               Examples.promptObsolete Examples.doStart Examples.doCommit
               Examples.doRollback in
  let init := Transaction.create Examples.config
                (Examples.db Examples.entry_free) Examples.disk
                Examples.noon in
  let actions := [Transaction.ARegisterAll Examples.repo;
                  Transaction.AUninstallRemote Examples.repo;
                  Transaction.ARunTasks] in
  Transaction.finished (run [Transaction.ARegisterAll Examples.repo] init)
  = false
  /\ forall ticket last,
       (ticket, last)
         ∈ Ledger.registered (Transaction.trace (run actions init)) ->
       Transaction.add ticket = true ->
       Registry.remote (Transaction.entry ticket)
       <> Config.name Examples.repo.
Proof.
  intros run init actions. split; [reflexivity|].
  apply (inhibited_remote_is_not_registered Examples.loadV1
           Examples.lastVersion Examples.promptObsolete Examples.doStart
           Examples.doCommit Examples.doRollback Examples.config
           (Examples.db Examples.entry_free) Examples.disk Examples.noon
           [Transaction.ARegisterAll Examples.repo] [Transaction.ARunTasks]
           (Transaction.AUninstallRemote Examples.repo) Examples.repo).
  - left. reflexivity.
  - reflexivity.
Defined.

(** ** Inhibiting a remote whose index is being downloaded *)

Section InhibitFacts.

Import Index Registry Transaction Ledger.

Variable loadV1 : TiXmlElement -> Index.t -> result Index.t.
Variable lastVersion : Package -> bool -> Version.t -> option IVersion.

Local Abbreviation synchronize_package := (synchronize_package lastVersion).
Local Abbreviation run_callback := (run_callback lastVersion).
Local Abbreviation load_then := (load_then loadV1 lastVersion).
Local Abbreviation download_finished := (download_finished loadV1 lastVersion).

(** [m_inhibited] and [m_syncedRemotes] are overwritten. *)
Local Abbreviation marked v w s :=
  (set_inhibited v (set_syncedRemotes w s)).

Lemma marked_fold {A} (f : t -> A -> t) (l : list A) :
  (forall v w s x, f (marked v w s) x = marked v w (f s x)) ->
  forall v w s, fold_left f l (marked v w s) = marked v w (fold_left f l s).
Proof.
  intros Hf v w. induction l as [|x l IH]; intros s; simpl; [reflexivity|].
  rewrite Hf. apply IH.
Qed.

Lemma marked_synchronize_package pkg opts v w s :
  synchronize_package pkg opts (marked v w s)
  = marked v w (synchronize_package pkg opts s).
Proof.
  unfold Transaction.synchronize_package, allFilesExists. simpl.
  repeat case_match; reflexivity.
Qed.

Lemma marked_run_callback cb ri v w s :
  run_callback cb ri (marked v w s) = marked v w (run_callback cb ri s).
Proof.
  destruct cb as [|remote opts]; [reflexivity|].
  unfold Transaction.run_callback.
  rewrite (marked_fold (fun s pkg => synchronize_package pkg opts s))
    by (intros; apply marked_synchronize_package).
  simpl. case_match; [|reflexivity].
  apply marked_fold. intros v0 w0 s0 e.
  case_match; [reflexivity|].
  unfold obsolete_insert. simpl. case_match; reflexivity.
Qed.

Lemma marked_load_then remote cb v w s :
  load_then remote cb (marked v w s) = marked v w (load_then remote cb s).
Proof.
  unfold Transaction.load_then, loadIndex.
  change (m_indexes (marked v w s)) with (m_indexes s).
  change (fs (marked v w s)) with (fs s).
  destruct (m_indexes s !! Config.name remote) as [ri|].
  - apply marked_run_callback.
  - destruct (Index.load loadV1 (fs s) (Config.name remote)) as [ri|what].
    + rewrite <- marked_run_callback. reflexivity.
    + reflexivity.
Qed.

Lemma marked_addError e v w s :
  addError e (marked v w s) = marked v w (addError e s).
Proof. reflexivity. Qed.

Lemma marked_try_load remote cb path v w s :
  (if FS.exists_ (fs (marked v w s)) path
   then load_then remote cb (marked v w s) else marked v w s)
  = marked v w (if FS.exists_ (fs s) path then load_then remote cb s else s).
Proof.
  change (fs (marked v w s)) with (fs s).
  destruct (FS.exists_ (fs s) path); [apply marked_load_then|reflexivity].
Qed.

Lemma marked_download_finished remote cb outcome v w s :
  download_finished remote cb outcome (marked v w s)
  = marked v w (download_finished remote cb outcome s).
Proof.
  unfold Transaction.download_finished.
  destruct outcome; cbv zeta.
  - rewrite <- marked_try_load. reflexivity.
  - rewrite <- marked_addError, <- marked_try_load. reflexivity.
  - rewrite <- marked_try_load. reflexivity.
Qed.

Lemma marked_same s : marked (m_inhibited s) (m_syncedRemotes s) s = s.
Proof. destruct s; reflexivity. Qed.

Lemma download_finished_marks remote cb outcome s :
  m_inhibited (download_finished remote cb outcome s) = m_inhibited s
  /\ m_syncedRemotes (download_finished remote cb outcome s)
     = m_syncedRemotes s.
Proof.
  rewrite <- (marked_same s) at 1 3.
  rewrite marked_download_finished. split; reflexivity.
Qed.

End InhibitFacts.

(** X15. Inhibiting a remote does not stop what the end of the download
    of an index does: the index is saved and loaded and the callback of
    [synchronize] queues its installations all the same, whether the
    remote was inhibited before the download ended or after it. *)
Theorem inhibit_leaves_download_callback
    (loadV1 : TiXmlElement -> Index.t -> result Index.t)
    (lastVersion : Index.Package -> bool -> Version.t -> option Index.IVersion)
    (inhibited remote : Config.Remote) (cb : Transaction.IndexCallback)
    (outcome : Transaction.Outcome) (s : Transaction.t) :
  Transaction.download_finished loadV1 lastVersion remote cb outcome
    (Transaction.inhibit inhibited s)
  = Transaction.inhibit inhibited
      (Transaction.download_finished loadV1 lastVersion remote cb outcome s).
Proof.
  unfold Transaction.inhibit at 2.
  destruct (download_finished_marks loadV1 lastVersion remote cb outcome s)
    as [-> ->].
  unfold Transaction.inhibit.
  apply marked_download_finished.
Qed.

(** ** The lines of an archive *)

Section PackFacts.

Import Index Registry Archive.

Lemma append_cons c (a b : string) : String c a +:+ b = String c (a +:+ b).
Proof. reflexivity. Qed.

Lemma append_nil_l (b : string) : EmptyString +:+ b = b.
Proof. reflexivity. Qed.

Lemma append_assoc_s (a b c : string) : (a +:+ b) +:+ c = a +:+ b +:+ c.
Proof.
  induction a as [|x a IH]; [reflexivity|].
  rewrite !append_cons. f_equal. exact IH.
Qed.

Lemma append_nil_s (a : string) : a +:+ EmptyString = a.
Proof.
  induction a as [|x a IH]; [reflexivity|].
  rewrite append_cons. f_equal. exact IH.
Qed.

Lemma substring_all (s : string) : substring 0 (String.length s) s = s.
Proof. induction s as [|x s IH]; simpl; [reflexivity|]. f_equal. exact IH. Qed.

Lemma read_quoted_escape s : forall acc rest,
  read_quoted acc (escape s +:+ String dquote rest)
  = (acc +:+ s, {| buf := rest; eofbit := false; failbit := false |}).
Proof.
  induction s as [|c s IH]; intros acc rest.
  - cbn [escape]. rewrite append_nil_l, append_nil_s. reflexivity.
  - cbn [escape].
    destruct (Ascii.eqb c dquote || Ascii.eqb c "\")%bool eqn:Hc.
    + rewrite !append_cons. cbn [read_quoted]. rewrite Ascii.eqb_refl.
      rewrite IH, append_assoc_s. reflexivity.
    + apply orb_false_iff in Hc as [Hq Hb].
      rewrite append_cons. cbn [read_quoted]. rewrite Hb. unfold dquote in Hq.
      rewrite Hq, IH, append_assoc_s. reflexivity.
Qed.

(** Reading back what [write_quoted] wrote, with what follows it. *)
Lemma quoted_write_quoted str s rest (lead : string) :
  skip_spaces lead = EmptyString ->
  quoted str
    {| buf := lead +:+ write_quoted s +:+ rest;
       eofbit := false; failbit := false |}
  = (s, {| buf := rest; eofbit := false; failbit := false |}).
Proof.
  intros Hlead. unfold quoted, sentry, good. cbn [eofbit failbit buf negb andb].
  assert (Hskip : forall tail,
             skip_spaces (lead +:+ String dquote tail) = String dquote tail).
  { clear - Hlead. induction lead as [|c lead IH]; intros tail.
    - reflexivity.
    - rewrite append_cons. cbn [skip_spaces] in *.
      destruct (is_space c); [apply IH, Hlead|discriminate]. }
  unfold write_quoted. rewrite append_cons, Hskip.
  rewrite Ascii.eqb_refl, append_assoc_s, append_cons, append_nil_l.
  apply read_quoted_escape.
Qed.

Lemma read_pack_pack_fields c p v (b : bool) :
  read_pack (write_quoted c +:+ " " +:+ write_quoted p +:+ " "
             +:+ write_quoted v +:+ " " +:+ (if b then "1" else "0"))
  = mkPack c p v b.
Proof.
  unfold read_pack.
  rewrite <- (append_nil_l (write_quoted c +:+ _)).
  rewrite (quoted_write_quoted EmptyString c _ EmptyString eq_refl).
  rewrite (quoted_write_quoted EmptyString p _ " " eq_refl).
  rewrite (quoted_write_quoted EmptyString v _ " " eq_refl).
  destruct b; reflexivity.
Qed.

Lemma substr_from_pack data : substr_from 5 ("PACK " +:+ data) = data.
Proof.
  unfold substr_from. rewrite !append_cons, append_nil_l. simpl.
  rewrite Nat.sub_0_r. apply substring_all.
Qed.

Lemma substr_pack_line e :
  substr_from 5 (pack_line e)
  = write_quoted (category e) +:+ " " +:+ write_quoted (package e) +:+ " "
    +:+ write_quoted (Version.name (version e)) +:+ " "
    +:+ (if pinned e then "1" else "0").
Proof. unfold pack_line. apply substr_from_pack. Qed.

End PackFacts.

(** X16. The fields [importPackage] reads from a PACK line written by
    [Archive::create] for an entry of the registry are the category, the
    package, the version name and the pinned flag of that entry,
    whatever characters the names are made of (quotes, backslashes and
    white space included). *)
Theorem pack_line_round_trip (e : Registry.Entry) :
  Archive.read_pack (Archive.substr_from 5 (Archive.pack_line e))
  = Archive.mkPack (Registry.category e) (Registry.package e)
      (Version.name (Registry.version e)) (Registry.pinned e).
Proof.
  unfold Archive.pack_line. rewrite substr_from_pack.
  apply read_pack_pack_fields.
Qed.

(** X17. A PACK line written by [Archive::create] for an entry, read by
    the loop of [Archive::import] while the index of its repository is
    loaded and lists the package and the version, queues the
    installation of that version from the archive, pinned as the entry
    was, and adds no error. *)
Theorem exported_pack_line_installs
    (loadV1 : TiXmlElement -> Index.t -> result Index.t)
    (fromString : string -> Config.Remote)
    (findVersion : Index.Package -> string -> result (option Index.IVersion))
    (st : Archive.ImportArchive) (e : Registry.Entry)
    (ri : Index.t) (pkg : Index.Package) (ver : Index.IVersion) :
  Archive.m_lastIndex st = Some ri ->
  Index.find ri (Registry.category e) (Registry.package e) = Some pkg ->
  findVersion pkg (Version.name (Registry.version e)) = Ok (Some ver) ->
  Archive.import_line loadV1 fromString findVersion st (Archive.pack_line e)
  = Archive.set_tx
      (Transaction.install (Transaction.mkRef pkg ver) (Registry.pinned e)
         (Some (Archive.path st)) (Archive.m_tx st)) st.
Proof.
  intros Hri Hpkg Hver. unfold Archive.import_line.
  rewrite substr_pack_line.
  match goal with
  | |- context [Archive.importPackage _ ?d] => remember d as data eqn:Hdata
  end.
  unfold Archive.pack_line.
  rewrite !append_cons. cbn [String.length Nat.leb String.get].
  subst data. unfold Archive.importPackage. rewrite Hri.
  rewrite read_pack_pack_fields. cbn [Archive.categoryName Archive.packageName
    Archive.versionName Archive.pinned_flag].
  rewrite Hpkg, Hver. reflexivity.
Qed.

Lemma exported_pack_line_installs_witness :
  let tx := Transaction.create Examples.config
              (Examples.db Examples.entry_free) Examples.disk Examples.noon in
  let st := Archive.mkImport "backup.zip" ∅ tx (Some Examples.index_new) in
  Archive.import_line Examples.loadV1 Examples.fromString
    Examples.findVersion st (Archive.pack_line Examples.entry_pinned)
  = Archive.set_tx
      (Transaction.install
         (Transaction.mkRef Examples.pkg_new Examples.script_1_0) true
         (Some "backup.zip") tx) st.
Proof.
  intros tx st.
  apply (exported_pack_line_installs Examples.loadV1 Examples.fromString
           Examples.findVersion st Examples.entry_pinned Examples.index_new
           Examples.pkg_new Examples.script_1_0); reflexivity.
Defined.

(** ** The table of contents [Archive::create] writes *)

Section CreateFacts.

Import Index Registry ArchiveCreate.

Variable toString : Config.Remote -> string.
Variable files : FS.t.
Variable reg : Registry.t.

Local Abbreviation compress := (compress files).
Local Abbreviation add_entry := (add_entry toString files reg).
Local Abbreviation add_remote := (add_remote toString files reg).
Local Abbreviation create := (create toString files reg).
Local Abbreviation lines_of := (lines_of toString reg).
Local Abbreviation paths_of := (paths_of reg).

Lemma unlines_app l1 l2 : unlines (l1 ++ l2) = unlines l1 +:+ unlines l2.
Proof.
  induction l1 as [|x l1 IH]; [reflexivity|].
  simpl. rewrite IH, !append_assoc_s. reflexivity.
Qed.

Lemma compress_files paths : forall x,
  let x' := fold_left (fun x p => compress p x) paths x in
  count x' = count x /\ toc x' = toc x
  /\ jobs x' = jobs x ++ List.filter (FS.exists_ files) paths
  /\ errors x'
     = errors x
       ++ map report (List.filter (fun p => negb (FS.exists_ files p)) paths).
Proof.
  induction paths as [|p paths IH]; intros x; simpl.
  - now rewrite !app_nil_r.
  - destruct (IH (compress p x)) as (H1 & H2 & H3 & H4).
    rewrite H1, H2, H3, H4. unfold ArchiveCreate.compress.
    destruct (FS.exists_ files p); simpl; rewrite <- ?app_assoc; auto.
Qed.

Lemma fold_left_map {A B C} (f : A -> C -> A) (g : B -> C) l : forall a,
  fold_left (fun a x => f a (g x)) l a = fold_left f (map g l) a.
Proof. induction l as [|x l IH]; intros a; simpl; [reflexivity|apply IH]. Qed.

(** The loop over the entries of a remote, started with any flag. *)
Lemma add_entries remote entries : forall (added : bool) x,
  let r := fold_left (add_entry remote) entries (added, x) in
  let head (l : list string) :=
    match entries with
    | [] => []
    | _ => if added then [] else l
    end in
  count (snd r) = (count x + length entries)%nat
  /\ toc (snd r)
     = toc x +:+ unlines (head ["REPO " +:+ toString remote]
                          ++ map Archive.pack_line entries)
  /\ jobs (snd r)
     = jobs x
       ++ List.filter (FS.exists_ files)
            (head [pathFor (Config.name remote)]
             ++ flat_map (fun e => map path (getFiles reg e)) entries)
  /\ errors (snd r)
     = errors x
       ++ map report
            (List.filter (fun p => negb (FS.exists_ files p))
               (head [pathFor (Config.name remote)]
                ++ flat_map (fun e => map path (getFiles reg e)) entries)).
Proof.
  induction entries as [|e entries IH]; intros added x.
  - simpl. rewrite !app_nil_r, append_nil_s. repeat split. lia.
  - set (xc := mk (S (count x)) (toc x) (jobs x) (errors x)).
    set (x0 := write (Archive.pack_line e +:+ endl)
                 (if added then xc
                  else compress (pathFor (Config.name remote))
                         (write ("REPO " +:+ toString remote +:+ endl) xc))).
    set (x1 := fold_left (fun x p => compress p x)
                 (map path (getFiles reg e)) x0).
    assert (Hstep : add_entry remote (added, x) e = (true, x1)).
    { unfold ArchiveCreate.add_entry, x1, x0, xc.
      rewrite (fold_left_map (fun x p => compress p x) path). reflexivity. }
    cbn [fold_left]. rewrite Hstep.
    destruct (compress_files (map path (getFiles reg e)) x0)
      as (H1 & H2 & H3 & H4).
    fold x1 in H1, H2, H3, H4.
    destruct (IH true x1) as (K1 & K2 & K3 & K4).
    cbv zeta in *. rewrite K1, K2, K3, K4, H1, H2, H3, H4.
    assert (Hhead : forall l : list string,
               match entries with [] => [] | _ :: _ => @nil string end ++ l
               = l) by (intros; destruct entries; reflexivity).
    rewrite !Hhead.
    unfold x0, xc.
    destruct added; unfold ArchiveCreate.compress, write; simpl;
      [|destruct (FS.exists_ files (pathFor (Config.name remote)))];
      simpl; rewrite ?List.filter_app, ?map_app, <- ?app_assoc,
        ?append_assoc_s;
      simpl; repeat split; try lia.
Qed.

Lemma add_remote_effect remote x :
  let x' := add_remote x remote in
  count x' = (count x + length (getEntries reg (Config.name remote)))%nat
  /\ toc x' = toc x +:+ unlines (lines_of remote)
  /\ jobs x' = jobs x ++ List.filter (FS.exists_ files) (paths_of remote)
  /\ errors x'
     = errors x
       ++ map report
            (List.filter (fun p => negb (FS.exists_ files p))
               (paths_of remote)).
Proof.
  unfold ArchiveCreate.add_remote, ArchiveCreate.lines_of,
    ArchiveCreate.paths_of.
  destruct (add_entries remote (getEntries reg (Config.name remote)) false x)
    as (H1 & H2 & H3 & H4).
  cbv zeta. rewrite H1, H2, H3, H4.
  destruct (getEntries reg (Config.name remote)); repeat split.
Qed.

Lemma add_remotes_effect remotes : forall x,
  let x' := fold_left add_remote remotes x in
  count x'
  = (count x
     + length (flat_map (fun r => getEntries reg (Config.name r)) remotes))%nat
  /\ toc x' = toc x +:+ unlines (flat_map lines_of remotes)
  /\ jobs x'
     = jobs x ++ List.filter (FS.exists_ files) (flat_map paths_of remotes)
  /\ errors x'
     = errors x
       ++ map report
            (List.filter (fun p => negb (FS.exists_ files p))
               (flat_map paths_of remotes)).
Proof.
  induction remotes as [|r remotes IH]; intros x.
  - simpl. rewrite !app_nil_r, append_nil_s. repeat split. lia.
  - cbn [fold_left flat_map].
    destruct (add_remote_effect r x) as (H1 & H2 & H3 & H4).
    destruct (IH (add_remote x r)) as (K1 & K2 & K3 & K4).
    cbv zeta in *. rewrite K1, K2, K3, K4, H1, H2, H3, H4.
    rewrite length_app, unlines_app, !List.filter_app, map_app,
      <- !app_assoc, append_assoc_s.
    repeat split. lia.
Qed.

Lemma getlines_line line : forall cur rest,
  one_line line = true ->
  Archive.getlines cur (line +:+ endl +:+ rest)
  = (cur +:+ line) :: Archive.getlines EmptyString rest.
Proof.
  induction line as [|c line IH]; intros cur rest Hline.
  - unfold endl. rewrite append_nil_l, append_cons, append_nil_l, append_nil_s.
    cbn [Archive.getlines]. rewrite Ascii.eqb_refl. reflexivity.
  - cbn [one_line] in Hline. apply andb_true_iff in Hline as [Hc Hline].
    apply negb_true_iff in Hc.
    rewrite append_cons. cbn [Archive.getlines]. rewrite Hc.
    rewrite IH, append_assoc_s by exact Hline. reflexivity.
Qed.

Lemma getlines_unlines lines :
  forallb one_line lines = true ->
  Archive.getlines EmptyString (unlines lines) = lines.
Proof.
  induction lines as [|line lines IH]; [reflexivity|].
  cbn [forallb unlines fold_right]. intros H.
  apply andb_true_iff in H as [Hline Hlines].
  fold (unlines lines). rewrite getlines_line by exact Hline.
  rewrite append_nil_l, IH by exact Hlines. reflexivity.
Qed.

Lemma one_line_app a b :
  one_line (a +:+ b) = one_line a && one_line b.
Proof.
  induction a as [|c a IH]; [reflexivity|].
  rewrite append_cons. cbn [one_line]. now rewrite IH, andb_assoc.
Qed.

Lemma one_line_escape s : one_line (Archive.escape s) = one_line s.
Proof.
  induction s as [|c s IH]; [reflexivity|].
  cbn [Archive.escape one_line].
  destruct (Ascii.eqb c Archive.dquote || Ascii.eqb c "\")%bool eqn:Hc;
    cbn [one_line]; rewrite IH; [|reflexivity].
  apply orb_true_iff in Hc as [Hc|Hc]; apply Ascii.eqb_eq in Hc; subst c;
    reflexivity.
Qed.

Lemma one_line_pack_line e :
  one_line (Archive.pack_line e)
  = one_line (category e) && one_line (package e)
    && one_line (Version.name (version e)).
Proof.
  unfold Archive.pack_line, Archive.write_quoted.
  rewrite !one_line_app. cbn [one_line]. rewrite !one_line_app.
  rewrite !one_line_escape. cbn [one_line].
  destruct (pinned e), (one_line (category e)), (one_line (package e)),
    (one_line (Version.name (version e))); reflexivity.
Qed.

End CreateFacts.

(** X18. [Archive::create] counts one package for each entry the registry
    has for an enabled remote.  The table of contents it writes has, for
    each enabled remote with such an entry and in the order of the
    remotes, a REPO line followed by the PACK lines of its entries; a
    remote without entry, or disabled, is left out.  The files looked at
    are the index of each of these remotes followed by the files of its
    entries: those on the disk are compressed, in that order, and each of
    the others gives an error. *)
Theorem create_table_of_contents
    (toString : Config.Remote -> string) (files : FS.t) (reg : Registry.t)
    (remotes : list Config.Remote) :
  let x := ArchiveCreate.create toString files reg remotes in
  let enabled := ArchiveCreate.getEnabled remotes in
  let paths := flat_map (ArchiveCreate.paths_of reg) enabled in
  ArchiveCreate.count x
  = length (flat_map (fun r => Registry.getEntries reg (Config.name r))
              enabled)
  /\ ArchiveCreate.toc x
     = ArchiveCreate.unlines
         (flat_map (ArchiveCreate.lines_of toString reg) enabled)
  /\ ArchiveCreate.jobs x = List.filter (FS.exists_ files) paths
  /\ ArchiveCreate.errors x
     = map ArchiveCreate.report
         (List.filter (fun p => negb (FS.exists_ files p)) paths).
Proof.
  intros x enabled paths.
  destruct (add_remotes_effect toString files reg enabled
              (ArchiveCreate.mk 0 EmptyString [] []))
    as (H1 & H2 & H3 & H4).
  unfold x, ArchiveCreate.create. fold enabled.
  rewrite H1, H2, H3, H4. repeat split.
Qed.

(** X19. When the text [Remote::toString] gives for the enabled remotes
    and the names of the categories, packages and versions of their
    entries have no line break, the lines [Archive::import] reads from
    the table of contents written by [Archive::create] are the lines that
    were written: for each enabled remote with an entry, its REPO line
    then the PACK lines of its entries. *)
Theorem created_toc_is_read_back
    (toString : Config.Remote -> string) (files : FS.t) (reg : Registry.t)
    (remotes : list Config.Remote) :
  (forall r, In r (ArchiveCreate.getEnabled remotes) ->
             ArchiveCreate.one_line (toString r) = true) ->
  (forall r e,
     In r (ArchiveCreate.getEnabled remotes) ->
     In e (Registry.getEntries reg (Config.name r)) ->
     ArchiveCreate.one_line (Registry.category e)
     && ArchiveCreate.one_line (Registry.package e)
     && ArchiveCreate.one_line (Version.name (Registry.version e)) = true) ->
  Archive.getlines EmptyString
    (ArchiveCreate.toc (ArchiveCreate.create toString files reg remotes))
  = flat_map (ArchiveCreate.lines_of toString reg)
      (ArchiveCreate.getEnabled remotes).
Proof.
  intros Hremote Hentry.
  destruct (add_remotes_effect toString files reg
              (ArchiveCreate.getEnabled remotes)
              (ArchiveCreate.mk 0 EmptyString [] []))
    as (_ & H & _).
  unfold ArchiveCreate.create. rewrite H. cbn [ArchiveCreate.toc].
  rewrite append_nil_l.
  apply getlines_unlines. apply forallb_forall. intros line Hin.
  apply in_flat_map in Hin as (r & Hr & Hline).
  unfold ArchiveCreate.lines_of in Hline.
  destruct (Registry.getEntries reg (Config.name r)) as [|e0 entries] eqn:He;
    [destruct Hline|].
  destruct Hline as [<-|Hline].
  - rewrite one_line_app. apply Hremote, Hr.
  - apply in_map_iff in Hline as (e & <- & Hin).
    rewrite one_line_pack_line. apply (Hentry r e Hr).
    rewrite He. exact Hin.
Qed.

Lemma created_toc_is_read_back_witness :
  let toString (r : Config.Remote) := Config.name r +:+ "|" +:+ Config.url r in
  let reg := Registry.open (Examples.db Examples.entry_pinned) in
  Archive.getlines EmptyString
    (ArchiveCreate.toc
       (ArchiveCreate.create toString Examples.disk reg [Examples.repo]))
  = ["REPO repo|https://example.com/index.xml";
     Archive.pack_line Examples.entry_pinned].
Proof.
  intros toString reg.
  assert (Hentries : Registry.getEntries reg (Config.name Examples.repo)
                     = [Examples.entry_pinned]) by (vm_compute; reflexivity).
  etrans.
  - apply (created_toc_is_read_back toString Examples.disk reg [Examples.repo]).
    + intros r [<-|[]]. vm_compute. reflexivity.
    + intros r e [<-|[]] He. rewrite Hentries in He. destruct He as [<-|[]].
      vm_compute. reflexivity.
  - vm_compute. reflexivity.
Defined.

(** ** The objects of an index *)

Section TreeFacts.

Import Tree.

Lemma find_snoc {A} (f : A -> bool) (l : list A) (x : A) :
  List.find f (l ++ [x])
  = match List.find f l with
    | Some y => Some y
    | None => if f x then Some x else None
    end.
Proof.
  induction l as [|y l IH]; simpl; [reflexivity|].
  destruct (f y); [reflexivity|exact IH].
Qed.

Lemma first_wins_empty {A} (key : A -> string) : first_wins key [] ∅.
Proof. intros name. rewrite lookup_empty. reflexivity. Qed.

Lemma first_wins_push {A} (key : A -> string) items positions (x : A) :
  first_wins key items positions ->
  first_wins key (items ++ [x])
    (map_insert_new (key x) (length items) positions).
Proof.
  intros H name. unfold map_insert_new.
  pose proof (H name) as Hname. pose proof (H (key x)) as Hx.
  rewrite find_snoc.
  destruct (decide (key x = name)) as [<-|Hne].
  - destruct (positions !! key x) as [pos|] eqn:Hpos.
    + rewrite Hpos. destruct Hname as (y & Hy & Hfind).
      exists y. rewrite Hfind. split; [|reflexivity].
      apply lookup_app_l_Some, Hy.
    + rewrite lookup_insert_eq, Hname, String.eqb_refl.
      exists x. split; [|reflexivity].
      rewrite lookup_app_r by lia. now rewrite Nat.sub_diag.
  - assert (Hlook : match positions !! key x with
                    | Some _ => positions
                    | None => <[key x := length items]> positions
                    end !! name = positions !! name).
    { destruct (positions !! key x); [reflexivity|].
      apply lookup_insert_ne, Hne. }
    rewrite Hlook.
    assert (Heqb : String.eqb (key x) name = false)
      by (apply String.eqb_neq, Hne).
    rewrite Heqb.
    destruct (positions !! name) as [pos|].
    + destruct Hname as (y & Hy & Hfind). exists y. rewrite Hfind.
      split; [|reflexivity]. apply lookup_app_l_Some, Hy.
    + rewrite Hname. reflexivity.
Qed.

Lemma first_wins_lookup {A} (key : A -> string) items positions name :
  first_wins key items positions ->
  match positions !! name with
  | Some pos => items !! pos
  | None => None
  end
  = List.find (fun y => String.eqb (key y) name) items.
Proof.
  intros H. specialize (H name).
  destruct (positions !! name); [|now rewrite H].
  destruct H as (x & -> & ->). reflexivity.
Qed.

Lemma built_category_ok cat : built_category cat -> category_ok cat.
Proof.
  induction 1 as [self name ri cat Hnew|cat pkg added cat' Hcat IH Hadd].
  - unfold Category_new in Hnew.
    destruct (String.eqb name EmptyString) eqn:Hname; [discriminate|].
    injection Hnew as <-. split; [|split].
    + simpl. apply String.eqb_neq, Hname.
    + apply first_wins_empty.
    + constructor.
  - destruct IH as (Hname & Hmap & Hall).
    unfold addPackage in Hadd.
    destruct (bool_decide (p_category pkg = Some (c_this cat))) eqn:Hown;
      [|discriminate].
    apply bool_decide_eq_true in Hown. cbn [negb] in Hadd.
    destruct (is_unknown (p_type pkg)
              || match p_versions pkg with [] => true | _ => false end)
      eqn:Hdrop.
    + injection Hadd as _ <-. split; [|split]; assumption.
    + injection Hadd as _ <-. apply orb_false_iff in Hdrop as [Ht Hv].
      split; [|split]; simpl.
      * exact Hname.
      * apply first_wins_push, Hmap.
      * apply Forall_app. split; [exact Hall|].
        constructor; [|constructor]. split; [|split].
        -- exact Hown.
        -- intros E. rewrite E in Ht. discriminate.
        -- intros E. rewrite E in Hv. discriminate.
Qed.

Lemma built_index_ok ri : built_index ri -> index_ok ri.
Proof.
  induction 1 as [self name|ri newName ri' Hri IH Hname
                  |ri cat added ri' Hri IH Hcat Hadd].
  - split; [apply first_wins_empty|split; [reflexivity|constructor]].
  - unfold setName in Hname.
    destruct (negb (String.eqb (m_name ri) EmptyString)); [discriminate|].
    injection Hname as <-. exact IH.
  - destruct IH as (Hmap & Hpkgs & Hall).
    unfold addCategory in Hadd.
    destruct (bool_decide (c_index cat = Some (this ri))) eqn:Hown;
      [|discriminate].
    apply bool_decide_eq_true in Hown. cbn [negb] in Hadd.
    destruct (c_packages cat) as [|pkg pkgs] eqn:Hpk.
    + injection Hadd as _ <-. split; [|split]; assumption.
    + injection Hadd as _ <-. split; [|split]; simpl.
      * apply first_wins_push, Hmap.
      * rewrite flat_map_app, Hpkgs. simpl. now rewrite Hpk, app_nil_r.
      * apply Forall_app. split; [exact Hall|].
        constructor; [|constructor]. split; [|split].
        -- exact Hown.
        -- rewrite Hpk. discriminate.
        -- apply built_category_ok, Hcat.
Qed.

Lemma find_map {A B} (f : A -> B) (p : B -> bool) (l : list A) :
  List.find p (map f l) = f <$> List.find (fun x => p (f x)) l.
Proof.
  induction l as [|x l IH]; simpl; [reflexivity|].
  destruct (p (f x)); [reflexivity|exact IH].
Qed.

Lemma plain_package_found remote cat name :
  category_ok cat ->
  Index.package (plain_category remote cat) name
  = plain_package remote (c_name cat) <$> package cat name.
Proof.
  intros (_ & Hmap & _). unfold Index.package, package. simpl.
  rewrite find_map. simpl. f_equal. symmetry.
  apply (first_wins_lookup p_name), Hmap.
Qed.

End TreeFacts.

(** X20. In a category made by its constructor and calls of
    [addPackage], looking a package up by name gives the first package
    added under that name, and never reads outside the vector; the name
    of the category is not empty and every package kept belongs to the
    category, has a known type and at least one version. *)
Theorem category_finds_first_package (cat : Tree.Category) (name : string) :
  Tree.built_category cat ->
  Tree.package cat name
  = List.find (fun pkg => String.eqb (Tree.p_name pkg) name)
      (Tree.c_packages cat)
  /\ Tree.c_name cat <> EmptyString
  /\ Forall (fun pkg =>
               Tree.p_category pkg = Some (Tree.c_this cat)
               /\ Tree.p_type pkg <> Index.UnknownType
               /\ Tree.p_versions pkg <> [])
       (Tree.c_packages cat).
Proof.
  intros H. destruct (built_category_ok cat H) as (Hname & Hmap & Hall).
  split; [|split; assumption].
  apply (first_wins_lookup Tree.p_name), Hmap.
Qed.

(** X21. In an index made by its constructor and calls of [setName] and
    [addCategory], looking a category up by name gives the first
    category added under that name, and never reads outside the vector;
    [m_packages] lists the packages of the categories in the order the
    categories were added; every category kept belongs to the index and
    has a package. *)
Theorem index_finds_first_category (ri : Tree.t) (name : string) :
  Tree.built_index ri ->
  Tree.category ri name
  = List.find (fun cat => String.eqb (Tree.c_name cat) name)
      (Tree.m_categories ri)
  /\ Tree.m_packages ri = flat_map Tree.c_packages (Tree.m_categories ri)
  /\ Forall (fun cat =>
               Tree.c_index cat = Some (Tree.this ri)
               /\ Tree.c_packages cat <> [])
       (Tree.m_categories ri).
Proof.
  intros H. destruct (built_index_ok ri H) as (Hmap & Hpkgs & Hall).
  split; [|split; [exact Hpkgs|]].
  - apply (first_wins_lookup Tree.c_name), Hmap.
  - eapply Forall_impl; [exact Hall|]. intros cat (H1 & H2 & _). auto.
Qed.

(** X22. The index kept as lists of categories and packages, with
    look-ups that take the first member of a name, agrees with the index
    [index.cpp] builds with its maps of positions: [category], [package]
    through [find], and the list of all packages give the same
    answers. *)
Theorem plain_index_agrees (ri : Tree.t) (catName pkgName : string) :
  Tree.built_index ri ->
  Index.category (Tree.plain ri) catName
  = Tree.plain_category (Tree.m_name ri) <$> Tree.category ri catName
  /\ Index.find (Tree.plain ri) catName pkgName
     = Tree.plain_package (Tree.m_name ri) catName
       <$> Tree.find ri catName pkgName
  /\ map Index.p_name (Index.packages (Tree.plain ri))
     = map Tree.p_name (Tree.m_packages ri).
Proof.
  intros H. destruct (built_index_ok ri H) as (Hmap & Hpkgs & Hall).
  assert (Hcat : Index.category (Tree.plain ri) catName
                 = Tree.plain_category (Tree.m_name ri)
                   <$> Tree.category ri catName).
  { unfold Index.category, Tree.category. simpl. rewrite find_map. simpl.
    f_equal. symmetry. apply (first_wins_lookup Tree.c_name), Hmap. }
  split; [exact Hcat|]. split.
  - unfold Index.find, Tree.find. rewrite Hcat.
    destruct (Tree.category ri catName) as [cat|] eqn:Hfound;
      [|reflexivity].
    simpl.
    assert (Hin : In cat (Tree.m_categories ri)
                  /\ String.eqb (Tree.c_name cat) catName = true).
    { unfold Tree.category in Hfound.
      rewrite (first_wins_lookup Tree.c_name _ _ _ Hmap) in Hfound.
      apply List.find_some in Hfound. exact Hfound. }
    destruct Hin as [Hin Heq]. apply String.eqb_eq in Heq. subst catName.
    apply plain_package_found.
    rewrite List.Forall_forall in Hall. apply (Hall cat Hin).
  - rewrite Hpkgs. unfold Index.packages. simpl.
    generalize (Tree.m_categories ri). intros cats.
    induction cats as [|cat cats IH]; [reflexivity|].
    simpl. rewrite !map_app, IH, map_map. reflexivity.
Qed.

Section TreeExampleFacts.

Import Tree TreeExamples.

Lemma cat_twice_built : built_category cat_twice.
Proof.
  apply (bc_add (mkCategory 2%nat (Some 1%nat) "Cat" [script Examples.script_1_0]
                   {[ "a.lua" := 0%nat ]})
           (script Examples.script_1_1) true).
  - apply (bc_add (mkCategory 2%nat (Some 1%nat) "Cat" [] ∅)
             (script Examples.script_1_0) true).
    + apply (bc_new 2%nat "Cat" (Some 1%nat)). reflexivity.
    + reflexivity.
  - reflexivity.
Defined.

Lemma index_twice_built : built_index index_twice.
Proof.
  apply (bi_add (mkIndex 1%nat "repo" [] ∅ []) cat_twice true).
  - apply (bi_name (Index_new 1%nat EmptyString) "repo").
    + apply bi_new.
    + reflexivity.
  - exact cat_twice_built.
  - reflexivity.
Defined.

End TreeExampleFacts.

Lemma category_finds_first_package_witness :
  Tree.package TreeExamples.cat_twice "a.lua"
  = Some (TreeExamples.script Examples.script_1_0)
  /\ Tree.c_name TreeExamples.cat_twice <> EmptyString
  /\ Forall (fun pkg =>
               Tree.p_category pkg = Some (Tree.c_this TreeExamples.cat_twice)
               /\ Tree.p_type pkg <> Index.UnknownType
               /\ Tree.p_versions pkg <> [])
       (Tree.c_packages TreeExamples.cat_twice).
Proof.
  exact (category_finds_first_package TreeExamples.cat_twice "a.lua"
           cat_twice_built).
Defined.

Lemma index_finds_first_category_witness :
  Tree.category TreeExamples.index_twice "Cat" = Some TreeExamples.cat_twice
  /\ Tree.m_packages TreeExamples.index_twice
     = flat_map Tree.c_packages (Tree.m_categories TreeExamples.index_twice)
  /\ Forall (fun cat =>
               Tree.c_index cat = Some (Tree.this TreeExamples.index_twice)
               /\ Tree.c_packages cat <> [])
       (Tree.m_categories TreeExamples.index_twice).
Proof.
  exact (index_finds_first_category TreeExamples.index_twice "Cat"
           index_twice_built).
Defined.

Lemma plain_index_agrees_witness :
  Index.category (Tree.plain TreeExamples.index_twice) "Cat"
  = Tree.plain_category "repo"
    <$> Tree.category TreeExamples.index_twice "Cat"
  /\ Index.find (Tree.plain TreeExamples.index_twice) "Cat" "a.lua"
     = Tree.plain_package "repo" "Cat"
       <$> Tree.find TreeExamples.index_twice "Cat" "a.lua"
  /\ map Index.p_name (Index.packages (Tree.plain TreeExamples.index_twice))
     = map Tree.p_name (Tree.m_packages TreeExamples.index_twice).
Proof.
  exact (plain_index_agrees TreeExamples.index_twice "Cat" "a.lua"
           index_twice_built).
Defined.

(** ** Synchronising every remote *)

Section SynchronizeAllFacts.

Import Transaction.

Variable loadV1 : TiXmlElement -> Index.t -> result Index.t.
Variable lastVersion :
  Index.Package -> bool -> Version.t -> option Index.IVersion.

Local Abbreviation synchronize := (synchronize loadV1 lastVersion).

Lemma synchronize_pushes remote s :
  synchronize remote None s
  = if bool_decide (Config.name remote ∈ m_syncedRemotes s) then s
    else pool_push (ReaPack.index_download (m_config s) remote)
           (set_syncedRemotes ({[Config.name remote]} ∪ m_syncedRemotes s) s).
Proof.
  unfold Transaction.synchronize, fetchIndex, ReaPack.index_download.
  destruct (bool_decide (Config.name remote ∈ m_syncedRemotes s));
    reflexivity.
Qed.

Lemma synchronize_each remotes : forall s,
  let s' := fold_left (fun s remote => synchronize remote None s) remotes s in
  m_threadPool s'
  = m_threadPool s
    ++ map (ReaPack.index_download (m_config s)) (ReaPack.firsts (m_syncedRemotes s) remotes)
  /\ m_nextQueue s' = m_nextQueue s /\ m_taskQueues s' = m_taskQueues s
  /\ m_registry s' = m_registry s /\ m_runningTasks s' = m_runningTasks s
  /\ finished s' = finished s /\ m_config s' = m_config s
  /\ m_receipt s' = m_receipt s /\ fs s' = fs s.
Proof.
  induction remotes as [|remote rest IH]; intros s.
  - simpl. rewrite app_nil_r. repeat split.
  - cbn [fold_left ReaPack.firsts]. rewrite synchronize_pushes.
    destruct (bool_decide (Config.name remote ∈ m_syncedRemotes s)).
    + apply IH.
    + match goal with
      | |- context [fold_left _ rest ?x] =>
          destruct (IH x) as (H1 & H2 & H3 & H4 & H5 & H6 & H7 & H8 & H9)
      end.
      cbv zeta. rewrite H1, H2, H3, H4, H5, H6, H7, H8, H9. simpl.
      rewrite <- app_assoc. repeat split.
Qed.

End SynchronizeAllFacts.

(** X23. [synchronizeAll] with no transaction in progress: when no remote
    is enabled it only shows a message and starts no transaction.
    Otherwise it starts one in which the index of each enabled remote is
    being downloaded, once for each name (the first remote of a name
    counts), in the order of the remotes; no task is queued yet, the
    registry is as it was opened, and the transaction is left waiting
    for the downloads. *)
Theorem synchronizeAll_downloads_each_index_once
    (loadV1 : TiXmlElement -> Index.t -> result Index.t)
    (lastVersion : Index.Package -> bool -> Version.t -> option Index.IVersion)
    (m_promptObsolete : list Registry.Entry -> bool * list Registry.Entry)
    (doStart : Transaction.Task -> Registry.table -> Transaction.StartResult)
    (doCommit : Transaction.Task -> Registry.table -> Transaction.CommitResult)
    (doRollback : Transaction.Task -> list Transaction.ErrorInfo)
    (rp : ReaPack.t) (db : Registry.table) :
  ReaPack.m_tx rp = None ->
  ReaPack.registry rp = Ok db ->
  let enabled := ArchiveCreate.getEnabled
                   (Config.remotes (ReaPack.m_config rp)) in
  let rp' := ReaPack.synchronizeAll loadV1 lastVersion m_promptObsolete
               doStart doCommit doRollback rp in
  match enabled with
  | [] =>
      ReaPack.m_tx rp' = None
      /\ ReaPack.boxes rp'
         = ReaPack.boxes rp ++ ["No repository enabled, nothing to do!"]
  | _ =>
      ReaPack.boxes rp' = ReaPack.boxes rp
      /\ exists tx,
           ReaPack.m_tx rp' = Some tx
           /\ Transaction.m_threadPool tx
              = map (ReaPack.index_download (ReaPack.m_config rp))
                  (ReaPack.firsts ∅ enabled)
           /\ Transaction.finished tx = false
           /\ Transaction.m_nextQueue tx = []
           /\ Transaction.m_taskQueues tx = []
           /\ Transaction.m_registry tx
              = Registry.savepoint (Registry.open db)
  end.
Proof.
  intros Htx Hdb enabled rp'. unfold rp', ReaPack.synchronizeAll.
  fold enabled.
  destruct enabled as [|remote rest] eqn:He.
  - split; [exact Htx|reflexivity].
  - unfold ReaPack.setupTransaction. rewrite Htx, Hdb.
    set (tx0 := Transaction.create (ReaPack.m_config rp) db (ReaPack.disk rp)
                  (ReaPack.clock rp)).
    destruct (synchronize_each loadV1 lastVersion (remote :: rest) tx0)
      as (H1 & H2 & H3 & H4 & H5 & H6 & H7 & H8 & H9).
    set (tx1 := fold_left
                  (fun tx r => Transaction.synchronize loadV1 lastVersion r
                                 None tx) (remote :: rest) tx0) in *.
    assert (Hpool : Transaction.m_threadPool tx1
                    = ReaPack.index_download (ReaPack.m_config rp) remote
                      :: map (ReaPack.index_download (ReaPack.m_config rp))
                           (ReaPack.firsts {[Config.name remote]} rest)).
    { rewrite H1. simpl. rewrite union_empty_r_L. reflexivity. }
    assert (Hrun : Transaction.runTasks m_promptObsolete doStart doCommit
                     doRollback tx1 = (false, tx1)).
    { unfold Transaction.runTasks. rewrite H2. simpl.
      unfold Transaction.commitTasks, Transaction.idle. rewrite Hpool.
      reflexivity. }
    unfold ReaPack.ran. rewrite Hrun. cbn [snd]. rewrite H6. simpl.
    split; [reflexivity|]. exists tx1.
    rewrite H1, H2, H3, H4, H6. repeat split.
Qed.

Lemma synchronizeAll_downloads_each_index_once_witness :
  let rp := ReaPack.mk (Config.mkConfig Examples.opts
                          [Examples.repo; Examples.repo])
              None [] (Ok (Examples.db Examples.entry_free)) Examples.disk
              Examples.noon in
  let rp' := ReaPack.synchronizeAll Examples.loadV1 Examples.lastVersion
               Examples.promptObsolete Examples.doStart Examples.doCommit
               Examples.doRollback rp in
  ReaPack.boxes rp' = []
  /\ exists tx,
       ReaPack.m_tx rp' = Some tx
       /\ Transaction.m_threadPool tx
          = [ReaPack.index_download (ReaPack.m_config rp) Examples.repo]
       /\ Transaction.finished tx = false
       /\ Transaction.m_nextQueue tx = []
       /\ Transaction.m_taskQueues tx = []
       /\ Transaction.m_registry tx
          = Registry.savepoint
              (Registry.open (Examples.db Examples.entry_free)).
Proof.
  intros rp rp'.
  exact (synchronizeAll_downloads_each_index_once Examples.loadV1
           Examples.lastVersion Examples.promptObsolete Examples.doStart
           Examples.doCommit Examples.doRollback rp
           (Examples.db Examples.entry_free) eq_refl eq_refl).
Defined.
